(** * json-utilities: the schema editor (js/schema.js, js/dom.js)

    A shallow embedding of the schema editor of the JSON tools page:
    reference resolution, the [allOf] merge, the form that is built from a
    schema, the handlers of its buttons and selectors, and the collection of
    the JSON document from the form.

    - JavaScript values are the inductive [json]; objects keep their members
      as an association list in the host's own-property order.
    - The form is a tree of [node]s; the handlers that the source attaches as
      closures are kept in the node as data ([handler]) and run by [click]
      and [change], which a disabled element does not receive.
    - Code that can throw, that recurses without a structural bound, or that
      depends on a member the host's prototypes provide, returns an
      [outcome].
    - What the browser provides (number parsing beyond plain integers,
      regular expressions, the validator, the network) is the class [Host]
      or an explicit argument. *)

From Stdlib Require Import List String Ascii ZArith NArith Bool Lia DecimalString.
Import ListNotations.
Open Scope string_scope.

(* ================================================================== *)
(** * Outcomes *)

Inductive outcome (A : Type) : Type :=
| Ret (a : A)        (* the call returns [a] *)
| Throws             (* the call throws (TypeError and the like) *)
| HostDependent      (* the result depends on members of the host's prototypes,
                        on object identity or on UTF-16 code units *)
| OutOfFuel.         (* the recursion bound of the model was reached *)

Arguments Ret {A} a.
Arguments Throws {A}.
Arguments HostDependent {A}.
Arguments OutOfFuel {A}.

Definition bind {A B : Type} (m : outcome A) (k : A -> outcome B) : outcome B :=
  match m with
  | Ret a => k a
  | Throws => Throws
  | HostDependent => HostDependent
  | OutOfFuel => OutOfFuel
  end.

Notation "x <- m ;; k" := (bind m (fun x => k))
  (at level 61, m at next level, right associativity).
Notation "' p <- m ;; k" := (bind m (fun x => let p := x in k))
  (at level 61, p pattern, m at next level, right associativity).

Definition omap {A B : Type} (f : A -> B) (m : outcome A) : outcome B :=
  x <- m ;; Ret (f x).

(** [forEach]/[reduce]/[map] with a callback that may fail. *)
Section Iteration.
Context {A B : Type}.

Section Fold.
Variable f : B -> A -> outcome B.
Fixpoint foldM (l : list A) (s : B) : outcome B :=
  match l with
  | [] => Ret s
  | x :: r => s' <- f s x ;; foldM r s'
  end.
End Fold.

Section Map.
Variable f : A -> outcome B.
Fixpoint mapM (l : list A) : outcome (list B) :=
  match l with
  | [] => Ret []
  | x :: r => y <- f x ;; ys <- mapM r ;; Ret (y :: ys)
  end.
End Map.
End Iteration.

(* ================================================================== *)
(** * Values *)

(** A finite number: integer-valued, or a non-integer given by its floor and
    by the text [String(x)] the host prints for it. *)
Inductive number : Type :=
| Int (z : Z)
| Frac (floor : Z) (repr : string).

(** The result of [Number(...)] and [parseInt(...)]. *)
Inductive numres : Type :=
| Fin (n : number)
| NaN
| PosInf
| NegInf.

Unset Elimination Schemes.
Inductive json : Type :=
| JUndefined
| JNull
| JBool (b : bool)
| JNum (n : number)
| JStr (s : string)
| JArr (items : list json)
| JObj (members : list (string * json)).
Set Elimination Schemes.

Definition members_of (v : json) : list (string * json) :=
  match v with JObj m => m | _ => [] end.

Section JsonInduction.
Variable P : json -> Prop.
Hypothesis Hundef : P JUndefined.
Hypothesis Hnull : P JNull.
Hypothesis Hbool : forall b, P (JBool b).
Hypothesis Hnum : forall n, P (JNum n).
Hypothesis Hstr : forall s, P (JStr s).
Hypothesis Harr : forall l, Forall P l -> P (JArr l).
Hypothesis Hobj : forall m, Forall (fun kv => P (snd kv)) m -> P (JObj m).

Fixpoint json_deep_ind (v : json) : P v :=
  match v with
  | JUndefined => Hundef
  | JNull => Hnull
  | JBool b => Hbool b
  | JNum n => Hnum n
  | JStr s => Hstr s
  | JArr l =>
      Harr l ((fix go (l : list json) : Forall P l :=
               match l with
               | [] => Forall_nil _
               | x :: r => Forall_cons x (json_deep_ind x) (go r)
               end) l)
  | JObj m =>
      Hobj m ((fix go (m : list (string * json)) : Forall (fun kv => P (snd kv)) m :=
               match m with
               | [] => Forall_nil _
               | kv :: r => Forall_cons kv (json_deep_ind (snd kv)) (go r)
               end) m)
  end.
End JsonInduction.

Definition number_eqb (a b : number) : bool :=
  match a, b with
  | Int x, Int y => Z.eqb x y
  | Frac f r, Frac g s => Z.eqb f g && String.eqb r s
  | _, _ => false
  end.

(** Structural equality ([===] on primitives). *)
Fixpoint json_eqb (a b : json) : bool :=
  match a, b with
  | JUndefined, JUndefined => true
  | JNull, JNull => true
  | JBool x, JBool y => Bool.eqb x y
  | JNum x, JNum y => number_eqb x y
  | JStr x, JStr y => String.eqb x y
  | JArr x, JArr y =>
      (fix go (x y : list json) : bool :=
         match x, y with
         | [], [] => true
         | u :: x', v :: y' => json_eqb u v && go x' y'
         | _, _ => false
         end) x y
  | JObj x, JObj y =>
      (fix go (x y : list (string * json)) : bool :=
         match x, y with
         | [], [] => true
         | (k, u) :: x', (l, v) :: y' => String.eqb k l && json_eqb u v && go x' y'
         | _, _ => false
         end) x y
  | _, _ => false
  end.

(** ToBoolean. *)
Definition truthy (v : json) : bool :=
  match v with
  | JUndefined | JNull => false
  | JBool b => b
  | JNum (Int z) => negb (Z.eqb z 0)
  | JNum (Frac _ _) => true
  | JStr s => negb (String.eqb s "")
  | JArr _ | JObj _ => true
  end.

(** [typeof v === "object"] (true of [null] too). *)
Definition typeof_object (v : json) : bool :=
  match v with JNull | JArr _ | JObj _ => true | _ => false end.

Definition is_array (v : json) : bool :=
  match v with JArr _ => true | _ => false end.

Definition is_string (v : json) : bool :=
  match v with JStr _ => true | _ => false end.

Definition is_undefined (v : json) : bool :=
  match v with JUndefined => true | _ => false end.

(** Identity-compared values: a [Set] or [includes] tells two of them apart
    by reference, which the embedding does not track. *)
Definition by_reference (v : json) : bool :=
  match v with JArr _ | JObj _ => true | _ => false end.

(** [a || b] *)
Definition or_else (a b : json) : json := if truthy a then a else b.

(* ================================================================== *)
(** * Strings *)

Definition starts_with (p s : string) : bool := String.prefix p s.

(** [s.slice(n)] *)
Fixpoint slice_from (n : nat) (s : string) : string :=
  match n, s with
  | O, _ => s
  | S n', String _ r => slice_from n' r
  | S _, EmptyString => EmptyString
  end.

(** [s.split(c)] for a one-character separator. *)
Fixpoint split_on (c : ascii) (s : string) : list string :=
  match s with
  | EmptyString => [EmptyString]
  | String x r =>
      if Ascii.eqb x c then EmptyString :: split_on c r
      else match split_on c r with
           | [] => [String x EmptyString]
           | h :: t => String x h :: t
           end
  end.

(** [s.replace(/ab/g, r)] for a two-character pattern [ab]. *)
Fixpoint replace2 (a b : ascii) (r : string) (s : string) : string :=
  match s with
  | EmptyString => EmptyString
  | String x rest =>
      match rest with
      | String y rest' =>
          if Ascii.eqb x a && Ascii.eqb y b then r ++ replace2 a b r rest'
          else String x (replace2 a b r rest)
      | EmptyString => s
      end
  end.

Definition includes_char (c : ascii) (s : string) : bool :=
  existsb (Ascii.eqb c) (list_ascii_of_string s).

Definition is_ascii (s : string) : bool :=
  forallb (fun c => Nat.ltb (nat_of_ascii c) 128) (list_ascii_of_string s).

Definition nat_to_string (n : nat) : string :=
  NilZero.string_of_uint (Nat.to_uint n).

Definition Z_to_string (z : Z) : string :=
  NilZero.string_of_int (Z.to_int z).

(** A plain decimal integer literal: digits with an optional [-]. *)
Definition plain_integer (s : string) : option Z :=
  match s with
  | EmptyString => None
  | String "-" EmptyString => None
  | _ => option_map Z.of_int (NilZero.int_of_string s)
  end.

(** Integers that a double holds exactly. *)
Definition safe_integer (z : Z) : bool :=
  (Z.leb (- 9007199254740991) z) && (Z.leb z 9007199254740991).

(** A canonical array index: the member names the host orders first. *)
Definition array_index (k : string) : option N :=
  match NilZero.uint_of_string k with
  | Some u =>
      let n := N.of_uint u in
      if String.eqb (NilZero.string_of_uint (N.to_uint n)) k && N.ltb n 4294967295
      then Some n else None
  | None => None
  end.

(* ================================================================== *)
(** * Objects: own members in the host's order *)

Fixpoint assoc (k : string) (m : list (string * json)) : option json :=
  match m with
  | [] => None
  | (k', v) :: r => if String.eqb k k' then Some v else assoc k r
  end.

Definition has_own (k : string) (m : list (string * json)) : bool :=
  match assoc k m with Some _ => true | None => false end.

Fixpoint replace_member (k : string) (v : json) (m : list (string * json)) :=
  match m with
  | [] => []
  | (k', v') :: r =>
      if String.eqb k k' then (k', v) :: r else (k', v') :: replace_member k v r
  end.

(** A new index-like member goes before the first member that is not an
    index or is a larger index; any other new member goes last. *)
Fixpoint insert_index (n : N) (k : string) (v : json) (m : list (string * json)) :=
  match m with
  | [] => [(k, v)]
  | (k', v') :: r =>
      match array_index k' with
      | Some n' => if N.ltb n n' then (k, v) :: m else (k', v') :: insert_index n k v r
      | None => (k, v) :: m
      end
  end.

(** CreateDataProperty: what a spread or an object literal does per member. *)
Definition define (k : string) (v : json) (m : list (string * json)) :=
  if has_own k m then replace_member k v m
  else match array_index k with
       | Some n => insert_index n k v m
       | None => (m ++ [(k, v)])%list
       end.

(** [obj[k] = v]: as [define], but a new member named [__proto__] reaches
    the prototype setter instead. *)
Definition assign (k : string) (v : json) (m : list (string * json))
  : outcome (list (string * json)) :=
  if String.eqb k "__proto__" && negb (has_own k m) then HostDependent
  else Ret (define k v m).

(** [delete obj[k]] *)
Fixpoint delete (k : string) (m : list (string * json)) :=
  match m with
  | [] => []
  | (k', v) :: r => if String.eqb k k' then r else (k', v) :: delete k r
  end.

Fixpoint indexed_from (i : nat) (l : list json) : list (string * json) :=
  match l with
  | [] => []
  | x :: r => (nat_to_string i, x) :: indexed_from (S i) r
  end.

(** The own enumerable members of a value, as [Object.entries] and a spread
    see them.  A non-empty string has one member per UTF-16 code unit. *)
Definition own_entries (v : json) : outcome (list (string * json)) :=
  match v with
  | JObj m => Ret m
  | JArr l => Ret (indexed_from 0 l)
  | JStr s => if String.eqb s "" then Ret [] else HostDependent
  | _ => Ret []
  end.

(** [{...a, ...}] continued onto members [m]. *)
Definition spread_onto (m : list (string * json)) (v : json)
  : outcome (list (string * json)) :=
  es <- own_entries v ;;
  Ret (fold_left (fun acc kv => define (fst kv) (snd kv) acc) es m).

(** A read [v.keyword] of one of the schema keywords the source names
    literally; none of them is a member of a prototype. *)
Definition prop (v : json) (k : string) : json :=
  match v with
  | JObj m => match assoc k m with Some x => x | None => JUndefined end
  | _ => JUndefined
  end.

(* ================================================================== *)
(** * The host *)

(** What the browser brings and the source only calls. *)
Class Host : Type := {
  (** [inherits acc k]: values like [acc] find a member named [k] on their
      prototype chain ([constructor], [toString], ...). *)
  inherits : json -> string -> bool;
  (** [Number(s)] for [s] other than a plain decimal integer. *)
  Number_host : string -> numres;
  (** [parseInt(s, 10)] for [s] other than a plain decimal integer. *)
  parseInt_host : string -> numres;
  (** [String(z)] for an integer beyond the exactly represented ones. *)
  String_host : Z -> string;
  (** [new RegExp(p).test(s)]; [None] when the constructor throws. *)
  RegExp_test : string -> string -> option bool;
  (** [JSON.stringify(v)] *)
  JSON_stringify : json -> string;
  (** Whether a number input keeps [s] as its value, for [s] other than a
      plain decimal integer (which it keeps). *)
  valid_number_host : string -> bool
}.

Section Conversions.
Context {H : Host}.

(** [Number(s)] of a string. *)
Definition Number_of_string (s : string) : numres :=
  if String.eqb s "" then Fin (Int 0)
  else match plain_integer s with
       | Some z => if safe_integer z then Fin (Int z) else Number_host s
       | None => Number_host s
       end.

(** [parseInt(s, 10)] *)
Definition parseInt (s : string) : numres :=
  match plain_integer s with
  | Some z => if safe_integer z then Fin (Int z) else parseInt_host s
  | None => parseInt_host s
  end.

Definition String_of_number (n : number) : string :=
  match n with
  | Int z => if safe_integer z then Z_to_string z else String_host z
  | Frac _ repr => repr
  end.

Definition String_of_numres (r : numres) : string :=
  match r with
  | Fin n => String_of_number n
  | NaN => "NaN"
  | PosInf => "Infinity"
  | NegInf => "-Infinity"
  end.

Definition join_with (sep : string) (l : list string) : string :=
  match l with
  | [] => ""
  | x :: r => fold_left (fun acc y => acc ++ sep ++ y) r x
  end.

(** [String(v)], which is what storing [v] in a [dataset] entry or in a
    control's [value] does. *)
Fixpoint String_of (v : json) : string :=
  match v with
  | JUndefined => "undefined"
  | JNull => "null"
  | JBool true => "true"
  | JBool false => "false"
  | JNum n => String_of_number n
  | JStr s => s
  | JArr l =>
      join_with ","
        (map (fun x => match x with
                       | JUndefined | JNull => ""
                       | _ => String_of x
                       end) l)
  | JObj _ => "[object Object]"
  end.

(** utils.js [stringifySchemaValue] *)
Definition stringifySchemaValue (value : json) : string :=
  match value with
  | JStr s => s
  | JNum _ | JBool _ => String_of value
  | JNull => "null"
  | _ => JSON_stringify value
  end.
End Conversions.

(* ================================================================== *)
(** * Reference resolution: [resolveRef], [resolveSchema] *)

Section Resolution.
Context {H : Host}.

(** [state.schema], the loaded root document ([JNull] before a load). *)
Variable state_schema : json.

(** [acc[segment]] for a truthy [acc]. *)
Definition member (acc : json) (segment : string) : outcome json :=
  let absent := if inherits acc segment then HostDependent else Ret JUndefined in
  match acc with
  | JObj m =>
      match assoc segment m with
      | Some v => Ret v
      | None => absent
      end
  | JArr l =>
      match array_index segment with
      | Some n =>
          match nth_error l (N.to_nat n) with
          | Some v => Ret v
          | None => absent
          end
      | None =>
          if String.eqb segment "length" then Ret (JNum (Int (Z.of_nat (List.length l))))
          else absent
      end
  | JStr s =>
      if is_ascii s then
        match array_index segment with
        | Some n =>
            match String.get (N.to_nat n) s with
            | Some c => Ret (JStr (String c EmptyString))
            | None => absent
            end
        | None =>
            if String.eqb segment "length"
            then Ret (JNum (Int (Z.of_nat (String.length s))))
            else absent
        end
      else HostDependent
  | JNum _ | JBool _ => absent
  | JUndefined | JNull => Throws
  end.

(** [segment.replace(/~1/g, "/").replace(/~0/g, "~")] *)
Definition unescape_segment (segment : string) : string :=
  replace2 "~" "0" "~" (replace2 "~" "1" "/" segment).

(** The callback of [path.reduce] in [resolveRef]:
    [acc && acc[segment] !== undefined ? acc[segment] : null]. *)
Definition pointer_step (acc : json) (segment : string) : outcome json :=
  if truthy acc then
    v <- member acc segment ;;
    Ret (if is_undefined v then JNull else v)
  else Ret JNull.

Definition resolveRef (ref : json) : outcome json :=
  match ref with
  | JStr r =>
      if negb (truthy ref) then Ret JNull
      else if starts_with "#" r then
        if String.eqb r "#" then Ret state_schema
        else if negb (starts_with "#/" r) then Ret JNull
        else
          let path := map unescape_segment (split_on "/" (slice_from 2 r)) in
          foldM pointer_step path state_schema
      else if starts_with "http://" r || starts_with "https://" r then
        Ret (JObj [("__unresolvedRef", JStr r)])
      else Ret JNull
  | _ => Ret JNull
  end.

(** [seen.has(ref)]: a [Set] compares primitives by value, objects by
    identity. *)
Definition set_has (seen : list json) (ref : json) : outcome bool :=
  if by_reference ref then
    if existsb by_reference seen then HostDependent else Ret false
  else Ret (existsb (json_eqb ref) seen).

(** [seen.add(ref)] *)
Definition set_add (seen : list json) (ref : json) : outcome (list json) :=
  h <- set_has seen ref ;;
  Ret (if h then seen else (seen ++ [ref])%list).

(** The body of [resolveSchema]; [resolveSchema_rec] is the recursive
    call. *)
Definition resolveSchema_body (resolveSchema_rec : json -> list json -> outcome json)
           (schema : json) (seen : list json) : outcome json :=
  match schema with
  | JBool true => Ret (JObj [])
  | JBool false => Ret (JObj [("__alwaysInvalid", JBool true)])
  | _ =>
      if negb (truthy schema) || negb (typeof_object schema) then Ret schema
      else if negb (truthy (prop schema "$ref")) then Ret schema
      else if negb (truthy state_schema) then Ret schema
      else
        let ref := prop schema "$ref" in
        h <- set_has seen ref ;;
        if h then
          Ret (JObj [("__circularRef", JBool true);
                     ("description", prop schema "description")])
        else
          resolved <- resolveRef ref ;;
          if negb (truthy resolved) then
            Ret (JObj [("__unresolvedRef", ref);
                       ("description", prop schema "description")])
          else
            seen' <- set_add seen ref ;;
            (* const { $ref, ...rest } = schema *)
            rest <- spread_onto [] (JObj (delete "$ref" (members_of schema))) ;;
            (* const merged = { ...resolved, ...rest } *)
            m1 <- spread_onto [] resolved ;;
            m2 <- spread_onto m1 (JObj rest) ;;
            (* delete merged.$ref *)
            resolveSchema_rec (JObj (delete "$ref" m2)) seen'
  end.

Fixpoint resolveSchema_fuel (fuel : nat) (schema : json) (seen : list json)
  : outcome json :=
  match fuel with
  | O => OutOfFuel
  | S fuel' => resolveSchema_body (resolveSchema_fuel fuel') schema seen
  end.

(** The recursive call always meets a schema without [$ref]: two levels
    are all that [resolveSchema] ever uses. *)
Definition resolveSchema (schema : json) : outcome json :=
  resolveSchema_fuel 2 schema [].
End Resolution.

(* ================================================================== *)
(** * Types of a schema node: [getSchemaType], [deducePrimitiveType],
      [coerceValue] *)

Section Types.
Context {H : Host}.

Definition getSchemaType (schema : json) : json :=
  if negb (truthy schema) || negb (typeof_object schema) then JUndefined
  else
    match prop schema "type" with
    | JArr l => match l with x :: _ => x | [] => JUndefined end
    | t => t
    end.

(** The [typeof]/[Number.isInteger] cascade that both samples go through;
    [None] when no line of it returns. *)
Definition sample_kind (sample : json) : option string :=
  match sample with
  | JBool _ => Some "boolean"
  | JNum (Int _) => Some "integer"
  | JNum (Frac _ _) => Some "number"
  | JNull => Some "null"
  | _ => None
  end.

Definition deducePrimitiveType (schema : json) : json :=
  if negb (truthy schema) then JStr "string"
  else
    let type := getSchemaType schema in
    if truthy type then type
    else if negb (is_undefined (prop schema "const")) then
      match sample_kind (prop schema "const") with
      | Some k => JStr k
      | None => JStr "string"
      end
    else
      match prop schema "enum" with
      | JArr (x :: r) =>
          match find (fun v => match v with JNull | JUndefined => false | _ => true end)
                     (x :: r) with
          | None => JStr "string"
          | Some sample =>
              match sample_kind sample with
              | Some k => JStr k
              | None => JStr "string"
              end
          end
      | _ => JStr "string"
      end.

(** ToNumber *)
Definition ToNumber (v : json) : numres :=
  match v with
  | JUndefined => NaN
  | JNull => Fin (Int 0)
  | JBool true => Fin (Int 1)
  | JBool false => Fin (Int 0)
  | JNum n => Fin n
  | JStr s => Number_of_string s
  | JArr _ | JObj _ => Number_of_string (String_of v)
  end.

Definition coerceValue (raw : json) (type : json) : json :=
  match raw with
  | JUndefined | JNull => JUndefined
  | _ =>
      if json_eqb type (JStr "string") && json_eqb raw (JStr "") then raw
      else if json_eqb raw (JStr "") && negb (json_eqb type (JStr "string")) then JUndefined
      else
        match type with
        | JStr "number" =>
            match ToNumber raw with
            | Fin n => JNum n
            | _ => JUndefined
            end
        | JStr "integer" =>
            match ToNumber raw with
            | Fin (Int z) => JNum (Int z)
            | _ => JUndefined
            end
        | JStr "boolean" =>
            if json_eqb raw (JStr "true") || json_eqb raw (JBool true) then JBool true
            else if json_eqb raw (JStr "false") || json_eqb raw (JBool false) then JBool false
            else JUndefined
        | JStr "null" =>
            if json_eqb raw (JStr "null") then JNull else JUndefined
        | _ => raw
        end
  end.
End Types.

(* ================================================================== *)
(** * The form: a tree of elements *)

(** The handlers the source attaches as closures, with what they capture. *)
Inductive handler : Type :=
| OnAddItem (schema : json) (path : string)
    (* click on an array's Add button ([createArrayField]) *)
| OnRemoveItem (path : string)
    (* click on an item's Remove button ([addArrayItem]) *)
| OnVariantChange (schema : json) (path : string) (isRequired : bool)
    (* change of a oneOf selector ([createOneOfField]) *)
| OnAddProperty (patternProperties : json) (basePath : string)
    (* click on Add Property ([createPatternPropertiesField]) *)
| OnRemoveProperty.
    (* click on a dynamic entry's Remove button *)

Inductive kind : Type :=
| Plain                          (* an element without a [value] *)
| Button
| Select (options : list string) (* the option values, in order *)
| InputNumber
| InputText.

(** An element: tag, class names, [dataset], its kind and current [value]
    (for controls), its [disabled] property, the handler attached to it, and
    its children.  Text, labels, ids and titles are not kept. *)
Unset Elimination Schemes.
Inductive node : Type :=
| Node (tag : string) (classes : list string) (dataset : list (string * string))
       (k : kind) (value : string) (disabled : bool) (on : option handler)
       (children : list node).
Set Elimination Schemes.

Definition tag_of (n : node) := let 'Node t _ _ _ _ _ _ _ := n in t.
Definition classes_of (n : node) := let 'Node _ c _ _ _ _ _ _ := n in c.
Definition dataset_of (n : node) := let 'Node _ _ d _ _ _ _ _ := n in d.
Definition kind_of (n : node) := let 'Node _ _ _ k _ _ _ _ := n in k.
Definition disabled_of (n : node) := let 'Node _ _ _ _ _ b _ _ := n in b.
Definition handler_of (n : node) := let 'Node _ _ _ _ _ _ h _ := n in h.
Definition children_of (n : node) := let 'Node _ _ _ _ _ _ _ c := n in c.

Definition with_children (n : node) (c : list node) : node :=
  let 'Node t cl d k v b h _ := n in Node t cl d k v b h c.

Definition element (tag : string) (classes : list string) (children : list node) : node :=
  Node tag classes [] Plain "" false None children.

Fixpoint data_get (key : string) (d : list (string * string)) : option string :=
  match d with
  | [] => None
  | (k, v) :: r => if String.eqb key k then Some v else data_get key r
  end.

Fixpoint data_set (key v : string) (d : list (string * string)) : list (string * string) :=
  match d with
  | [] => [(key, v)]
  | (k, v') :: r => if String.eqb key k then (k, v) :: r else (k, v') :: data_set key v r
  end.

Definition data (key : string) (n : node) : option string := data_get key (dataset_of n).

Definition set_data (key v : string) (n : node) : node :=
  let 'Node t cl d k val b h c := n in Node t cl (data_set key v d) k val b h c.

Definition has_class (c : string) (n : node) : bool :=
  existsb (String.eqb c) (classes_of n).

(** [el.matches(".c1.c2")] *)
Definition has_classes (cs : list string) (n : node) : bool :=
  forallb (fun c => has_class c n) cs.

(** [el.classList.add(c)] and [el.classList.remove(c)] *)
Definition classList_add (c : string) (cl : list string) : list string :=
  if existsb (String.eqb c) cl then cl else (cl ++ [c])%list.

Definition classList_remove (c : string) (cl : list string) : list string :=
  filter (fun x => negb (String.eqb c x)) cl.

(** The two branches of [updateArrayButtonStates] on one button:
    [btn.disabled = true; btn.classList.add('disabled')] and
    [btn.disabled = false; btn.classList.remove('disabled')]. *)
Definition set_disabled (b : bool) (n : node) : node :=
  let 'Node t cl d k v _ h c := n in
  Node t (if b then classList_add "disabled" cl else classList_remove "disabled" cl)
       d k v b h c.

(** [n.querySelectorAll(sel).forEach(f)] for an [f] that changes the state
    of the element only: [f] on every element below [n] that matches. *)
Fixpoint update_all (p : node -> bool) (f : node -> node) (n : node) : node :=
  let 'Node t cl d k v b h c := n in
  Node t cl d k v b h
       (map (fun x => let x' := update_all p f x in if p x then f x' else x') c).

(** [n.querySelector(sel)] with [f] run on the element found: the first
    element below [n], in document order, that matches; [None] when no
    element matches. *)
Fixpoint update_first (p : node -> bool) (f : node -> node) (n : node) : option node :=
  let 'Node t cl d k v b h c := n in
  option_map (Node t cl d k v b h)
    ((fix scan (l : list node) : option (list node) :=
        match l with
        | [] => None
        | x :: r =>
            if p x then Some (f x :: r)
            else match update_first p f x with
                 | Some x' => Some (x' :: r)
                 | None => option_map (cons x) (scan r)
                 end
        end) c).

(** [el.value] *)
Definition value_of (n : node) : json :=
  let 'Node _ _ _ k v _ _ _ := n in
  match k with Plain => JUndefined | _ => JStr v end.

(** The element and its descendants, in document order. *)
Fixpoint subtree (n : node) : list node :=
  let 'Node _ _ _ _ _ _ _ c := n in n :: flat_map subtree c.

Definition descendants (n : node) : list node := flat_map subtree (children_of n).

(** [el.querySelectorAll(":scope > .cls")] *)
Definition children_with_class (cls : string) (n : node) : list node :=
  filter (has_class cls) (children_of n).

(** [el.querySelectorAll("[data-key]")] *)
Definition descendants_with_data (key : string) (n : node) : list node :=
  filter (fun d => match data key d with Some _ => true | None => false end) (descendants n).

(** A path can be spliced between the quotes of an attribute selector as
    it is: no quote, backslash or control character. *)
Definition selector_safe (path : string) : bool :=
  forallb (fun c => let n := nat_of_ascii c in
                    Nat.leb 32 n && negb (Nat.eqb n 34) && negb (Nat.eqb n 92)
                    && negb (Nat.eqb n 127))
          (list_ascii_of_string path).

(** [el.querySelector(`[data-key="${path}"]`)] *)
Definition query_data (key path : string) (n : node) : outcome (option node) :=
  if selector_safe path then
    Ret (find (fun d => match data key d with
                        | Some p => String.eqb p path
                        | None => false
                        end) (descendants n))
  else HostDependent.

(** dom.js [getOneOfContainer], [getArrayContainer]: a [find] over all
    elements that carry the attribute. *)
Definition getOneOfContainer (form : node) (path : string) : option node :=
  find (fun d => match data "oneOfPath" d with
                 | Some p => String.eqb p path
                 | None => false
                 end) (descendants form).

Definition getArrayContainer (form : node) (path : string) : option node :=
  find (fun d => match data "arrayPath" d with
                 | Some p => String.eqb p path
                 | None => false
                 end) (descendants form).

(* ================================================================== *)
(** * The allOf merge: [deepMergeProperties], [mergeAllOfSchemas] *)

(** Nesting depth of a value, the bound of [deepMergeProperties]. *)
Fixpoint depth (v : json) : nat :=
  match v with
  | JArr l => S (fold_right (fun x d => Nat.max (depth x) d) 0%nat l)
  | JObj m => S (fold_right (fun kv d => Nat.max (depth (snd kv)) d) 0%nat m)
  | _ => 0%nat
  end.

Section Merge.
Context {H : Host}.
Variable state_schema : json.

(** [[...(v || [])]]: the elements an array spread takes out of [v]. *)
Definition spread_elements (v : json) : outcome (list json) :=
  match or_else v (JArr []) with
  | JArr l => Ret l
  | JStr _ => HostDependent
  | _ => Throws
  end.

(** [targetValue && typeof targetValue === 'object' && !Array.isArray(targetValue)
     && (targetValue.type === 'object' || targetValue.properties)
     && targetValue.properties] *)
Definition isObjectSchema (v : json) : bool :=
  truthy v && typeof_object v && negb (is_array v)
  && (json_eqb (prop v "type") (JStr "object") || truthy (prop v "properties"))
  && truthy (prop v "properties").

(** The callback of [Object.keys(source).forEach] in
    [deepMergeProperties]; [deepMerge_rec] is the recursive call. *)
Definition deepMerge_member (deepMerge_rec : json -> json -> outcome json)
           (result : list (string * json)) (kv : string * json)
  : outcome (list (string * json)) :=
  let '(key, sourceValue) := kv in
  let targetValue := prop (JObj result) key in
  if isObjectSchema targetValue && isObjectSchema sourceValue then
    props <- deepMerge_rec (prop targetValue "properties") (prop sourceValue "properties") ;;
    m <- spread_onto [] targetValue ;;
    m <- spread_onto m sourceValue ;;
    let m := define "properties" props m in
    m <-
      (if truthy (prop targetValue "required") || truthy (prop sourceValue "required") then
         treq <- spread_elements (prop targetValue "required") ;;
         sreq <- spread_elements (prop sourceValue "required") ;;
         mergedRequired <- foldM set_add (treq ++ sreq)%list [] ;;
         Ret (match mergedRequired with
              | [] => m
              | _ => define "required" (JArr mergedRequired) m
              end)
       else Ret m) ;;
    assign key (JObj m) result
  else assign key sourceValue result.

Fixpoint deepMergeProperties_fuel (fuel : nat) (target source : json) : outcome json :=
  match fuel with
  | O => OutOfFuel
  | S fuel' =>
      if negb (truthy source) || negb (typeof_object source) then Ret target
      else if negb (truthy target) || negb (typeof_object target) then Ret source
      else
        result <- spread_onto [] target ;;
        entries <- own_entries source ;;
        result <- foldM (deepMerge_member (deepMergeProperties_fuel fuel')) entries result ;;
        Ret (JObj result)
  end.

Definition deepMergeProperties (target source : json) : outcome json :=
  deepMergeProperties_fuel (S (depth source)) target source.

(** The three parts of the callback of [allOfSchemas.forEach]:
    "Deep merge properties", "Collect required fields" and "Merge other
    properties". *)
Definition merge_properties (merged : list (string * json)) (resolved : json)
  : outcome (list (string * json)) :=
  if truthy (prop resolved "properties") then
    merged <- (if negb (truthy (prop (JObj merged) "properties"))
               then assign "properties" (JObj []) merged else Ret merged) ;;
    p <- deepMergeProperties (prop (JObj merged) "properties") (prop resolved "properties") ;;
    assign "properties" p merged
  else Ret merged.

Definition merge_required (requiredFields : list json) (resolved : json)
  : outcome (list json) :=
  match prop resolved "required" with
  | JArr l => foldM set_add l requiredFields
  | _ => Ret requiredFields
  end.

Definition copy_keyword (merged : list (string * json)) (kv : string * json)
  : outcome (list (string * json)) :=
  if negb (String.eqb (fst kv) "properties") && negb (String.eqb (fst kv) "required")
  then assign (fst kv) (snd kv) merged else Ret merged.

Definition merge_keywords (merged : list (string * json)) (resolved : json)
  : outcome (list (string * json)) :=
  entries <- own_entries resolved ;;
  foldM copy_keyword entries merged.

(** The callback of [allOfSchemas.forEach]: the state is [merged] and
    [requiredFields]. *)
Definition mergeAllOf_step (st : list (string * json) * list json) (subSchema : json)
  : outcome (list (string * json) * list json) :=
  resolved <- resolveSchema state_schema subSchema ;;
  if negb (truthy resolved) || negb (typeof_object resolved) then Ret st
  else
    merged <- merge_properties (fst st) resolved ;;
    requiredFields <- merge_required (snd st) resolved ;;
    merged <- merge_keywords merged resolved ;;
    Ret (merged, requiredFields).

Definition mergeAllOfSchemas (allOfSchemas : json) : outcome json :=
  match allOfSchemas with
  | JArr (x :: r) =>
      '(merged, requiredFields) <- foldM mergeAllOf_step (x :: r) ([], []) ;;
      match requiredFields with
      | [] => Ret (JObj merged)
      | _ => m <- assign "required" (JArr requiredFields) merged ;; Ret (JObj m)
      end
  | _ => Ret (JObj [])
  end.
End Merge.

(* ================================================================== *)
(** * Building the form *)

(** [currentPath.replace(oldPath, newPath)] when [currentPath] starts with
    [oldPath]; a [$] in the replacement would be read as a pattern. *)
Definition replace_prefix (oldPath newPath currentPath : string) : outcome string :=
  if includes_char "$" newPath then HostDependent
  else Ret (newPath ++ slice_from (String.length oldPath) currentPath).

Definition item_path (path : string) (index : nat) : string :=
  path ++ "[" ++ nat_to_string index ++ "]".

(** [path === "root" ? key : `${path}.${key}`] *)
Definition child_path (path key : string) : string :=
  if String.eqb path "root" then key else path ++ "." ++ key.

(** [haystack.includes(x)] on an array of values. *)
Definition includes (l : list json) (x : json) : outcome bool :=
  if by_reference x then
    if existsb by_reference l then HostDependent else Ret false
  else Ret (existsb (json_eqb x) l).

(** [array[index]] for a number [index]. *)
Definition element_at (l : list json) (index : numres) : json :=
  match index with
  | Fin (Int z) => if Z.leb 0 z then nth (Z.to_nat z) l JUndefined else JUndefined
  | _ => JUndefined
  end.

(** [required.includes(key)] where [required] is truthy. *)
Definition required_includes (required : json) (key : string) : outcome bool :=
  match required with
  | JArr l => Ret (existsb (json_eqb (JStr key)) l)
  | JStr _ => HostDependent
  | _ => Throws
  end.

(** [count >= x] *)
Definition count_ge (count : nat) (x : numres) : bool :=
  match x with
  | Fin (Int z) => Z.leb z (Z.of_nat count)
  | Fin (Frac fl _) => Z.ltb fl (Z.of_nat count)
  | NegInf => true
  | NaN | PosInf => false
  end.

(** [count <= x] *)
Definition count_le (count : nat) (x : numres) : bool :=
  match x with
  | Fin (Int z) => Z.leb (Z.of_nat count) z
  | Fin (Frac fl _) => Z.leb (Z.of_nat count) fl
  | PosInf => true
  | NaN | NegInf => false
  end.

Section Controls.
Context {H : Host}.

Definition strip_newlines (s : string) : string :=
  string_of_list_ascii
    (filter (fun c => negb (Nat.eqb (nat_of_ascii c) 10 || Nat.eqb (nat_of_ascii c) 13))
            (list_ascii_of_string s)).

(** What a control reads back after [control.value = v]. *)
Definition sanitize (k : kind) (v : string) : string :=
  match k with
  | Select options => if existsb (String.eqb v) options then v else ""
  | InputNumber =>
      if String.eqb v "" then ""
      else match plain_integer v with
           | Some _ => v
           | None => if valid_number_host v then v else ""
           end
  | InputText => strip_newlines v
  | Button => v
  | Plain => v
  end.

Definition set_value (v : string) (n : node) : node :=
  let 'Node t cl d k _ b h c := n in Node t cl d k (sanitize k v) b h c.

Definition addSchemaMessage (variant : string) : node :=
  element "p" ["helper-text"; variant] [].

Definition createPrimitiveField (schema : json) (path : string) (isRequired : bool)
  : outcome node :=
  let fieldType := deducePrimitiveType schema in
  let constValue := prop schema "const" in
  control <-
    match prop schema "enum" with
    | JArr enum =>
        extra <-
          (if is_undefined constValue then Ret []
           else inc <- includes enum constValue ;;
                Ret (if inc then [] else [stringifySchemaValue constValue])) ;;
        Ret (Node "select" [] []
                  (Select ("" :: map stringifySchemaValue enum ++ extra)%list)
                  "" false None [])
    | _ =>
        if json_eqb fieldType (JStr "boolean") then
          Ret (Node "select" [] [] (Select [""; "true"; "false"]) "" false None [])
        else if json_eqb fieldType (JStr "null") then
          Ret (Node "select" [] [] (Select [""; "null"]) "" false None [])
        else
          let k := if json_eqb fieldType (JStr "number") || json_eqb fieldType (JStr "integer")
                   then InputNumber else InputText in
          let input := Node "input" [] [] k "" false None [] in
          Ret (if truthy (prop schema "pattern")
               then set_data "validationPattern" (String_of (prop schema "pattern")) input
               else input)
    end ;;
  let control := set_data "schemaPath" path control in
  let control := set_data "schemaType" (String_of (or_else fieldType (JStr "string"))) control in
  let control := set_data "required" (if isRequired then "true" else "false") control in
  let control :=
    if negb (is_undefined constValue) then
      let control := set_value (stringifySchemaValue constValue) control in
      (* control.disabled = true; control.classList.add("const-input") *)
      let 'Node t cl d k v _ h c := control in
      Node t (classList_add "const-input" cl) d k v true h c
    else if negb (is_undefined (prop schema "default")) then
      let defaultValue := prop schema "default" in
      set_value (if typeof_object defaultValue then JSON_stringify defaultValue
                 else String_of defaultValue) control
    else control in
  Ret (element "div" [] [control]).
End Controls.

(** ** Button states: [updateArrayButtonStates] *)

Section ButtonStates.
Context {H : Host}.

(** [parseInt(itemsContainer.dataset.minItems, 10)], and the same for
    [maxItems]; an attribute that is not set parses to [NaN]. *)
Definition bound_of (key : string) (itemsContainer : node) : numres :=
  match data key itemsContainer with
  | Some s => parseInt s
  | None => NaN
  end.

Definition is_NaN (x : numres) : bool :=
  match x with NaN => true | _ => false end.

(** [!isNaN(maxItems) && currentCount >= maxItems] *)
Definition at_maxItems (itemsContainer : node) : bool :=
  let currentCount := List.length (children_with_class "array-item" itemsContainer) in
  let maxItems := bound_of "maxItems" itemsContainer in
  negb (is_NaN maxItems) && count_ge currentCount maxItems.

(** [!isNaN(minItems) && currentCount <= minItems] *)
Definition at_minItems (itemsContainer : node) : bool :=
  let currentCount := List.length (children_with_class "array-item" itemsContainer) in
  let minItems := bound_of "minItems" itemsContainer in
  negb (is_NaN minItems) && count_le currentCount minItems.

(** The second half of [updateArrayButtonStates]: every
    [:scope > .array-item .app-button.ghost], the Remove buttons of nested
    arrays and of dynamic properties included, follows the bounds of this
    container. *)
Definition update_remove_buttons (itemsContainer : node) : node :=
  let off := at_minItems itemsContainer in
  with_children itemsContainer
    (map (fun item =>
            if has_class "array-item" item
            then update_all (has_classes ["app-button"; "ghost"]) (set_disabled off) item
            else item)
         (children_of itemsContainer)).

Fixpoint update_nth (i : nat) (f : node -> node) (l : list node) : list node :=
  match l, i with
  | [], _ => []
  | x :: r, O => f x :: r
  | x :: r, S i' => x :: update_nth i' f r
  end.

(** The two ways the callers name the Add button: the button that
    [createArrayField] made, child number [i] of the wrapper, and
    [arrayField.querySelector('.app-button.secondary')], the first such
    button below the wrapper, which is a button inside an item when there
    is one. *)
Definition own_button (i : nat) (f : node -> node) (wrapper : node) : option node :=
  Some (with_children wrapper (update_nth i f (children_of wrapper))).

Definition first_secondary (f : node -> node) (wrapper : node) : option node :=
  update_first (has_classes ["app-button"; "secondary"]) f wrapper.

(** [updateArrayButtonStates(itemsContainer, addButton)] on the
    [.schema-array] wrapper, whose first child is the items container.
    When [addButton] is not found the callers skip the call. *)
Definition updateArrayButtonStates
           (addButton : (node -> node) -> node -> option node) (wrapper : node) : node :=
  match children_of wrapper with
  | itemsContainer :: _ =>
      match addButton (set_disabled (at_maxItems itemsContainer)) wrapper with
      | Some wrapper =>
          match children_of wrapper with
          | itemsContainer :: rest =>
              with_children wrapper (update_remove_buttons itemsContainer :: rest)
          | [] => wrapper
          end
      | None => wrapper
      end
  | [] => wrapper
  end.
End ButtonStates.

Section Render.
Context {H : Host}.
Variable state_schema : json.

(** The two mutually recursive entry points, at the recursion depth
    below the current one. *)
Variable createControlForSchema_rec :
  json -> string -> bool -> outcome (list node).
Variable buildFields_rec :
  json -> string -> json -> outcome (list node).

(** [renderVariant(index)] of [createOneOfField]: the new state of the
    selector and of the options container. *)
Definition renderVariant (schema : json) (path : string) (isRequired : bool)
           (index : numres) (selector optionsContainer : node)
  : outcome (node * node) :=
  let oneOf := match prop schema "oneOf" with JArr l => l | _ => [] end in
  let variant := or_else (element_at oneOf index) (nth 0 oneOf JUndefined) in
  let optionsContainer :=
    set_data "selectedVariant" (String_of_numres index)
             (with_children optionsContainer []) in
  let selector := set_value (String_of_numres index) selector in
  content <- createControlForSchema_rec variant path isRequired ;;
  Ret (selector, with_children optionsContainer content).

Definition createOneOfField (schema : json) (path : string) (isRequired : bool)
  : outcome node :=
  let oneOf := match prop schema "oneOf" with JArr l => l | _ => [] end in
  let hint := if truthy (prop schema "description")
              then [element "p" ["helper-text"] []] else [] in
  let selector :=
    Node "select" ["schema-oneof-select"] []
         (Select (map nat_to_string (seq 0 (List.length oneOf)))) "0" false
         (Some (OnVariantChange schema path isRequired)) [] in
  let optionsContainer :=
    set_data "oneOfPath" path (element "div" ["schema-oneof-options"] []) in
  '(selector, optionsContainer) <-
    renderVariant schema path isRequired (Fin (Int 0)) selector optionsContainer ;;
  Ret (element "div" ["schema-oneof"] (hint ++ [selector; optionsContainer])%list).

(** The item [addArrayItem] appends to a container that holds [index]
    items. *)
Definition addArrayItem (index : nat) (itemSchema : json) (path : string) (value : json)
  : outcome node :=
  let itemPath := item_path path index in
  effectiveItemSchema <- resolveSchema state_schema itemSchema ;;
  let itemType := getSchemaType effectiveItemSchema in
  body <-
    (if truthy (prop effectiveItemSchema "__alwaysInvalid") then
       Ret (element "p" ["helper-text"; "error"] [])
     else if truthy (prop effectiveItemSchema "__unresolvedRef") then
       Ret (element "p" ["helper-text"; "error"] [])
     else if json_eqb itemType (JStr "object")
             || (negb (truthy itemType) && truthy (prop effectiveItemSchema "properties")) then
       c <- createControlForSchema_rec effectiveItemSchema itemPath false ;;
       Ret (element "div" [] c)
     else if json_eqb itemType (JStr "array") then
       c <- createControlForSchema_rec effectiveItemSchema itemPath false ;;
       Ret (element "div" [] c)
     else
       m <- spread_onto [] effectiveItemSchema ;;
       let type := or_else itemType (or_else (prop effectiveItemSchema "type") (JStr "string")) in
       field <- createPrimitiveField (JObj (define "type" type m)) itemPath false ;;
       Ret (if is_undefined value then field
            else match children_of field with
                 | control :: r => with_children field (set_value (String_of value) control :: r)
                 | [] => field
                 end)) ;;
  let removeBtn :=
    Node "button" ["app-button"; "ghost"; "small"] [] Button "" false
         (Some (OnRemoveItem path)) [] in
  let controls := element "div" ["array-item-controls"] [removeBtn] in
  Ret (set_data "schemaPath" itemPath (element "div" ["array-item"] [body; controls])).

(** [Math.min(minItems, 5)] as the number of turns of
    [for (i = 0; i < initialItems; i += 1)]. *)
Definition initialItems (minItems : json) : nat :=
  if truthy minItems then
    match ToNumber minItems with
    | Fin (Int z) => Z.to_nat (Z.min z 5)
    | Fin (Frac fl _) => if Z.ltb fl 5 then Z.to_nat (fl + 1) else 5%nat
    | PosInf => 5%nat
    | NaN | NegInf => 0%nat
    end
  else 0%nat.

(** A call [addArrayItem(container, itemSchema, path, value)], on the
    [.schema-array] wrapper that holds the container as its first child
    ([container.closest('.schema-array')]): the item is appended, and the
    button states are set through the first [.app-button.secondary] below
    the wrapper. *)
Definition addArrayItem_to (itemSchema : json) (path : string) (value : json)
           (wrapper : node) : outcome node :=
  match children_of wrapper with
  | container :: rest =>
      let index := List.length (children_with_class "array-item" container) in
      item <- addArrayItem index itemSchema path value ;;
      let container := with_children container (children_of container ++ [item])%list in
      Ret (updateArrayButtonStates first_secondary (with_children wrapper (container :: rest)))
  | [] => Ret wrapper
  end.

(** [n] calls of [addArrayItem] in a row. *)
Fixpoint add_items (n : nat) (itemSchema : json) (path : string) (wrapper : node)
  : outcome node :=
  match n with
  | O => Ret wrapper
  | S n' =>
      wrapper <- addArrayItem_to itemSchema path JUndefined wrapper ;;
      add_items n' itemSchema path wrapper
  end.

Definition createArrayField (schema : json) (path : string) (isRequired : bool)
  : outcome node :=
  let itemsContainer := set_data "arrayPath" path (element "div" ["array-items"] []) in
  let itemsContainer :=
    if is_undefined (prop schema "minItems") then itemsContainer
    else set_data "minItems" (String_of (prop schema "minItems")) itemsContainer in
  let itemsContainer :=
    if is_undefined (prop schema "maxItems") then itemsContainer
    else set_data "maxItems" (String_of (prop schema "maxItems")) itemsContainer in
  let addButton :=
    Node "button" ["app-button"; "secondary"] [] Button "" false
         (Some (OnAddItem schema path)) [] in
  let wrapper := element "div" ["schema-field"; "schema-array"] [itemsContainer; addButton] in
  wrapper <- add_items (initialItems (prop schema "minItems")) (prop schema "items") path
                       wrapper ;;
  Ret (updateArrayButtonStates (own_button 1) wrapper).

Definition createPatternPropertiesField (schema : json) (path : string) : outcome node :=
  let patternProperties := or_else (prop schema "patternProperties") (JObj []) in
  let desc := if truthy (prop schema "description")
              then [element "p" ["helper-text"] []] else [] in
  entries <- own_entries patternProperties ;;
  let entriesContainer :=
    set_data "patternPath" path (element "div" ["pattern-properties-entries"] []) in
  let entriesContainer :=
    fold_left (fun c ikv =>
                 let '(index, (pattern, schema)) := ikv in
                 set_data ("schema" ++ nat_to_string index) (JSON_stringify schema)
                          (set_data ("pattern" ++ nat_to_string index) pattern c))
              (combine (seq 0 (List.length entries)) entries) entriesContainer in
  let entriesContainer :=
    set_data "patternCount" (nat_to_string (List.length entries)) entriesContainer in
  let addButton :=
    Node "button" ["app-button"; "secondary"] [] Button "" false
         (Some (OnAddProperty patternProperties path)) [] in
  Ret (element "div" ["schema-field"; "schema-pattern-properties"]
               ([element "h4" ["pattern-properties-title"] []] ++ desc
                ++ [entriesContainer; addButton])%list).
Definition createAllOfField (schema : json) (path : string) (context : json)
  : outcome (list node) :=
  mergedSchema <- mergeAllOfSchemas state_schema (prop schema "allOf") ;;
  fields <- buildFields_rec mergedSchema path context ;;
  Ret (if truthy (prop schema "description")
       then [element "div" ["schema-allof"] (element "p" ["helper-text"] [] :: fields)]
       else fields).

Definition is_object_node (type effective : json) (patterns_too : bool) : bool :=
  json_eqb type (JStr "object")
  || (negb (truthy type) && truthy (prop effective "properties"))
  || (patterns_too && negb (truthy type) && truthy (prop effective "patternProperties")).

Definition nonempty_array (v : json) : bool :=
  match v with JArr (_ :: _) => true | _ => false end.

(** [buildFields(schema, path, container, context)]: the elements it
    appends to [container]; [context] is [context.required]. *)
Definition buildFields_body (schema : json) (path : string) (context : json)
  : outcome (list node) :=
  if negb (truthy schema) then Ret []
  else
    effective <- resolveSchema state_schema schema ;;
    if negb (truthy effective) then Ret []
    else if truthy (prop effective "__alwaysInvalid") then Ret [addSchemaMessage "error"]
    else if truthy (prop effective "__unresolvedRef") then Ret [addSchemaMessage "error"]
    else if truthy (prop effective "__circularRef") then Ret [addSchemaMessage "error"]
    else if nonempty_array (prop effective "oneOf") then
      w <- createOneOfField effective path false ;; Ret [w]
    else if nonempty_array (prop effective "allOf") then
      createAllOfField effective path context
    else if truthy (prop effective "anyOf") || truthy (prop effective "allOf") then
      Ret [addSchemaMessage "error"]
    else
      let type := getSchemaType effective in
      if is_object_node type effective true then
        let properties := or_else (prop effective "properties") (JObj []) in
        let patternProperties := or_else (prop effective "patternProperties") (JObj []) in
        let required := or_else (prop effective "required") (JArr []) in
        entries <- own_entries properties ;;
        fields <-
          mapM (fun kv =>
                  let '(key, childSchema) := kv in
                  let fieldPath := child_path path key in
                  isRequired <- required_includes required key ;;
                  childEffective <- resolveSchema state_schema childSchema ;;
                  let hint :=
                    if truthy childEffective && truthy (prop childEffective "description")
                    then [element "p" ["helper-text"] []] else [] in
                  control <- createControlForSchema_rec childSchema fieldPath isRequired ;;
                  Ret (element "div" ["schema-field"]
                               (element "label" [] [] :: hint ++ control)%list))
               entries ;;
        patterns <- own_entries patternProperties ;;
        match patterns with
        | [] => Ret fields
        | _ => p <- createPatternPropertiesField effective path ;; Ret (fields ++ [p])%list
        end
      else
        isRequired <- required_includes context path ;;
        createControlForSchema_rec effective path isRequired.

Definition createControlForSchema_body (schema : json) (path : string) (isRequired : bool)
  : outcome (list node) :=
  effective <- resolveSchema state_schema schema ;;
  if negb (truthy effective) then Ret []
  else if truthy (prop effective "__alwaysInvalid") then Ret [addSchemaMessage "error"]
  else if truthy (prop effective "__unresolvedRef") then Ret [addSchemaMessage "error"]
  else if truthy (prop effective "__circularRef") then Ret [addSchemaMessage "error"]
  else if nonempty_array (prop effective "oneOf") then
    w <- createOneOfField effective path isRequired ;; Ret [w]
  else
    let type := getSchemaType effective in
    if is_object_node type effective false then
      let required := or_else (prop effective "required") (JArr []) in
      fields <- buildFields_rec effective path required ;;
      Ret [set_data "schemaPath" path
                    (element "fieldset" ["schema-fieldset"]
                             (element "legend" [] [] :: fields))]
    else if json_eqb type (JStr "array") then
      w <- createArrayField effective path isRequired ;; Ret [w]
    else
      controlWrapper <- createPrimitiveField effective path isRequired ;;
      if String.eqb path "root" then
        Ret [element "div" ["schema-field"] [element "label" [] []; controlWrapper]]
      else Ret [controlWrapper].

(** [addPatternPropertyEntry(container, patternProperties, basePath)]: the
    entry appended to a container that holds [entryIndex] entries. *)
Definition addPatternPropertyEntry (entryIndex : nat) (patternProperties : json)
           (basePath : string) : outcome node :=
  entries <- own_entries patternProperties ;;
  let nameInput :=
    set_data "patternPropertyName"
             (basePath ++ "_pattern_" ++ nat_to_string entryIndex)
             (Node "input" [] [] InputText "" false None []) in
  let inputWrapper := element "div" ["pattern-input-wrapper"] [nameInput] in
  let nameField :=
    element "div" ["pattern-property-name"] [element "label" [] []; inputWrapper] in
  (* Object.keys(patternProperties)[0]; patternProperties[undefined] is undefined *)
  let patternSchema :=
    match entries with (_, s) :: _ => s | [] => JUndefined end in
  let valuePath := basePath ++ "." ++ nat_to_string entryIndex ++ "_pattern_value" in
  content <- createControlForSchema_rec patternSchema valuePath false ;;
  let valueField := element "div" ["pattern-property-value"] content in
  let removeButton :=
    Node "button" ["app-button"; "ghost"; "small"] [] Button "" false
         (Some OnRemoveProperty) [] in
  let controls := element "div" ["pattern-property-controls"] [removeButton] in
  Ret (element "div" ["pattern-property-entry"] [nameField; valueField; controls]).
End Render.

(** The recursion of [createControlForSchema] and [buildFields] follows
    the schema through references, so it is bounded by [fuel]. *)
Section RenderFix.
Context {H : Host}.
Variable state_schema : json.

Fixpoint createControlForSchema (fuel : nat) (schema : json) (path : string)
         (isRequired : bool) : outcome (list node) :=
  match fuel with
  | O => OutOfFuel
  | S fuel' =>
      createControlForSchema_body state_schema
        (createControlForSchema fuel') (buildFields fuel') schema path isRequired
  end
with buildFields (fuel : nat) (schema : json) (path : string) (context : json)
     : outcome (list node) :=
  match fuel with
  | O => OutOfFuel
  | S fuel' =>
      buildFields_body state_schema
        (createControlForSchema fuel') (buildFields fuel') schema path context
  end.

(** [renderSchemaForm(schema)]: the new content of [dom.schemaForm]. *)
Definition renderSchemaForm (fuel : nat) (schema : json) : outcome node :=
  effective <- resolveSchema state_schema schema ;;
  let form := element "div" [] in
  if negb (truthy effective) || negb (typeof_object effective) then Ret (form [])
  else if truthy (prop effective "__alwaysInvalid") then Ret (form [])
  else if truthy (prop effective "__unresolvedRef") then Ret (form [])
  else if truthy (prop effective "__circularRef") then Ret (form [])
  else
    let title := if truthy (prop effective "title") then [element "h3" [] []] else [] in
    fields <- buildFields fuel effective "root"
                          (or_else (prop effective "required") (JArr [])) ;;
    Ret (form [element "div" ["schema-fieldset"]
                       (title ++ element "p" ["helper-text"] [] :: fields)%list]).
End RenderFix.

(* ================================================================== *)
(** * Handlers: adding, removing and renumbering items, switching variants *)

Fixpoint get_at (pos : list nat) (n : node) : option node :=
  match pos with
  | [] => Some n
  | i :: r =>
      match nth_error (children_of n) i with
      | Some c => get_at r c
      | None => None
      end
  end.

Fixpoint replace_nth {A : Type} (i : nat) (x : A) (l : list A) : list A :=
  match l, i with
  | [], _ => []
  | _ :: r, O => x :: r
  | y :: r, S i' => y :: replace_nth i' x r
  end.

Fixpoint remove_nth {A : Type} (i : nat) (l : list A) : list A :=
  match l, i with
  | [], _ => []
  | _ :: r, O => r
  | y :: r, S i' => y :: remove_nth i' r
  end.

(** Run [f] on the element at [pos]; a position outside the tree leaves the
    tree as it is. *)
Fixpoint update_at (pos : list nat) (f : node -> outcome node) (n : node) : outcome node :=
  match pos with
  | [] => f n
  | i :: r =>
      match nth_error (children_of n) i with
      | Some c =>
          c' <- update_at r f c ;;
          Ret (with_children n (replace_nth i c' (children_of n)))
      | None => Ret n
      end
  end.

(** One branch of the three loops of [renumberArrayItems] on one element:
    the attribute [key] is rewritten when it continues [oldPath] with [.]
    or [[], and, for [exact], when it equals [oldPath]. *)
Definition rewrite_attr (key : string) (exact : bool) (oldPath : option string)
           (newPath : string) (n : node) : outcome node :=
  match data key n with
  | None => Ret n
  | Some currentPath =>
      if String.eqb currentPath "" then Ret n
      else
        let old := match oldPath with Some p => p | None => "undefined" end in
        if exact && match oldPath with
                    | Some p => String.eqb currentPath p
                    | None => false
                    end
        then Ret (set_data key newPath n)
        else if starts_with (old ++ ".") currentPath || starts_with (old ++ "[") currentPath
        then p <- replace_prefix old newPath currentPath ;; Ret (set_data key p n)
        else Ret n
  end.

Section Renumber.
Variable oldPath : option string.
Variable newPath : string.

(** The element and everything below it. *)
Fixpoint rewrite_paths (n : node) : outcome node :=
  let 'Node t cl d k v b h c := n in
  c' <- mapM rewrite_paths c ;;
  n <- rewrite_attr "schemaPath" true oldPath newPath (Node t cl d k v b h c') ;;
  n <- rewrite_attr "arrayPath" false oldPath newPath n ;;
  rewrite_attr "oneOfPath" false oldPath newPath n.
End Renumber.

(** The callback of [items.forEach] in [renumberArrayItems]. *)
Definition renumber_item (arrayPath : string) (newIndex : nat) (item : node) : outcome node :=
  let oldPath := data "schemaPath" item in
  let newPath := item_path arrayPath newIndex in
  c <- mapM (rewrite_paths oldPath newPath) (children_of item) ;;
  Ret (set_data "schemaPath" newPath (with_children item c)).

Fixpoint renumber_from (arrayPath : string) (newIndex : nat) (items : list node)
  : outcome (list node) :=
  match items with
  | [] => Ret []
  | item :: r =>
      item' <- renumber_item arrayPath newIndex item ;;
      r' <- renumber_from arrayPath (S newIndex) r ;;
      Ret (item' :: r')
  end.

Definition renumberArrayItems (container : node) (arrayPath : string) : outcome node :=
  c <- renumber_from arrayPath 0 (children_of container) ;;
  Ret (with_children container c).

Section Handlers.
Context {H : Host}.
Variable state_schema : json.
Variable fuel : nat.

(** The click listener of the Add button, child number [button] of the
    [.schema-array] wrapper that holds the items container. *)
Definition add_item_click (schema : json) (path : string) (button : nat) (wrapper : node)
  : outcome node :=
  match children_of wrapper with
  | itemsContainer :: rest =>
      let currentCount := List.length (children_with_class "array-item" itemsContainer) in
      let maxItems := prop schema "maxItems" in
      if negb (is_undefined maxItems) && count_ge currentCount (ToNumber maxItems)
      then Ret wrapper
      else
        wrapper <- addArrayItem_to state_schema (createControlForSchema state_schema fuel)
                                   (prop schema "items") path JUndefined wrapper ;;
        Ret (updateArrayButtonStates (own_button button) wrapper)
  | [] => Ret wrapper
  end.

(** The click listener of the Remove button of the item at [index], on the
    [.schema-array] wrapper around the items container. *)
Definition remove_item_click (path : string) (index : nat) (wrapper : node)
  : outcome node :=
  match children_of wrapper with
  | container :: rest =>
      if at_minItems container then Ret wrapper
      else
        container <-
          renumberArrayItems
            (with_children container (remove_nth index (children_of container))) path ;;
        Ret (updateArrayButtonStates first_secondary (with_children wrapper (container :: rest)))
  | [] => Ret wrapper
  end.

(** The change listener of a oneOf selector, on the [.schema-oneof]
    wrapper, once the selector shows [chosen]. *)
Definition variant_change (schema : json) (path : string) (isRequired : bool)
           (chosen : string) (wrapper : node) : outcome node :=
  match rev (children_of wrapper) with
  | optionsContainer :: selector :: hint =>
      let selector := set_value chosen selector in
      let index := match value_of selector with
                   | JStr s => Number_of_string s
                   | _ => NaN
                   end in
      '(selector, optionsContainer) <-
        renderVariant (createControlForSchema state_schema fuel)
                      schema path isRequired index selector optionsContainer ;;
      Ret (with_children wrapper (rev hint ++ [selector; optionsContainer])%list)
  | _ => Ret wrapper
  end.

(** The click listener of Add Property, on the wrapper that holds the
    entries container before the button. *)
Definition add_property_click (patternProperties : json) (basePath : string)
           (wrapper : node) : outcome node :=
  match rev (children_of wrapper) with
  | addButton :: entriesContainer :: before =>
      let entryIndex :=
        List.length (children_with_class "pattern-property-entry" entriesContainer) in
      entry <- addPatternPropertyEntry (createControlForSchema state_schema fuel)
                                       entryIndex patternProperties basePath ;;
      Ret (with_children wrapper
             (rev before
              ++ [with_children entriesContainer
                                (children_of entriesContainer ++ [entry])%list;
                  addButton])%list)
  | _ => Ret wrapper
  end.

Fixpoint drop_last (k : nat) (pos : list nat) : list nat :=
  match k with
  | O => pos
  | S k' => drop_last k' (removelast pos)
  end.

(** The element at [pos] when the user can act on it: it is there and is
    not disabled. *)
Definition enabled_at (pos : list nat) (form : node) : option node :=
  match get_at pos form with
  | Some n => if disabled_of n then None else Some n
  | None => None
  end.

(** A click on the element at [pos] of the form; a disabled button
    receives no click. *)
Definition click (pos : list nat) (form : node) : outcome node :=
  match option_map handler_of (enabled_at pos form) with
  | Some (Some (OnAddItem schema path)) =>
      update_at (drop_last 1 pos)
                (add_item_click schema path (nth 0 (rev pos) 0%nat)) form
  | Some (Some (OnRemoveItem path)) =>
      (* button < controls < item < container < wrapper *)
      update_at (drop_last 4 pos)
                (remove_item_click path (nth 0 (rev (drop_last 2 pos)) 0%nat)) form
  | Some (Some (OnAddProperty patternProperties basePath)) =>
      update_at (drop_last 1 pos) (add_property_click patternProperties basePath) form
  | Some (Some OnRemoveProperty) =>
      (* button < controls < entry < container *)
      update_at (drop_last 3 pos)
                (fun container =>
                   Ret (with_children container
                          (remove_nth (nth 0 (rev (drop_last 2 pos)) 0%nat)
                                      (children_of container)))) form
  | _ => Ret form
  end.

(** The user picks the option [chosen] in the select at [pos]; a disabled
    control cannot be changed. *)
Definition change (pos : list nat) (chosen : string) (form : node) : outcome node :=
  match option_map handler_of (enabled_at pos form) with
  | Some (Some (OnVariantChange schema path isRequired)) =>
      update_at (drop_last 1 pos) (variant_change schema path isRequired chosen) form
  | Some _ => update_at pos (fun n => Ret (set_value chosen n)) form
  | None => Ret form
  end.

(** The user types [text] into the control at [pos]; a disabled control
    takes no input. *)
Definition input (pos : list nat) (text : string) (form : node) : outcome node :=
  match enabled_at pos form with
  | Some _ => update_at pos (fun n => Ret (set_value text n)) form
  | None => Ret form
  end.
End Handlers.

(* ================================================================== *)
(** * Collecting the document: [collectData] *)

Definition is_space (c : ascii) : bool :=
  let n := nat_of_ascii c in
  (Nat.leb 9 n && Nat.leb n 13) || Nat.eqb n 32.

Fixpoint trim_start (s : string) : string :=
  match s with
  | String c r => if is_space c then trim_start r else s
  | EmptyString => EmptyString
  end.

Definition rev_string (s : string) : string :=
  string_of_list_ascii (rev (list_ascii_of_string s)).

(** [s.trim()]; beyond ASCII the host knows more white space. *)
Definition trim (s : string) : outcome string :=
  if is_ascii s then Ret (rev_string (trim_start (rev_string (trim_start s))))
  else HostDependent.

(** The test both collectors apply to a collected value. *)
Definition isMeaningful (value : json) : bool :=
  match value with
  | JStr s => negb (String.eqb s "")
  | JArr l => match l with [] => false | _ => true end
  | JObj m => match m with [] => false | _ => true end
  | _ => true
  end.

Section Collect.
Context {H : Host}.
Variable state_schema : json.
(** [dom.schemaForm] *)
Variable form : node.
(** [collectData] at the recursion depth below the current one. *)
Variable collectData_rec : json -> string -> outcome json.

Definition collectPatternPropertiesData (schema : json) (path : string)
  : outcome (list (string * json)) :=
  let patternProperties := or_else (prop schema "patternProperties") (JObj []) in
  container <- query_data "patternPath" path form ;;
  match container with
  | None => Ret []
  | Some container =>
      let entries := children_with_class "pattern-property-entry" container in
      foldM (fun result ie =>
               let '(index, entry) := ie in
               match descendants_with_data "patternPropertyName" entry with
               | [] => Ret result
               | nameInput :: _ =>
                   match value_of nameInput with
                   | JStr v =>
                       propertyName <- trim v ;;
                       if String.eqb propertyName "" then Ret result
                       else
                         patterns <- own_entries patternProperties ;;
                         match find (fun kv => match RegExp_test (fst kv) propertyName with
                                               | Some b => b
                                               | None => false
                                               end) patterns with
                         | None => Ret result
                         | Some (matchingPattern, patternSchema) =>
                             if String.eqb matchingPattern "" then Ret result
                             else
                               let valuePath :=
                                 path ++ "." ++ nat_to_string index ++ "_pattern_value" in
                               value <- collectData_rec patternSchema valuePath ;;
                               if negb (is_undefined value) && isMeaningful value
                               then assign propertyName value result
                               else Ret result
                         end
                   | _ => Throws
                   end
               end)
            (combine (seq 0 (List.length entries)) entries) []
  end.

(** [variantContainer ? Number(variantContainer.dataset.selectedVariant || "0") : 0] *)
Definition selectedIndex (path : string) : numres :=
  match getOneOfContainer form path with
  | Some variantContainer =>
      Number_of_string
        (match data "selectedVariant" variantContainer with
         | Some s => if String.eqb s "" then "0" else s
         | None => "0"
         end)
  | None => Fin (Int 0)
  end.

Definition primitive_item_types : list json :=
  [JStr "string"; JStr "number"; JStr "integer"; JStr "boolean"].

Definition collectData_body (schema : json) (path : string) : outcome json :=
  if negb (truthy schema) then Ret JUndefined
  else
    effective <- resolveSchema state_schema schema ;;
    if negb (truthy effective) then Ret JUndefined
    else if truthy (prop effective "__alwaysInvalid") then Ret JUndefined
    else if nonempty_array (prop effective "oneOf") then
      let oneOf := match prop effective "oneOf" with JArr l => l | _ => [] end in
      collectData_rec
        (or_else (element_at oneOf (selectedIndex path)) (nth 0 oneOf JUndefined)) path
    else if nonempty_array (prop effective "allOf") then
      mergedSchema <- mergeAllOfSchemas state_schema (prop effective "allOf") ;;
      collectData_rec mergedSchema path
    else
      let type := getSchemaType effective in
      if is_object_node type effective true then
        let properties := or_else (prop effective "properties") (JObj []) in
        let patternProperties := or_else (prop effective "patternProperties") (JObj []) in
        entries <- own_entries properties ;;
        '(result, hasMeaningfulValue) <-
          foldM (fun st kv =>
                   let '(result, hasMeaningfulValue) := st in
                   let '(key, childSchema) := kv in
                   value <- collectData_rec childSchema (child_path path key) ;;
                   if negb (is_undefined value) && isMeaningful value then
                     result <- assign key value result ;; Ret (result, true)
                   else Ret (result, hasMeaningfulValue))
                entries ([], false) ;;
        patterns <- own_entries patternProperties ;;
        '(result, hasMeaningfulValue) <-
          match patterns with
          | [] => Ret (result, hasMeaningfulValue)
          | _ =>
              patternData <- collectPatternPropertiesData effective path ;;
              match patternData with
              | [] => Ret (result, hasMeaningfulValue)
              | _ =>
                  (* Object.assign(result, patternData) *)
                  result <- foldM (fun r kv => assign (fst kv) (snd kv) r)
                                  patternData result ;;
                  Ret (result, true)
              end
          end ;;
        if String.eqb path "root" then Ret (JObj result)
        else Ret (if hasMeaningfulValue then JObj result else JUndefined)
      else if json_eqb type (JStr "array") then
        match getArrayContainer form path with
        | None => Ret (if String.eqb path "root" then JArr [] else JUndefined)
        | Some itemsContainer =>
            let itemsSchema :=
              if negb (is_undefined (prop effective "items"))
              then prop effective "items" else prop schema "items" in
            let arrayItems := children_with_class "array-item" itemsContainer in
            values <-
              foldM (fun values ii =>
                       let '(idx, item) := ii in
                       let expectedPath := item_path path idx in
                       if truthy (prop itemsSchema "type")
                          && existsb (json_eqb (prop itemsSchema "type")) primitive_item_types
                       then
                         inputElement <- query_data "schemaPath" expectedPath item ;;
                         match inputElement with
                         | Some inputElement =>
                             let childValue :=
                               coerceValue (value_of inputElement) (prop itemsSchema "type") in
                             Ret (if negb (is_undefined childValue)
                                     && negb (json_eqb childValue (JStr ""))
                                  then (values ++ [childValue])%list else values)
                         | None => Ret values
                         end
                       else
                         childValue <- collectData_rec (or_else itemsSchema (JObj []))
                                                       expectedPath ;;
                         Ret (if negb (is_undefined childValue)
                              then (values ++ [childValue])%list else values))
                    (combine (seq 0 (List.length arrayItems)) arrayItems) [] ;;
            if String.eqb path "root" then Ret (JArr values)
            else Ret (match values with [] => JUndefined | _ => JArr values end)
        end
      else
        control <- query_data "schemaPath" path form ;;
        match control with
        | None => Ret JUndefined
        | Some control =>
            Ret (coerceValue (value_of control) (or_else type (JStr "string")))
        end.
End Collect.

Section CollectFix.
Context {H : Host}.
Variable state_schema : json.
Variable form : node.

Fixpoint collectData (fuel : nat) (schema : json) (path : string) : outcome json :=
  match fuel with
  | O => OutOfFuel
  | S fuel' => collectData_body state_schema form (collectData fuel') schema path
  end.
End CollectFix.

(* ================================================================== *)
(** * External references: [resolveExternalRef], [resolveFragment],
      [preResolveExternalRefs] *)

(** What [fetch(baseUrl)] followed by [response.json()] comes to. *)
Inductive response : Type :=
| NetworkError                        (* [fetch] rejects *)
| Status (ok : bool) (body : option json).
    (* a response; [body] is [None] when it does not parse as JSON *)

(** [state.externalSchemaCache] (a [Map] from base URL to the fetched
    document, [null] after a failed fetch) and the requests issued so far,
    oldest first. *)
Record world : Type := {
  externalSchemaCache : list (string * json);
  requests : list string
}.

Fixpoint cache_get (url : string) (c : list (string * json)) : option json :=
  match c with
  | [] => None
  | (u, v) :: r => if String.eqb url u then Some v else cache_get url r
  end.

Fixpoint cache_set (url : string) (v : json) (c : list (string * json)) :=
  match c with
  | [] => [(url, v)]
  | (u, v') :: r => if String.eqb url u then (u, v) :: r else (u, v') :: cache_set url v r
  end.

Section External.
Context {H : Host}.

(** The network: the answer to a request, given the requests before it. *)
Variable fetch : list string -> string -> response.

(** The callback of [path.reduce] in [resolveFragment]:
    [acc && typeof acc === 'object' && segment in acc]. *)
Definition fragment_step (acc : json) (segment : string) : outcome json :=
  let absent := if inherits acc segment then HostDependent else Ret JNull in
  match acc with
  | JObj m =>
      match assoc segment m with
      | Some v => Ret v
      | None => absent
      end
  | JArr l =>
      match array_index segment with
      | Some n =>
          match nth_error l (N.to_nat n) with
          | Some v => Ret v
          | None => absent
          end
      | None =>
          if String.eqb segment "length" then Ret (JNum (Int (Z.of_nat (List.length l))))
          else absent
      end
  | _ => Ret JNull
  end.

Definition resolveFragment (schema : json) (fragment : string) : outcome json :=
  if String.eqb fragment "" then Ret schema
  else if starts_with "/" fragment then
    let path := map unescape_segment (split_on "/" (slice_from 1 fragment)) in
    foldM fragment_step path schema
  else Ret JNull.

Definition resolveExternalRef (ref : json) (w : world) : outcome (json * world) :=
  match ref with
  | JStr r =>
      if negb (truthy ref) then Ret (JNull, w)
      else if negb (starts_with "http://" r) && negb (starts_with "https://" r)
      then Ret (JNull, w)
      else
        (* const [baseUrl, fragment] = ref.includes('#') ? ref.split('#') : [ref, null] *)
        let '(baseUrl, fragment) :=
          if includes_char "#" r then
            match split_on "#" r with
            | b :: f :: _ => (b, Some f)
            | b :: [] => (b, None)
            | [] => (r, None)
            end
          else (r, None) in
        let at_fragment (baseSchema : json) : outcome json :=
          match fragment with
          | None => Ret baseSchema
          | Some f => resolveFragment baseSchema f
          end in
        match cache_get baseUrl (externalSchemaCache w) with
        | Some baseSchema =>
            match baseSchema with
            | JNull => Ret (JNull, w)
            | _ => v <- at_fragment baseSchema ;; Ret (v, w)
            end
        | None =>
            let requested := (requests w ++ [baseUrl])%list in
            let failed :=
              {| externalSchemaCache := cache_set baseUrl JNull (externalSchemaCache w);
                 requests := requested |} in
            match fetch (requests w) baseUrl with
            | Status true (Some baseSchema) =>
                v <- at_fragment baseSchema ;;
                Ret (v, {| externalSchemaCache :=
                             cache_set baseUrl baseSchema (externalSchemaCache w);
                           requests := requested |})
            | _ => Ret (JNull, failed)
            end
        end
  | _ => Ret (JNull, w)
  end.

Section Pre.
Variable preResolve_rec : json -> world -> outcome (json * world).

(** [for ... of] with [await]: the world is threaded through. *)
Fixpoint pre_each (l : list json) (w : world) : outcome (list json * world) :=
  match l with
  | [] => Ret ([], w)
  | x :: r =>
      '(y, w) <- preResolve_rec x w ;;
      '(ys, w) <- pre_each r w ;;
      Ret (y :: ys, w)
  end.

Fixpoint pre_members (entries result : list (string * json)) (w : world)
  : outcome (list (string * json) * world) :=
  match entries with
  | [] => Ret (result, w)
  | (key, value) :: r =>
      if typeof_object value && negb (json_eqb value JNull) then
        '(v, w) <- preResolve_rec value w ;;
        pre_members r (define key v result) w
      else pre_members r result w
  end.

Definition preResolve_body (schema : json) (w : world) : outcome (json * world) :=
  if negb (truthy schema) || negb (typeof_object schema) then Ret (schema, w)
  else
    match schema with
    | JArr l => '(l', w) <- pre_each l w ;; Ret (JArr l', w)
    | _ =>
        let ref := prop schema "$ref" in
        let external :=
          match ref with
          | JStr r => truthy ref && (starts_with "http://" r || starts_with "https://" r)
          | _ => false
          end in
        if external then
          '(externalSchema, w) <- resolveExternalRef ref w ;;
          if truthy externalSchema then
            rest <- spread_onto [] (JObj (delete "$ref" (members_of schema))) ;;
            m1 <- spread_onto [] externalSchema ;;
            m2 <- spread_onto m1 (JObj rest) ;;
            preResolve_rec (JObj m2) w
          else Ret (JObj [("__unresolvedRef", ref)], w)
        else
          result <- spread_onto [] schema ;;
          '(result, w) <- pre_members result result w ;;
          Ret (JObj result, w)
    end.
End Pre.

Fixpoint preResolveExternalRefs (fuel : nat) (schema : json) (w : world)
  : outcome (json * world) :=
  match fuel with
  | O => OutOfFuel
  | S fuel' => preResolve_body (preResolveExternalRefs fuel') schema w
  end.
End External.

(* ================================================================== *)
(** * Output and validation: [updateSchemaOutput] *)

(** What calling the compiled validator comes to. *)
Inductive verdict : Type :=
| Valid
| Invalid (errors : nat)   (* the number of entries of [validator.errors] *)
| Raised.                  (* the validator throws *)

(** What [updateSchemaOutput] leaves in the output and validation panes. *)
Inductive panes : Type :=
| Cleared                                      (* nothing to show *)
| Shown (data : json) (validation : list string).

Definition msg_not_available : string :=
  "Schema loaded, but validation is not available for this document.".
Definition msg_all_good : string :=
  "All good! The generated JSON matches the active schema.".

Section Output.
Context {H : Host}.

(** [state.schema], [state.validator] and [dom.schemaForm]. *)
Variable state_schema : json.
Variable state_validator : option (json -> verdict).
Variable form : node.
Variable fuel : nat.

Definition updateSchemaOutput : outcome panes :=
  if negb (truthy state_schema) then Ret Cleared
  else
    data <- collectData state_schema form fuel state_schema "root" ;;
    if is_undefined data then Ret Cleared
    else
      match state_validator with
      | None => Ret (Shown data [msg_not_available])
      | Some validator =>
          match validator data with
          | Valid => Ret (Shown data [msg_all_good])
          | Invalid n =>
              (* one line of introduction and one per formatted error; no
                 reported error still yields one line *)
              Ret (Shown data (repeat "issue" (S (Nat.max n 1))))
          | Raised => Ret (Shown data (repeat "issue" 2))
          end
      end.
End Output.

(** The JSON Schema reading of the keywords [type], [items], [minItems]
    and [maxItems], which is what a conforming validator decides for a
    schema made of them. *)
Definition has_type (t : json) (doc : json) : bool :=
  match t, doc with
  | JStr "array", JArr _ => true
  | JStr "object", JObj _ => true
  | JStr "string", JStr _ => true
  | JStr "boolean", JBool _ => true
  | JStr "null", JNull => true
  | JStr "number", JNum _ => true
  | JStr "integer", JNum (Int _) => true
  | _, _ => false
  end.

Fixpoint conforms (schema doc : json) {struct doc} : bool :=
  (match prop schema "type" with
   | JUndefined => true
   | JArr ts => existsb (fun t => has_type t doc) ts
   | t => has_type t doc
   end)
  && match doc with
     | JArr l =>
         (match prop schema "items" with
          | JUndefined => true
          | items => forallb (conforms items) l
          end)
         && (match prop schema "minItems" with
             | JNum (Int n) => Z.leb n (Z.of_nat (List.length l))
             | _ => true
             end)
         && (match prop schema "maxItems" with
             | JNum (Int n) => Z.leb (Z.of_nat (List.length l)) n
             | _ => true
             end)
     | _ => true
     end.

(* ================================================================== *)
(** * A host for closed examples *)

(** The members every object inherits from [Object.prototype]. *)
Definition object_prototype_members : list string :=
  ["constructor"; "hasOwnProperty"; "isPrototypeOf"; "propertyIsEnumerable";
   "toLocaleString"; "toString"; "valueOf"; "__proto__";
   "__defineGetter__"; "__defineSetter__"; "__lookupGetter__"; "__lookupSetter__"].

Definition is_word_char (c : ascii) : bool :=
  let n := nat_of_ascii c in
  (Nat.leb 48 n && Nat.leb n 57) || (Nat.leb 65 n && Nat.leb n 90)
  || (Nat.leb 97 n && Nat.leb n 122) || Nat.eqb n 45 || Nat.eqb n 95.

(** Regular expressions of the form [^literal], the literal made of
    letters, digits, [-] and [_]; the example host knows no others. *)
Definition anchored_literal_test (pattern s : string) : option bool :=
  match pattern with
  | String "^" lit =>
      if forallb is_word_char (list_ascii_of_string lit)
      then Some (String.prefix lit s) else None
  | _ => None
  end.

Definition quote : string := String (ascii_of_nat 34) EmptyString.

(** [JSON.stringify] without indentation, for strings that need no
    escaping. *)
Fixpoint stringify (v : json) : string :=
  match v with
  | JUndefined => "undefined"
  | JNull => "null"
  | JBool true => "true"
  | JBool false => "false"
  | JNum (Int z) => Z_to_string z
  | JNum (Frac _ repr) => repr
  | JStr s => quote ++ s ++ quote
  | JArr l => "[" ++ concat "," (map stringify l) ++ "]"
  | JObj m =>
      "{" ++ concat "," (map (fun kv => quote ++ fst kv ++ quote ++ ":" ++ stringify (snd kv)) m)
      ++ "}"
  end.

#[export] Instance example_host : Host := {
  inherits := fun _ k => existsb (String.eqb k) object_prototype_members;
  Number_host := fun _ => NaN;
  parseInt_host := fun _ => NaN;
  String_host := Z_to_string;
  RegExp_test := anchored_literal_test;
  JSON_stringify := stringify;
  valid_number_host := fun _ => false
}.

(* ================================================================== *)
(** * Labels and messages: [getOneOfOptionLabel], [pointerToReadablePath],
      [formatAjvErrors] *)

Section Labels.
Context {H : Host}.
Variable state_schema : json.

(** [`Option ${index + 1}`] *)
Definition option_number (index : nat) : json :=
  JStr ("Option " ++ nat_to_string (S index)).

(** [Array.isArray(e) && e.length === 1], with [e[0]]. *)
Definition single_enum (e : json) : option json :=
  match e with JArr [x] => Some x | _ => None end.

(** One turn of [for (const key of hintKeys)]: the label it returns, if it
    returns. *)
Definition hint_label (properties : json) (key : string) : outcome (option json) :=
  let propertySchema := prop properties key in
  if negb (truthy propertySchema) then Ret None
  else
    resolved <- resolveSchema state_schema propertySchema ;;
    if negb (is_undefined (prop resolved "const")) then
      Ret (Some (JStr (stringifySchemaValue (prop resolved "const"))))
    else
      match single_enum (prop resolved "enum") with
      | Some x => Ret (Some (JStr (stringifySchemaValue x)))
      | None => Ret None
      end.

Fixpoint first_hint (properties : json) (keys : list string) : outcome (option json) :=
  match keys with
  | [] => Ret None
  | key :: r =>
      l <- hint_label properties key ;;
      match l with
      | Some label => Ret (Some label)
      | None => first_hint properties r
      end
  end.

Definition hintKeys : list string := ["type"; "action"; "id"; "name"; "kind"].

Definition getOneOfOptionLabel (option : json) (index : nat) : outcome json :=
  if negb (truthy option) || negb (typeof_object option) then Ret (option_number index)
  else if truthy (prop option "title") then Ret (prop option "title")
  else if negb (is_undefined (prop option "const")) then
    Ret (JStr (stringifySchemaValue (prop option "const")))
  else
    match single_enum (prop option "enum") with
    | Some x => Ret (JStr (stringifySchemaValue x))
    | None =>
        hinted <-
          (if truthy (prop option "properties") && typeof_object (prop option "properties")
           then first_hint (prop option "properties") hintKeys
           else Ret None) ;;
        match hinted with
        | Some label => Ret label
        | None =>
            if truthy (prop option "description") then Ret (prop option "description")
            else Ret (option_number index)
        end
    end.

(** The labels of the options [createOneOfField] puts in the selector. *)
Definition oneOf_labels (oneOf : list json) : outcome (list json) :=
  mapM (fun io => getOneOfOptionLabel (snd io) (fst io))
       (combine (seq 0 (List.length oneOf)) oneOf).

Definition pointerToReadablePath (pointer : json) : outcome string :=
  if negb (truthy pointer) then Ret "root"
  else
    match pointer with
    | JStr p =>
        let readable :=
          join_with "." (map unescape_segment (split_on "/" (slice_from 1 p))) in
        Ret (if String.eqb readable "" then "root" else readable)
    | _ => Throws
    end.

Definition msg_unvalidated : string :=
  "Output could not be validated against this schema.".

(** The callback of [errors.map] in [formatAjvErrors]. *)
Definition formatAjvError (error : json) : outcome string :=
  match error with
  | JUndefined | JNull => Throws
  | _ =>
      path <- pointerToReadablePath (prop error "instancePath") ;;
      let message := prop error "message" in
      let param (name : string) : outcome json :=
        match prop error "params" with
        | JUndefined | JNull => Throws
        | params => Ret (prop params name)
        end in
      let keyword := prop error "keyword" in
      let is_case (name : string) : bool := json_eqb keyword (JStr name) in
      if is_case "required" then
        p <- param "missingProperty" ;;
        Ret (path ++ ": missing required property " ++ quote ++ String_of p ++ quote ++ ".")
      else if is_case "const" then
        p <- param "allowedValue" ;;
        Ret (path ++ ": must be exactly " ++ stringifySchemaValue p ++ ".")
      else if is_case "enum" then
        p <- param "allowedValues" ;;
        match p with
        | JArr l =>
            Ret (path ++ ": must be one of "
                      ++ join_with ", " (map stringifySchemaValue l) ++ ".")
        | _ => Throws
        end
      else if is_case "type" then
        p <- param "type" ;;
        Ret (path ++ ": must be of type " ++ String_of p ++ ".")
      else if is_case "oneOf" then
        Ret (path ++ ": "
                  ++ String_of (or_else message
                                        (JStr "must match exactly one allowed schema variant.")))
      else if existsb is_case ["minItems"; "maxItems"; "minLength"; "maxLength";
                               "minimum"; "maximum"] then
        Ret (path ++ ": " ++ String_of message ++ ".")
      else Ret (path ++ ": " ++ String_of (or_else message (JStr "is invalid.")))
  end.

Definition formatAjvErrors (errors : json) : outcome (list string) :=
  match errors with
  | JArr (e :: r) => mapM formatAjvError (e :: r)
  | JStr s => if String.eqb s "" then Ret [msg_unvalidated] else Throws
  | JObj _ => if truthy (prop errors "length") then Throws else Ret [msg_unvalidated]
  | _ => Ret [msg_unvalidated]
  end.
End Labels.

(* ================================================================== *)
(** * utils.js: [getSingularForm], [fieldId]

    In the strings these functions take, a character of code 128 or more
    stands for a code unit outside ASCII. *)

Definition is_upper (c : ascii) : bool :=
  let n := nat_of_ascii c in Nat.leb 65 n && Nat.leb n 90.

Definition is_lower (c : ascii) : bool :=
  let n := nat_of_ascii c in Nat.leb 97 n && Nat.leb n 122.

Definition is_digit (c : ascii) : bool :=
  let n := nat_of_ascii c in Nat.leb 48 n && Nat.leb n 57.

Definition lower_char (c : ascii) : ascii :=
  if is_upper c then ascii_of_nat (nat_of_ascii c + 32) else c.

(** [s.toLowerCase()] of an ASCII string. *)
Fixpoint lower (s : string) : string :=
  match s with
  | EmptyString => EmptyString
  | String c r => String (lower_char c) (lower r)
  end.

(** [s.endsWith(suffix)] *)
Definition ends_with (suffix s : string) : bool :=
  String.prefix (rev_string suffix) (rev_string s).

(** [s.slice(0, -n)] for a positive [n]. *)
Definition drop_end (n : nat) (s : string) : string :=
  substring 0 (String.length s - n) s.

Definition getSingularForm (word : string) : outcome string :=
  if String.eqb word "" then Ret "item"
  else if negb (is_ascii word) then HostDependent
  else
    let lowerWord := lower word in
    if ends_with "ies" lowerWord then Ret (drop_end 3 word ++ "y")
    else if ends_with "ves" lowerWord then Ret (drop_end 3 word ++ "f")
    else if ends_with "ses" lowerWord || ends_with "xes" lowerWord
            || ends_with "zes" lowerWord || ends_with "ches" lowerWord
            || ends_with "shes" lowerWord
    then Ret (drop_end 2 word)
    else if ends_with "s" lowerWord && negb (ends_with "ss" lowerWord)
    then Ret (drop_end 1 word)
    else Ret word.

(** [[a-z0-9]] with the flag [i]. *)
Definition is_alnum (c : ascii) : bool := is_digit c || is_upper c || is_lower c.

(** [path.replace(/[^a-z0-9]+/gi, "-")]; [in_run] tells that the character
    before was replaced too. *)
Fixpoint dash_runs (in_run : bool) (path : string) : string :=
  match path with
  | EmptyString => EmptyString
  | String c r =>
      if is_alnum c then String c (dash_runs false r)
      else if in_run then dash_runs true r
      else String "-" (dash_runs true r)
  end.

Definition fieldId (path : string) : string := "field-" ++ dash_runs false path.

(* ================================================================== *)
(** * Quick-select words: [extractWordsFromPatterns] *)

(** [s.replace(/^c/, '')] and [s.replace(/c$/, '')] for one character. *)
Definition strip_first (c : ascii) (s : string) : string :=
  match s with
  | String x r => if Ascii.eqb x c then r else s
  | EmptyString => s
  end.

Definition strip_last (c : ascii) (s : string) : string :=
  rev_string (strip_first c (rev_string s)).

(** [/[\[\]{}*+?\\\.]/] *)
Definition is_regex_special (c : ascii) : bool :=
  existsb (Ascii.eqb c) (list_ascii_of_string "[]{}*+?\.").

(** [/^[a-zA-Z][a-zA-Z0-9_-]*$/.test(word)] *)
Definition is_simple_word (word : string) : bool :=
  match word with
  | EmptyString => false
  | String c r =>
      (is_upper c || is_lower c)
      && forallb (fun x => is_alnum x || Ascii.eqb x "_" || Ascii.eqb x "-")
                 (list_ascii_of_string r)
  end.

(** [allWords.add(word)] for strings. *)
Definition add_word (allWords : list string) (word : string) : list string :=
  if existsb (String.eqb word) allWords then allWords else (allWords ++ [word])%list.

(** The callback of [patterns.forEach]. *)
Definition extract_from (allWords : list string) (pattern : string)
  : outcome (list string) :=
  let cleanPattern := strip_last "$" (strip_first "^" pattern) in
  let cleanPattern := strip_last ")" (strip_first "(" cleanPattern) in
  if includes_char "|" cleanPattern
     && negb (existsb is_regex_special (list_ascii_of_string cleanPattern))
  then
    words <- mapM trim (split_on "|" cleanPattern) ;;
    Ret (fold_left add_word (filter is_simple_word words) allWords)
  else if is_simple_word cleanPattern then Ret (add_word allWords cleanPattern)
  else Ret allWords.

(** [Array.prototype.sort] without a comparator, on distinct strings: the
    one arrangement in ascending order of code units. *)
Fixpoint insert_sorted (w : string) (l : list string) : list string :=
  match l with
  | [] => [w]
  | x :: r => if String.leb w x then w :: l else x :: insert_sorted w r
  end.

Definition sort_words (l : list string) : list string :=
  fold_right insert_sorted [] l.

Definition extractWordsFromPatterns (patterns : list string) : outcome (list string) :=
  allWords <- foldM extract_from patterns [] ;;
  Ret (sort_words allWords).

(* ================================================================== *)
(** * The address bar: state.js [getToolFromURL], [getSchemaUrlFromURL],
      [updateURL]

    The query of [window.location] is the list of the pairs its
    [URLSearchParams] holds. *)

Definition query : Type := list (string * string).

(** [searchParams.get(name)]: the first value under [name]. *)
Fixpoint params_get (name : string) (q : query) : option string :=
  match q with
  | [] => None
  | (k, v) :: r => if String.eqb k name then Some v else params_get name r
  end.

(** [searchParams.delete(name)]: every pair under [name] goes. *)
Definition params_delete (name : string) (q : query) : query :=
  filter (fun kv => negb (String.eqb (fst kv) name)) q.

(** [searchParams.set(name, value)]: the first pair under [name] takes
    [value] and the others go; without one, a new pair comes last. *)
Fixpoint params_set (name value : string) (q : query) : query :=
  match q with
  | [] => [(name, value)]
  | (k, v) :: r =>
      if String.eqb k name then (k, value) :: params_delete name r
      else (k, v) :: params_set name value r
  end.

Definition getToolFromURL (q : query) : string :=
  match params_get "tool" q with
  | Some tool =>
      if existsb (String.eqb tool) ["formatter"; "schema"] then tool else "formatter"
  | None => "formatter"
  end.

Definition getSchemaUrlFromURL (q : query) : option string := params_get "schemaUrl" q.

(** [updateURL(tool, schemaUrl)]: the query [replaceState] installs;
    [schemaFromUrl] is [state.schemaFromUrl], and [schemaUrl] is empty when
    the caller passes none. *)
Definition updateURL (schemaFromUrl : bool) (tool schemaUrl : string) (q : query) : query :=
  let q := if String.eqb tool "formatter" then params_delete "tool" q
           else params_set "tool" tool q in
  if negb (String.eqb schemaUrl "") then params_set "schemaUrl" schemaUrl q
  else if negb schemaFromUrl then params_delete "schemaUrl" q
  else q.

(* ================================================================== *)
(** * Saving: file.js [generateTimestampedFilename], [saveSchemaJson] *)

(** [s.replace(/[^a-zA-Z0-9_-]/g, '_')] *)
Definition underscore_unsafe (s : string) : string :=
  string_of_list_ascii
    (map (fun c => if is_alnum c || Ascii.eqb c "_" || Ascii.eqb c "-" then c else "_"%char)
         (list_ascii_of_string s)).

(** [s.replace('T', '_')]: the first [T] only. *)
Fixpoint replace_first_T (s : string) : string :=
  match s with
  | EmptyString => EmptyString
  | String c r => if Ascii.eqb c "T" then String "_" r else String c (replace_first_T r)
  end.

(** [iso] is what [new Date().toISOString()] returns. *)
Definition timestamp (iso : string) : string :=
  substring 0 19
    (replace_first_T
       (string_of_list_ascii
          (map (fun c => if Ascii.eqb c ":" || Ascii.eqb c "." then "-"%char else c)
               (list_ascii_of_string iso)))).

Definition generateTimestampedFilename (iso baseName extension : string) : string :=
  baseName ++ "_" ++ timestamp iso ++ "." ++ extension.

(** The name [saveSchemaJson] passes on to [saveJsonToFile]; a name that
    is not a string has no [replace], and the [catch] gives up. *)
Definition saveSchemaJson_filename (iso : string) (schemaName : json) : option string :=
  if truthy schemaName then
    match schemaName with
    | JStr name =>
        let cleanName := substring 0 50 (lower (underscore_unsafe name)) in
        Some (generateTimestampedFilename iso cleanName "json")
    | _ => None
    end
  else Some (generateTimestampedFilename iso "schema_output" "json").

(* ================================================================== *)
(** * Properties *)

(** ** Members of objects *)

Lemma bind_Ret {A B : Type} (m : outcome A) (k : A -> outcome B) (b : B) :
  bind m k = Ret b -> exists a, m = Ret a /\ k a = Ret b.
Proof. destruct m; simpl; try discriminate. eauto. Qed.

Lemma assoc_None_notin k m : assoc k m = None <-> ~ In k (map fst m).
Proof.
  induction m as [| [k' v] m IH]; simpl.
  - tauto.
  - destruct (String.eqb_spec k k') as [-> | N].
    + split; [discriminate | intros X; exfalso; apply X; left; reflexivity].
    + rewrite IH. split; [intros X [Y | Y]; [congruence | tauto] | tauto].
Qed.

Lemma has_own_false k m : has_own k m = false <-> ~ In k (map fst m).
Proof.
  unfold has_own. rewrite <- assoc_None_notin.
  destruct (assoc k m); split; congruence.
Qed.

Lemma keys_replace_member k v m : map fst (replace_member k v m) = map fst m.
Proof.
  induction m as [| [k' v'] m IH]; simpl; [reflexivity|].
  destruct (String.eqb k k'); simpl; [reflexivity | now rewrite IH].
Qed.

Lemma assoc_replace_member_same k v m :
  has_own k m = true -> assoc k (replace_member k v m) = Some v.
Proof.
  unfold has_own.
  induction m as [| [k' v'] m IH]; simpl; [discriminate|].
  destruct (String.eqb k k') eqn:E; simpl; rewrite E; auto.
Qed.

Lemma assoc_replace_member_other k k' v m :
  k' <> k -> assoc k' (replace_member k v m) = assoc k' m.
Proof.
  intros N. induction m as [| [k0 v0] m IH]; simpl; [reflexivity|].
  destruct (String.eqb_spec k k0) as [-> | N0]; simpl.
  - destruct (String.eqb_spec k' k0); [contradiction | reflexivity].
  - now rewrite IH.
Qed.

Lemma keys_insert_index n k v m x :
  In x (map fst (insert_index n k v m)) <-> x = k \/ In x (map fst m).
Proof.
  induction m as [| [k' v'] m IH]; simpl.
  - intuition.
  - destruct (array_index k'); [destruct (N.ltb n n0)|]; simpl; try rewrite IH; intuition.
Qed.

Lemma NoDup_insert_index n k v m :
  ~ In k (map fst m) -> NoDup (map fst m) -> NoDup (map fst (insert_index n k v m)).
Proof.
  induction m as [| [k' v'] m IH]; simpl; intros Hk Hm.
  - constructor; [tauto | constructor].
  - inversion Hm as [| ? ? Hk' Hm']; subst.
    assert (G : NoDup (k :: k' :: map fst m)) by (constructor; simpl; tauto).
    destruct (array_index k'); [destruct (N.ltb n n0)|]; simpl; try exact G.
    constructor.
    + rewrite keys_insert_index. intros [-> | X]; tauto.
    + apply IH; tauto.
Qed.

Lemma assoc_insert_index_same n k v m :
  ~ In k (map fst m) -> assoc k (insert_index n k v m) = Some v.
Proof.
  induction m as [| [k' v'] m IH]; simpl; intros Hk.
  - now rewrite String.eqb_refl.
  - destruct (array_index k'); [destruct (N.ltb n n0)|]; simpl;
      try now rewrite String.eqb_refl.
    destruct (String.eqb_spec k k') as [-> | N]; [tauto | apply IH; tauto].
Qed.

Lemma assoc_insert_index_other n k k' v m :
  k' <> k -> assoc k' (insert_index n k v m) = assoc k' m.
Proof.
  intros N. induction m as [| [k0 v0] m IH]; simpl.
  - destruct (String.eqb_spec k' k); [contradiction | reflexivity].
  - destruct (array_index k0); [destruct (N.ltb n n0)|]; simpl;
      try (destruct (String.eqb_spec k' k); [contradiction | reflexivity]).
    now rewrite IH.
Qed.

Lemma assoc_app k m1 m2 :
  assoc k (m1 ++ m2) = match assoc k m1 with Some v => Some v | None => assoc k m2 end.
Proof.
  induction m1 as [| [k' v'] m1 IH]; simpl; [reflexivity|].
  destruct (String.eqb k k'); auto.
Qed.

Lemma assoc_define_same k v m : assoc k (define k v m) = Some v.
Proof.
  unfold define. destruct (has_own k m) eqn:E.
  - now apply assoc_replace_member_same.
  - apply has_own_false in E.
    destruct (array_index k); [now apply assoc_insert_index_same|].
    rewrite assoc_app. apply assoc_None_notin in E. rewrite E. simpl.
    now rewrite String.eqb_refl.
Qed.

Lemma assoc_define_other k k' v m : k' <> k -> assoc k' (define k v m) = assoc k' m.
Proof.
  intros N. unfold define. destruct (has_own k m).
  - now apply assoc_replace_member_other.
  - destruct (array_index k); [now apply assoc_insert_index_other|].
    rewrite assoc_app. destruct (assoc k' m); [reflexivity|]. simpl.
    destruct (String.eqb_spec k' k); [contradiction | reflexivity].
Qed.

Lemma NoDup_define k v m : NoDup (map fst m) -> NoDup (map fst (define k v m)).
Proof.
  intros Hm. unfold define. destruct (has_own k m) eqn:E.
  - now rewrite keys_replace_member.
  - apply has_own_false in E.
    destruct (array_index k); [now apply NoDup_insert_index|].
    rewrite map_app. simpl.
    apply NoDup_app; [assumption | constructor; [tauto | constructor] |].
    intros x Hx [<- | []]. contradiction.
Qed.

Lemma NoDup_fold_define es : forall m,
  NoDup (map fst m) ->
  NoDup (map fst (fold_left (fun acc kv => define (fst kv) (snd kv) acc) es m)).
Proof.
  induction es as [| [k v] es IH]; simpl; intros m Hm; [assumption|].
  apply IH. now apply NoDup_define.
Qed.

Lemma NoDup_spread_onto m v m' :
  NoDup (map fst m) -> spread_onto m v = Ret m' -> NoDup (map fst m').
Proof.
  unfold spread_onto. intros Hm E.
  apply bind_Ret in E as (es & _ & E). injection E as <-.
  now apply NoDup_fold_define.
Qed.

Lemma assoc_delete_NoDup k m : NoDup (map fst m) -> assoc k (delete k m) = None.
Proof.
  induction m as [| [k' v] m IH]; simpl; intros Hm; [reflexivity|].
  inversion Hm as [| ? ? Hk Hm']; subst.
  destruct (String.eqb_spec k k') as [-> | N].
  - now apply assoc_None_notin.
  - simpl. destruct (String.eqb_spec k k'); [contradiction | auto].
Qed.

Lemma assoc_delete_other k k' m : k' <> k -> assoc k' (delete k m) = assoc k' m.
Proof.
  intros N. induction m as [| [k0 v] m IH]; simpl; [reflexivity|].
  destruct (String.eqb_spec k k0) as [-> | N0]; simpl.
  - destruct (String.eqb_spec k' k0); [contradiction | reflexivity].
  - now rewrite IH.
Qed.

Lemma delete_absent k m : assoc k m = None -> delete k m = m.
Proof.
  induction m as [| [k' v] m IH]; simpl; [reflexivity|].
  destruct (String.eqb k k'); [discriminate|]. intros E. now rewrite IH.
Qed.

(** ** Resolution uses two levels at most *)

Lemma resolveSchema_body_no_ref (H : Host) st rec m seen :
  assoc "$ref" m = None -> resolveSchema_body st rec (JObj m) seen = Ret (JObj m).
Proof.
  intros E. unfold resolveSchema_body, prop. rewrite E. reflexivity.
Qed.

Lemma resolveSchema_body_ext (H : Host) st rec1 rec2 schema seen :
  (forall m s, assoc "$ref" m = None -> rec1 (JObj m) s = rec2 (JObj m) s) ->
  resolveSchema_body st rec1 schema seen = resolveSchema_body st rec2 schema seen.
Proof.
  intros R. unfold resolveSchema_body.
  destruct schema as [| | [|] | | | |m]; try reflexivity.
  destruct (negb (truthy (JObj m)) || negb (typeof_object (JObj m))); [reflexivity|].
  destruct (negb (truthy (prop (JObj m) "$ref"))); [reflexivity|].
  destruct (negb (truthy st)); [reflexivity|].
  destruct (set_has seen (prop (JObj m) "$ref")) as [[|] | | |]; try reflexivity.
  cbn [bind].
  cbn [bind].
  destruct (resolveRef st (prop (JObj m) "$ref")) as [r | | |]; try reflexivity.
  cbn [bind].
  destruct (negb (truthy r)); [reflexivity|].
  destruct (set_add seen (prop (JObj m) "$ref")) as [s | | |]; try reflexivity.
  cbn [bind].
  destruct (spread_onto [] (JObj (delete "$ref" (members_of (JObj m)))))
    as [rest | | |]; try reflexivity.
  cbn [bind].
  destruct (spread_onto [] r) as [m1 | | |] eqn:E1; try reflexivity.
  cbn [bind].
  destruct (spread_onto m1 (JObj rest)) as [m2 | | |] eqn:E2; try reflexivity.
  cbn [bind].
  apply R. apply assoc_delete_NoDup.
  eapply NoDup_spread_onto; [| exact E2].
  eapply NoDup_spread_onto; [| exact E1]. constructor.
Qed.

(** More fuel changes nothing: [resolveSchema] is total. *)
Lemma resolveSchema_fuel_two (H : Host) st schema seen fuel :
  resolveSchema_fuel st (2 + fuel) schema seen = resolveSchema_fuel st 2 schema seen.
Proof.
  change (resolveSchema_body st (resolveSchema_fuel st (S fuel)) schema seen
          = resolveSchema_body st (resolveSchema_fuel st 1) schema seen).
  apply resolveSchema_body_ext. intros m s E.
  change (resolveSchema_body st (resolveSchema_fuel st fuel) (JObj m) s
          = resolveSchema_body st (resolveSchema_fuel st 0) (JObj m) s).
  now rewrite !resolveSchema_body_no_ref.
Qed.

Lemma spread_onto_fuel m v : spread_onto m v <> OutOfFuel.
Proof.
  unfold spread_onto. destruct v; simpl; try discriminate.
  destruct (String.eqb s ""); discriminate.
Qed.

Lemma set_has_fuel seen ref : set_has seen ref <> OutOfFuel.
Proof.
  unfold set_has. destruct (by_reference ref); [destruct (existsb by_reference seen)|];
    discriminate.
Qed.

Lemma set_add_fuel seen ref : set_add seen ref <> OutOfFuel.
Proof.
  unfold set_add. pose proof (set_has_fuel seen ref).
  destruct (set_has seen ref); simpl; congruence.
Qed.

Lemma pointer_walk_fuel (H : Host) path : forall acc, foldM pointer_step path acc <> OutOfFuel.
Proof.
  induction path as [| seg path IH]; intros acc; simpl; [discriminate|].
  unfold pointer_step at 1.
  destruct (truthy acc); simpl; [| apply IH].
  unfold member.
  destruct acc; simpl;
    repeat match goal with
           | |- context [match ?c with _ => _ end] => destruct c; simpl
           end; try discriminate; apply IH.
Qed.

Lemma resolveRef_fuel (H : Host) st ref : resolveRef st ref <> OutOfFuel.
Proof.
  unfold resolveRef. destruct ref; try discriminate.
  repeat match goal with |- context [if ?c then _ else _] => destruct c end;
    try discriminate.
  apply pointer_walk_fuel.
Qed.

Lemma resolveSchema_total (H : Host) st schema :
  resolveSchema st schema <> OutOfFuel.
Proof.
  unfold resolveSchema.
  change (resolveSchema_body st (resolveSchema_fuel st 1) schema [] <> OutOfFuel).
  unfold resolveSchema_body.
  destruct schema as [| | [|] | | | |m]; try (simpl; rewrite ?orb_true_r; discriminate).
  destruct (negb (truthy (JObj m)) || negb (typeof_object (JObj m))); [discriminate|].
  destruct (negb (truthy (prop (JObj m) "$ref"))); [discriminate|].
  destruct (negb (truthy st)); [discriminate|].
  pose proof (set_has_fuel [] (prop (JObj m) "$ref")).
  destruct (set_has [] (prop (JObj m) "$ref")) as [[|] | | |];
    cbn [bind]; try discriminate; try congruence.
  pose proof (resolveRef_fuel H st (prop (JObj m) "$ref")).
  destruct (resolveRef st (prop (JObj m) "$ref")) as [r | | |];
    cbn [bind]; try discriminate; try congruence.
  destruct (negb (truthy r)); [discriminate|].
  pose proof (set_add_fuel [] (prop (JObj m) "$ref")).
  destruct (set_add [] (prop (JObj m) "$ref")) as [s | | |];
    cbn [bind]; try discriminate; try congruence.
  pose proof (spread_onto_fuel [] (JObj (delete "$ref" (members_of (JObj m))))).
  destruct (spread_onto [] (JObj (delete "$ref" (members_of (JObj m)))))
    as [rest | | |]; cbn [bind]; try discriminate; try congruence.
  pose proof (spread_onto_fuel [] r).
  destruct (spread_onto [] r) as [m1 | | |] eqn:E1;
    cbn [bind]; try discriminate; try congruence.
  pose proof (spread_onto_fuel m1 (JObj rest)).
  destruct (spread_onto m1 (JObj rest)) as [m2 | | |] eqn:E2;
    cbn [bind]; try discriminate; try congruence.
  change (resolveSchema_body st (resolveSchema_fuel st 0) (JObj (delete "$ref" m2)) s
          <> OutOfFuel).
  rewrite resolveSchema_body_no_ref; [discriminate|].
  apply assoc_delete_NoDup.
  eapply NoDup_spread_onto; [| exact E2].
  eapply NoDup_spread_onto; [| exact E1]. constructor.
Qed.

(** ** oneOf: only the active variant is collected *)

Definition ab_schema : json :=
  JObj [("oneOf", JArr [JObj [("const", JStr "A")]; JObj [("const", JStr "B")]])].

(** The oneOf selector of the form rendered for [ab_schema]. *)
Definition ab_selector : list nat := [0; 1; 0]%nat.

(** C7. For a oneOf schema, [collectData] goes on with the variant at the
    stored selection index (the first one when nothing is stored) and with
    nothing else; for the variants [{const:"A"}] and [{const:"B"}] the
    rendered form collects ["A"], and after the selector is switched to
    index 1 it collects exactly ["B"]. *)
Theorem oneOf_collects_active_variant (H : Host) :
  (forall state_schema form fuel v vs path,
      collectData state_schema form (S fuel) (JObj [("oneOf", JArr (v :: vs))]) path
      = collectData state_schema form fuel
          (or_else (element_at (v :: vs) (selectedIndex form path)) v) path)
  /\ exists form0 form1,
      renderSchemaForm ab_schema 4 ab_schema = Ret form0
      /\ selectedIndex form0 "root" = Fin (Int 0)
      /\ (forall fuel, collectData ab_schema form0 (3 + fuel) ab_schema "root"
                       = Ret (JStr "A"))
      /\ change ab_schema 4 ab_selector "1" form0 = Ret form1
      /\ selectedIndex form1 "root" = Fin (Int 1)
      /\ (forall fuel, collectData ab_schema form1 (3 + fuel) ab_schema "root"
                       = Ret (JStr "B")).
Proof.
  split.
  - intros; reflexivity.
  - eexists; eexists.
    split; [vm_compute; reflexivity|].
    split; [vm_compute; reflexivity|].
    split; [intro fuel; vm_compute; reflexivity|].
    split; [vm_compute; reflexivity|].
    split; [vm_compute; reflexivity|].
    intro fuel; vm_compute; reflexivity.
Qed.

(** ** Arrays with bounds *)

Definition pair_schema : json :=
  JObj [("type", JStr "array"); ("items", JObj [("type", JStr "integer")]);
        ("minItems", JNum (Int 2)); ("maxItems", JNum (Int 2))].

(** Positions in the form rendered for [pair_schema]. *)
Definition pair_add_button : list nat := [0; 1; 1]%nat.
Definition pair_remove_button (i : nat) : list nat := [0; 1; 0; i; 1; 0]%nat.
Definition pair_control (i : nat) : list nat := [0; 1; 0; i; 0; 0]%nat.

(** The items container of the wrapper [createArrayField] returns. *)
Definition slots (wrapper : node) : list node :=
  match children_of wrapper with
  | itemsContainer :: _ => children_with_class "array-item" itemsContainer
  | [] => []
  end.

Lemma initialItems_min (H : Host) (n : nat) :
  initialItems (JNum (Int (Z.of_nat n))) = Nat.min n 5.
Proof.
  unfold initialItems; simpl.
  destruct (Z.eqb_spec (Z.of_nat n) 0) as [E | E]; simpl; lia.
Qed.

Lemma set_data_classes key v n : classes_of (set_data key v n) = classes_of n.
Proof. destruct n; reflexivity. Qed.

(** *** What the button states leave alone *)

Fixpoint update_first_in (p : node -> bool) (f : node -> node) (l : list node)
  : option (list node) :=
  match l with
  | [] => None
  | x :: r =>
      if p x then Some (f x :: r)
      else match update_first p f x with
           | Some x' => Some (x' :: r)
           | None => option_map (cons x) (update_first_in p f r)
           end
  end.

Lemma update_first_eq p f n :
  update_first p f n = option_map (with_children n) (update_first_in p f (children_of n)).
Proof.
  destruct n as [t cl d k v b h c]. cbn [children_of with_children].
  change (update_first p f (Node t cl d k v b h c)) with
    (option_map (Node t cl d k v b h)
       ((fix scan (l : list node) : option (list node) :=
           match l with
           | [] => None
           | x :: r =>
               if p x then Some (f x :: r)
               else match update_first p f x with
                    | Some x' => Some (x' :: r)
                    | None => option_map (cons x) (scan r)
                    end
           end) c)).
  f_equal. induction c as [| x c IH]; [reflexivity|].
  cbn [update_first_in]. rewrite <- IH. reflexivity.
Qed.

Lemma update_all_eq p f n :
  update_all p f n
  = with_children n
      (map (fun x => let x' := update_all p f x in if p x then f x' else x') (children_of n)).
Proof. destruct n. reflexivity. Qed.

Lemma with_children_classes n c : classes_of (with_children n c) = classes_of n.
Proof. destruct n; reflexivity. Qed.

Lemma with_children_children n c : children_of (with_children n c) = c.
Proof. destruct n; reflexivity. Qed.

Lemma with_children_dataset n c : dataset_of (with_children n c) = dataset_of n.
Proof. destruct n; reflexivity. Qed.

Lemma update_all_classes p f n : classes_of (update_all p f n) = classes_of n.
Proof. rewrite update_all_eq. apply with_children_classes. Qed.

Lemma update_first_classes p f n n' :
  update_first p f n = Some n' -> classes_of n' = classes_of n.
Proof.
  rewrite update_first_eq. destruct (update_first_in p f (children_of n)); simpl; [| discriminate].
  intros E; injection E as <-. apply with_children_classes.
Qed.

Lemma update_first_dataset p f n n' :
  update_first p f n = Some n' -> dataset_of n' = dataset_of n.
Proof.
  rewrite update_first_eq. destruct (update_first_in p f (children_of n)); simpl; [| discriminate].
  intros E; injection E as <-. apply with_children_dataset.
Qed.

(** What [update_first] can have done to a child. *)
Definition touched (p : node -> bool) (f : node -> node) (x x' : node) : Prop :=
  x' = x \/ (p x = true /\ x' = f x) \/ (p x = false /\ update_first p f x = Some x').

Lemma update_first_in_touched p f : forall l l',
  update_first_in p f l = Some l' -> Forall2 (touched p f) l l'.
Proof.
  assert (Same : forall l : list node, Forall2 (touched p f) l l).
  { induction l; constructor; [now left | assumption]. }
  induction l as [| x l IH]; simpl; intros l' E; [discriminate|].
  destruct (p x) eqn:Px.
  - injection E as <-. constructor; [right; left; now split | apply Same].
  - destruct (update_first p f x) as [x' |] eqn:Ex.
    + injection E as <-. constructor; [right; right; now split | apply Same].
    + destruct (update_first_in p f l) as [r |]; simpl in E; [| discriminate].
      injection E as <-. constructor; [now left | now apply IH].
Qed.

Lemma update_first_touched p f n n' :
  update_first p f n = Some n' -> Forall2 (touched p f) (children_of n) (children_of n').
Proof.
  rewrite update_first_eq.
  destruct (update_first_in p f (children_of n)) as [l |] eqn:E; simpl; [| discriminate].
  intros W; injection W as <-. rewrite with_children_children.
  now apply update_first_in_touched.
Qed.

(** An items container as [createArrayField] and [addArrayItem] build it:
    the container and its items carry their one class. *)
Definition items_container (k : nat) (c : node) : Prop :=
  classes_of c = ["array-items"]
  /\ Forall (fun item => classes_of item = ["array-item"]) (children_of c)
  /\ List.length (children_of c) = k.

Definition array_wrapper (k : nat) (wrapper : node) : Prop :=
  exists c rest, children_of wrapper = c :: rest /\ items_container k c.

Lemma touched_keeps_classes f x x' (cl : list string) :
  classes_of x = cl ->
  has_classes ["app-button"; "secondary"] x = false ->
  touched (has_classes ["app-button"; "secondary"]) f x x' ->
  classes_of x' = cl.
Proof.
  intros Hc Hp [-> | [[Px _] | [_ E]]]; [assumption | congruence |].
  now rewrite (update_first_classes _ _ _ _ E).
Qed.

Lemma first_secondary_container f k c c' :
  items_container k c ->
  touched (has_classes ["app-button"; "secondary"]) f c c' ->
  items_container k c'.
Proof.
  intros (Hc & Hi & Hk) T.
  assert (Pc : has_classes ["app-button"; "secondary"] c = false).
  { unfold has_classes, has_class. now rewrite Hc. }
  destruct T as [-> | [[Px _] | [_ E]]]; [now repeat split | congruence |].
  split; [now rewrite (update_first_classes _ _ _ _ E)|].
  apply update_first_touched in E.
  revert Hi Hk. generalize (children_of c') (children_of c) E. clear.
  intros l' l E. revert k. induction E as [| x x' l l' T E IH]; intros k Hi Hk.
  - now split.
  - inversion Hi as [| ? ? Hx Hl]; subst. destruct (IH _ Hl eq_refl) as [I1 I2].
    split; [constructor; [| assumption] | simpl; now rewrite I2].
    eapply touched_keeps_classes; [exact Hx | | exact T].
    unfold has_classes, has_class. now rewrite Hx.
Qed.

Lemma update_remove_buttons_container (H : Host) k c :
  items_container k c -> items_container k (update_remove_buttons c).
Proof.
  intros (Hc & Hi & Hk). unfold update_remove_buttons.
  split; [now rewrite with_children_classes|].
  rewrite with_children_children, length_map. split; [| assumption].
  apply Forall_map. revert Hi. apply Forall_impl. intros item Hitem.
  destruct (has_class "array-item" item); [| assumption].
  now rewrite update_all_classes.
Qed.

(** Neither way of setting the button states changes the number of items
    or their class. *)
Lemma updateArrayButtonStates_first (H : Host) k wrapper :
  array_wrapper k wrapper ->
  array_wrapper k (updateArrayButtonStates first_secondary wrapper).
Proof.
  intros (c & rest & Hw & Hc). unfold updateArrayButtonStates. rewrite Hw.
  unfold first_secondary.
  destruct (update_first _ _ wrapper) as [w1 |] eqn:E; [| now exists c, rest].
  apply update_first_touched in E. rewrite Hw in E.
  destruct (children_of w1) as [| c1 rest1] eqn:Ew; inversion E as [| ? ? ? ? T]; subst.
  pose proof (first_secondary_container _ _ _ _ Hc T) as Hc1.
  exists (update_remove_buttons c1), rest1.
  split; [apply with_children_children | now apply update_remove_buttons_container].
Qed.

Lemma updateArrayButtonStates_own (H : Host) k i wrapper :
  array_wrapper k wrapper ->
  array_wrapper k (updateArrayButtonStates (own_button (S i)) wrapper).
Proof.
  intros (c & rest & Hw & Hc). unfold updateArrayButtonStates, own_button. rewrite Hw.
  rewrite with_children_children. cbn [update_nth].
  eexists; eexists. split; [apply with_children_children|].
  now apply update_remove_buttons_container.
Qed.

Lemma addArrayItem_classes (H : Host) st rec index itemSchema path value item :
  addArrayItem st rec index itemSchema path value = Ret item ->
  classes_of item = ["array-item"].
Proof.
  unfold addArrayItem.
  destruct (resolveSchema st itemSchema) as [e | | |]; simpl; try discriminate.
  match goal with
  | |- bind ?b _ = _ -> _ => destruct b as [body | | |]; simpl; try discriminate
  end.
  intros E; injection E as <-. reflexivity.
Qed.

Lemma addArrayItem_to_slots (H : Host) st rec itemSchema path value k wrapper wrapper' :
  array_wrapper k wrapper ->
  addArrayItem_to st rec itemSchema path value wrapper = Ret wrapper' ->
  array_wrapper (S k) wrapper'.
Proof.
  intros (c & rest & Hw & Hc & Hi & Hk). unfold addArrayItem_to. rewrite Hw.
  destruct (addArrayItem st rec _ itemSchema path value) as [item | | |] eqn:Ei;
    simpl; try discriminate.
  intros E; injection E as <-. apply updateArrayButtonStates_first.
  eexists; eexists. split; [apply with_children_children|].
  split; [now rewrite with_children_classes|].
  rewrite with_children_children. split.
  - apply Forall_app. split; [assumption|]. constructor; [| constructor].
    eapply addArrayItem_classes; eassumption.
  - rewrite length_app; simpl. lia.
Qed.

Lemma add_items_slots (H : Host) st rec itemSchema path :
  forall n k wrapper wrapper',
    array_wrapper k wrapper ->
    add_items st rec n itemSchema path wrapper = Ret wrapper' ->
    array_wrapper (k + n) wrapper'.
Proof.
  induction n as [| n IH]; intros k wrapper wrapper' Hw E; simpl in E.
  - injection E as <-. now rewrite Nat.add_0_r.
  - destruct (addArrayItem_to st rec itemSchema path JUndefined wrapper)
      as [w1 | | |] eqn:E1; simpl in E; try discriminate.
    replace (k + S n)%nat with (S k + n)%nat by lia.
    eapply IH; [| exact E]. eapply addArrayItem_to_slots; eassumption.
Qed.

Lemma filter_all {A : Type} (f : A -> bool) (l : list A) :
  forallb f l = true -> filter f l = l.
Proof.
  induction l as [| x l IH]; simpl; intros E; [reflexivity|].
  apply andb_true_iff in E as [E1 E2]. rewrite E1, IH; auto.
Qed.

Lemma array_wrapper_slots k wrapper :
  array_wrapper k wrapper -> List.length (slots wrapper) = k.
Proof.
  intros (c & rest & Hw & _ & Hi & Hk). unfold slots, children_with_class. rewrite Hw.
  rewrite filter_all; [assumption|].
  apply forallb_forall. intros x Hx. rewrite Forall_forall in Hi.
  unfold has_class. now rewrite (Hi x Hx).
Qed.

(** Whatever the schema, the array field starts with
    [Math.min(minItems, 5)] items. *)
Lemma createArrayField_slots (H : Host) st rec schema path isRequired wrapper :
  createArrayField st rec schema path isRequired = Ret wrapper ->
  List.length (slots wrapper) = initialItems (prop schema "minItems").
Proof.
  unfold createArrayField.
  match goal with
  | |- bind (add_items _ _ _ _ _ ?w) _ = _ -> _ =>
      assert (W : array_wrapper 0 w);
      [| destruct (add_items st rec (initialItems (prop schema "minItems"))
                             (prop schema "items") path w) as [w1 | | |] eqn:E;
         simpl; try discriminate ]
  end.
  - eexists; eexists. split; [reflexivity|].
    repeat match goal with
           | |- context [if ?c then _ else _] => destruct c
           end; repeat split; try (now rewrite ?set_data_classes); constructor.
  - intros R; injection R as <-.
    apply array_wrapper_slots, updateArrayButtonStates_own.
    exact (add_items_slots H st rec _ path _ _ _ _ W E).
Qed.

(** C8. An array field starts with [min(minItems, 5)] items.  For
    [{type:"array", items:{type:"integer"}, minItems:2, maxItems:2}] the
    form has exactly 2 items; a click on Add leaves the form as it is, and
    so does a click on either Remove; with 3 and 4 typed into the two
    items, [collectData] returns [[3,4]], and a validator that decides the
    schema as JSON Schema reads it reports no issue. *)
Theorem bounded_array_round_trip (H : Host) (validator : json -> verdict)
  (Hconf : forall doc, validator doc = if conforms pair_schema doc then Valid else Invalid 1) :
  (forall n, initialItems (JNum (Int (Z.of_nat n))) = Nat.min n 5)
  /\ (forall st rec schema path isRequired wrapper,
         createArrayField st rec schema path isRequired = Ret wrapper ->
         List.length (slots wrapper) = initialItems (prop schema "minItems"))
  /\ exists form itemsContainer typed,
      renderSchemaForm pair_schema 4 pair_schema = Ret form
      /\ getArrayContainer form "root" = Some itemsContainer
      /\ List.length (children_with_class "array-item" itemsContainer) = 2%nat
      /\ click pair_schema 4 pair_add_button form = Ret form
      /\ click pair_schema 4 (pair_remove_button 0) form = Ret form
      /\ click pair_schema 4 (pair_remove_button 1) form = Ret form
      /\ (f <- input (pair_control 0) "3" form ;; input (pair_control 1) "4" f) = Ret typed
      /\ (forall fuel, collectData pair_schema typed (1 + fuel) pair_schema "root"
                       = Ret (JArr [JNum (Int 3); JNum (Int 4)]))
      /\ (forall fuel, updateSchemaOutput pair_schema (Some validator) typed (1 + fuel)
                       = Ret (Shown (JArr [JNum (Int 3); JNum (Int 4)]) [msg_all_good])).
Proof.
  split; [apply initialItems_min|].
  split; [apply createArrayField_slots|].
  eexists; eexists; eexists.
  split; [vm_compute; reflexivity|].
  split; [vm_compute; reflexivity|].
  split; [vm_compute; reflexivity|].
  split; [vm_compute; reflexivity|].
  split; [vm_compute; reflexivity|].
  split; [vm_compute; reflexivity|].
  split; [vm_compute; reflexivity|].
  split; [intro fuel; vm_compute; reflexivity|].
  intro fuel. unfold updateSchemaOutput.
  match goal with
  | |- context [collectData ?a ?f ?n ?s ?p] =>
      replace (collectData a f n s p) with (Ret (JArr [JNum (Int 3); JNum (Int 4)]))
        by (vm_compute; reflexivity)
  end.
  simpl. rewrite Hconf. reflexivity.
Qed.

Lemma bounded_array_round_trip_witness :
  let validator := fun doc => if conforms pair_schema doc then Valid else Invalid 1 in
  (forall doc, validator doc = if conforms pair_schema doc then Valid else Invalid 1)
  /\ exists form,
      renderSchemaForm (H := example_host) pair_schema 4 pair_schema = Ret form
      /\ click pair_schema 4 pair_add_button form = Ret form.
Proof.
  intro validator. split; [intro doc; reflexivity|].
  destruct (bounded_array_round_trip example_host validator (fun doc => eq_refl))
    as (_ & _ & form & _ & _ & R & _ & _ & A & _).
  exists form. split; assumption.
Defined.

(** ** Union types *)

Lemma getSchemaType_union (first : json) (members : list (string * json))
      (rest : list json) :
  assoc "type" members = Some (JArr (first :: rest)) ->
  getSchemaType (JObj members) = first.
Proof. unfold getSchemaType; simpl. intros ->. reflexivity. Qed.

Definition union_items_schema : json :=
  JObj [("type", JStr "array");
        ("items", JObj [("type", JArr [JStr "integer"; JStr "string"])])].

Definition integer_items_schema : json :=
  JObj [("type", JStr "array"); ("items", JObj [("type", JStr "integer")])].

(** One click on Add, then 3 typed into the new item. *)
Definition one_item_typed {H : Host} (schema : json) : outcome node :=
  form <- renderSchemaForm schema 4 schema ;;
  form <- click schema 4 [0; 1; 1]%nat form ;;
  input [0; 1; 0; 0; 0; 0]%nat "3" form.

(** C10. [getSchemaType] takes the first name of a union [type], and the
    item of an array whose items are typed [["integer","string"]] is
    rendered as the same number input as for ["integer"]; but the array
    branch of [collectData] tests the raw [type] against the primitive
    names, so the 3 typed into that item is not collected, while it is for
    ["integer"]. *)
Theorem union_type_item_not_collected (H : Host) :
  getSchemaType (JObj [("type", JArr [JStr "integer"; JStr "string"])]) = JStr "integer"
  /\ exists form_union form_integer,
      one_item_typed union_items_schema = Ret form_union
      /\ one_item_typed integer_items_schema = Ret form_integer
      /\ get_at [0; 1; 0; 0; 0; 0]%nat form_union = get_at [0; 1; 0; 0; 0; 0]%nat form_integer
      /\ (forall fuel, collectData integer_items_schema form_integer (1 + fuel)
                                   integer_items_schema "root"
                       = Ret (JArr [JNum (Int 3)]))
      /\ (forall fuel, collectData union_items_schema form_union (2 + fuel)
                                   union_items_schema "root"
                       = Ret (JArr [])).
Proof.
  split; [reflexivity|].
  eexists; eexists.
  split; [vm_compute; reflexivity|].
  split; [vm_compute; reflexivity|].
  split; [vm_compute; reflexivity|].
  split; intro fuel; vm_compute; reflexivity.
Qed.

(** ** Renumbering after a removal *)

Definition nested_array_schema : json :=
  JObj [("type", JStr "array");
        ("items", JObj [("type", JStr "array"); ("items", JObj [("type", JStr "string")])])].

(** Three clicks on Add, one click on the Add of the third item, and [x]
    typed into the inner item that appears. *)
Definition three_rows {H : Host} : outcome node :=
  form <- renderSchemaForm nested_array_schema 6 nested_array_schema ;;
  form <- click nested_array_schema 6 [0; 1; 1]%nat form ;;
  form <- click nested_array_schema 6 [0; 1; 1]%nat form ;;
  form <- click nested_array_schema 6 [0; 1; 1]%nat form ;;
  form <- click nested_array_schema 6 [0; 1; 0; 2; 0; 0; 1]%nat form ;;
  input [0; 1; 0; 2; 0; 0; 0; 0; 0; 0]%nat "x" form.

(** The paths an element is tracked under. *)
Definition tracked_paths (n : node) : list string :=
  flat_map (fun d =>
              match data "schemaPath" d with Some p => [p] | None => [] end
              ++ match data "arrayPath" d with Some p => [p] | None => [] end
              ++ match data "oneOfPath" d with Some p => [p] | None => [] end)%list
           (descendants n).

(** C2. In a 3-item array of arrays, removing the item at index 1
    renumbers the item at index 2 to index 1 and rewrites the paths of its
    controls, but the [data-array-path] of the array nested in it, which
    equals the old item path, keeps the old [[2]]: a stale path is left,
    and the row typed into it is no longer collected. *)
Theorem renumbering_leaves_stale_array_path (H : Host) :
  exists before after moved,
    three_rows = Ret before
    /\ collectData nested_array_schema before 4 nested_array_schema "root"
       = Ret (JArr [JArr [JStr "x"]])
    /\ click nested_array_schema 6 [0; 1; 0; 1; 1; 0]%nat before = Ret after
    /\ get_at [0; 1; 0; 1]%nat after = Some moved
    /\ data "schemaPath" moved = Some "root[1]"
    /\ In "root[1][0]" (tracked_paths moved)
    /\ In "root[2]" (tracked_paths after)
    /\ getArrayContainer after "root[1]" = None
    /\ collectData nested_array_schema after 4 nested_array_schema "root" = Ret (JArr []).
Proof.
  eexists; eexists; eexists.
  split; [vm_compute; reflexivity|].
  split; [vm_compute; reflexivity|].
  split; [vm_compute; reflexivity|].
  split; [vm_compute; reflexivity|].
  split; [vm_compute; reflexivity|].
  split; [vm_compute; tauto|].
  split; [vm_compute; tauto|].
  split; vm_compute; reflexivity.
Qed.

(** ** Reference cycles *)

Definition self_cycle : json :=
  JObj [("$defs", JObj [("A", JObj [("$ref", JStr "#/$defs/A")])])].

Definition two_cycle : json :=
  JObj [("$defs", JObj [("A", JObj [("$ref", JStr "#/$defs/B")]);
                        ("B", JObj [("$ref", JStr "#/$defs/A")])])].

(** C4. [resolveSchema] is total (two levels of recursion are all it ever
    uses), but it does not report a reference cycle: it deletes the [$ref]
    of the resolved target before it resolves again, so the check of
    [seen] never meets a reference twice.  A cycle of length 1, a cycle of
    length 2 and a root that refers to itself all resolve to [{}]. *)
Theorem reference_cycle_not_reported (H : Host) :
  (forall st schema, resolveSchema st schema <> OutOfFuel)
  /\ (forall st schema seen fuel,
         resolveSchema_fuel st (2 + fuel) schema seen = resolveSchema_fuel st 2 schema seen)
  /\ resolveSchema self_cycle (JObj [("$ref", JStr "#/$defs/A")]) = Ret (JObj [])
  /\ resolveSchema two_cycle (JObj [("$ref", JStr "#/$defs/A")]) = Ret (JObj [])
  /\ resolveSchema (JObj [("$ref", JStr "#")]) (JObj [("$ref", JStr "#")]) = Ret (JObj []).
Proof.
  split; [apply resolveSchema_total|].
  split; [apply resolveSchema_fuel_two|].
  repeat split; vm_compute; reflexivity.
Qed.

(** ** Meaningful values *)

Definition string_leaf : json := JObj [("type", JStr "string")].

Definition object_of (properties : list (string * json)) : json :=
  JObj [("type", JStr "object"); ("properties", JObj properties)].

Definition strings_object (names : list string) : json :=
  object_of (map (fun c => (c, string_leaf)) names).

(** The schema of the spec's example: a string [a] and an object [b] with
    one string [c]. *)
Definition a_b_schema : json :=
  object_of [("a", string_leaf); ("b", strings_object ["c"])].

(** The store holds the empty string or nothing under [path]. *)
Definition blank (form : node) (path : string) : Prop :=
  exists control,
    query_data "schemaPath" path form = Ret control
    /\ match control with
       | None => True
       | Some c => value_of c = JStr "" \/ value_of c = JUndefined
       end.

(** A collected value that an object does not keep. *)
Definition dropped (value : json) : Prop :=
  negb (is_undefined value) && isMeaningful value = false.

Lemma foldM_unchanged {A B : Type} (f : B -> A -> outcome B) (l : list A) (s : B) :
  (forall x, In x l -> f s x = Ret s) -> foldM f l s = Ret s.
Proof.
  induction l as [| x l IH]; simpl; intros Hf; [reflexivity|].
  rewrite (Hf x (or_introl eq_refl)). simpl. apply IH. auto.
Qed.

Lemma collect_string_leaf (H : Host) st form rec path :
  blank form path ->
  exists value, collectData_body st form rec string_leaf path = Ret value /\ dropped value.
Proof.
  intros (control & Q & V).
  unfold collectData_body, string_leaf, resolveSchema. simpl.
  rewrite Q. simpl.
  destruct control as [c |]; [| exists JUndefined; split; reflexivity].
  destruct V as [-> | ->]; simpl.
  - exists (JStr ""). split; reflexivity.
  - exists JUndefined. split; reflexivity.
Qed.

Lemma collect_object_of_dropped (H : Host) st form rec properties path :
  (forall key child, In (key, child) properties ->
                     exists value, rec child (child_path path key) = Ret value /\ dropped value) ->
  collectData_body st form rec (object_of properties) path
  = Ret (if String.eqb path "root" then JObj [] else JUndefined).
Proof.
  intros Hp.
  unfold collectData_body, object_of, resolveSchema. simpl.
  rewrite foldM_unchanged with (s := ([], false)).
  - simpl. destruct (String.eqb path "root"); reflexivity.
  - intros [key child] Hin.
    destruct (Hp key child Hin) as (value & -> & D). simpl.
    unfold dropped in D. rewrite D. reflexivity.
Qed.

(** C1 (amended). For an object schema whose properties are strings and
    objects of strings, with the empty string or nothing stored for every
    string, [collectData] at the root returns the empty object: a member
    whose collected value is the empty string is left out like the object
    with no meaningful member is.  The empty string is a value only for a
    string collected on its own, as at the root. *)
Theorem empty_strings_are_pruned (H : Host) (st : json) (form : node)
        (properties : list (string * json))
  (Hshape : forall key child, In (key, child) properties ->
              child = string_leaf \/ exists names, child = strings_object names)
  (Hstrings : forall key, In (key, string_leaf) properties -> blank form key)
  (Hnested : forall key names c, In (key, strings_object names) properties -> In c names ->
               blank form (child_path key c)) :
  (forall fuel, collectData st form (3 + fuel) (object_of properties) "root" = Ret (JObj []))
  /\ (forall control,
         query_data "schemaPath" "root" form = Ret (Some control) ->
         value_of control = JStr "" ->
         forall fuel, collectData st form (1 + fuel) string_leaf "root" = Ret (JStr "")).
Proof.
  split.
  - intro fuel.
    change (collectData_body st form (collectData st form (2 + fuel))
                             (object_of properties) "root" = Ret (JObj [])).
    rewrite collect_object_of_dropped; [reflexivity|].
    intros key child Hin.
    destruct (Hshape key child Hin) as [-> | (names & ->)].
    + change (collectData st form (2 + fuel) string_leaf (child_path "root" key))
        with (collectData_body st form (collectData st form (1 + fuel)) string_leaf
                               (child_path "root" key)).
      apply collect_string_leaf. simpl. auto.
    + change (collectData st form (2 + fuel) (strings_object names) (child_path "root" key))
        with (collectData_body st form (collectData st form (1 + fuel))
                               (strings_object names) (child_path "root" key)).
      unfold strings_object at 1.
      rewrite collect_object_of_dropped.
      * destruct (String.eqb (child_path "root" key) "root");
          [exists (JObj []) | exists JUndefined]; split; reflexivity.
      * intros c child Hc.
        apply in_map_iff in Hc as (c' & E & Hc'). injection E as <- <-.
        change (collectData st form (1 + fuel) string_leaf (child_path (child_path "root" key) c'))
          with (collectData_body st form (collectData st form fuel) string_leaf
                                 (child_path (child_path "root" key) c')).
        apply collect_string_leaf. simpl. eauto.
  - intros control Q V fuel.
    change (collectData_body st form (collectData st form fuel) string_leaf "root"
            = Ret (JStr "")).
    unfold collectData_body, string_leaf, resolveSchema. cbn -[query_data].
    rewrite Q. simpl. rewrite V. reflexivity.
Qed.

(** The form rendered for [a_b_schema], as it is: every input empty. *)
Definition a_b_form : node :=
  Eval vm_compute in
    match renderSchemaForm (H := example_host) a_b_schema 5 a_b_schema with
    | Ret form => form
    | _ => element "div" [] []
    end.

Lemma a_b_form_rendered (H : Host) : renderSchemaForm a_b_schema 5 a_b_schema = Ret a_b_form.
Proof. vm_compute. reflexivity. Qed.

Lemma a_b_form_blank path : In path ["a"; "b.c"] -> blank a_b_form path.
Proof.
  intros [<- | [<- | []]];
    (eexists; split; [vm_compute; reflexivity | left; reflexivity]).
Qed.

Lemma empty_strings_are_pruned_witness :
  blank a_b_form "a" /\ blank a_b_form (child_path "b" "c")
  /\ collectData (H := example_host) a_b_schema a_b_form 3 a_b_schema "root" = Ret (JObj []).
Proof.
  split; [apply a_b_form_blank; simpl; tauto|].
  split; [apply a_b_form_blank; simpl; tauto|].
  refine (proj1 (@empty_strings_are_pruned example_host a_b_schema a_b_form
                   [("a", string_leaf); ("b", strings_object ["c"])] _ _ _) 0%nat).
  - intros key child [E | [E | []]]; injection E as <- <-;
      [left; reflexivity | right; exists ["c"]; reflexivity].
  - intros key [E | [E | []]];
      [injection E as <-; apply a_b_form_blank; simpl; tauto | discriminate E].
  - intros key names c [E | [E | []]] Hc; [discriminate E|].
    destruct names as [| n1 [| n2 names]]; simpl in E; try discriminate E.
    injection E as <- <-. destruct Hc as [<- | []]. apply a_b_form_blank; simpl; tauto.
Defined.

(** C1 as stated fails: with the empty string stored for [a] the collected
    document is not [{"a": ""}]. *)
Lemma empty_string_member_counterexample :
  exists control,
    query_data "schemaPath" "a" a_b_form = Ret (Some control)
    /\ value_of control = JStr ""
    /\ collectData (H := example_host) a_b_schema a_b_form 3 a_b_schema "root"
       <> Ret (JObj [("a", JStr "")]).
Proof.
  eexists.
  split; [vm_compute; reflexivity|].
  split; [reflexivity|].
  vm_compute. discriminate.
Qed.

(** ** Declared and pattern properties with the same name *)

Lemma foldM_invariant {A B : Type} (P : B -> Prop) (f : B -> A -> outcome B) (l : list A) :
  (forall s x s', P s -> f s x = Ret s' -> P s') ->
  forall s s', P s -> foldM f l s = Ret s' -> P s'.
Proof.
  intros Hf. induction l as [| x l IH]; simpl; intros s s' Hs E.
  - injection E as <-. exact Hs.
  - apply bind_Ret in E as (s1 & E1 & E2). eauto.
Qed.

Lemma assign_Ret k v m m' : assign k v m = Ret m' -> m' = define k v m.
Proof.
  unfold assign. destruct (String.eqb k "__proto__" && negb (has_own k m)); [discriminate|].
  intros E; injection E as <-. reflexivity.
Qed.

Lemma collectPatternPropertiesData_NoDup (H : Host) form rec schema path pd :
  collectPatternPropertiesData form rec schema path = Ret pd -> NoDup (map fst pd).
Proof.
  unfold collectPatternPropertiesData. intros E.
  apply bind_Ret in E as ([container |] & _ & E); [| injection E as <-; constructor].
  eapply (foldM_invariant (fun r => NoDup (map fst r))); [| | exact E]; [| constructor].
  clear E. intros result [index entry] result' Hr E.
  destruct (descendants_with_data "patternPropertyName" entry) as [| nameInput ?];
    [injection E as <-; exact Hr|].
  destruct (value_of nameInput); try discriminate.
  apply bind_Ret in E as (propertyName & _ & E).
  destruct (String.eqb propertyName ""); [injection E as <-; exact Hr|].
  apply bind_Ret in E as (patterns & _ & E).
  destruct (find _ patterns) as [[matchingPattern patternSchema] |];
    [| injection E as <-; exact Hr].
  destruct (String.eqb matchingPattern ""); [injection E as <-; exact Hr|].
  apply bind_Ret in E as (value & _ & E).
  destruct (negb (is_undefined value) && isMeaningful value);
    [| injection E as <-; exact Hr].
  apply assign_Ret in E as ->. now apply NoDup_define.
Qed.

(** [Object.assign(result, patternData)]: every member of [patternData]
    ends up in the result, whatever the result held under its name. *)
Lemma object_assign_wins pd : forall result result' k v,
  NoDup (map fst pd) ->
  foldM (fun r kv => assign (fst kv) (snd kv) r) pd result = Ret result' ->
  assoc k pd = Some v -> assoc k result' = Some v.
Proof.
  induction pd as [| [k0 v0] pd IH]; simpl; intros result result' k v Hn E A;
    [discriminate|].
  inversion Hn as [| ? ? Hk Hn']; subst.
  apply bind_Ret in E as (r1 & E1 & E2). apply assign_Ret in E1 as ->.
  destruct (String.eqb_spec k k0) as [-> | N].
  - injection A as <-.
    assert (G : assoc k0 result' = assoc k0 (define k0 v0 result)).
    { revert E2 Hk. clear. revert result'. generalize (define k0 v0 result) as r.
      induction pd as [| [k1 v1] pd IH]; simpl; intros r result' E Hk.
      - injection E as <-. reflexivity.
      - apply bind_Ret in E as (r1 & E1 & E2). apply assign_Ret in E1 as ->.
        rewrite (IH _ _ E2); [| tauto].
        apply assoc_define_other. intros ->. tauto. }
    rewrite G. apply assoc_define_same.
  - eapply IH; eauto.
Qed.

Definition object_with_patterns (properties patterns : list (string * json)) : json :=
  JObj [("type", JStr "object"); ("properties", JObj properties);
        ("patternProperties", JObj patterns)].

(** C9 (amended). For an object node with declared properties and
    patternProperties, every entry that [collectPatternPropertiesData]
    yields is in the collected object under its name with the
    pattern-derived value, also when the name is that of a declared
    property: the pattern-derived value replaces the declared one. *)
Theorem pattern_entry_replaces_declared (H : Host) (st : json) (form : node) (fuel : nat)
        (properties patterns : list (string * json)) (pattern : string * json)
        (path : string) (patternData : list (string * json)) (result : json)
  (Hpatterns : collectPatternPropertiesData form (collectData st form fuel)
                 (object_with_patterns properties (pattern :: patterns)) path
               = Ret patternData)
  (Hcollect : collectData st form (S fuel)
                (object_with_patterns properties (pattern :: patterns)) path
              = Ret result) :
  forall name value, assoc name patternData = Some value -> prop result name = value.
Proof.
  intros name value A.
  pose proof (@collectPatternPropertiesData_NoDup _ _ _ _ _ _ Hpatterns) as Hn.
  change (collectData_body st form (collectData st form fuel)
            (object_with_patterns properties (pattern :: patterns)) path = Ret result)
    in Hcollect.
  unfold collectData_body in Hcollect.
  unfold object_with_patterns at 1 2 3 4 5 6 7 8 in Hcollect.
  unfold resolveSchema in Hcollect.
  cbn -[collectPatternPropertiesData collectData foldM object_with_patterns] in Hcollect.
  apply bind_Ret in Hcollect as ([declared flag] & _ & Hcollect).
  change (JObj [("type", JStr "object"); ("properties", JObj properties);
                ("patternProperties", JObj (pattern :: patterns))])
    with (object_with_patterns properties (pattern :: patterns)) in Hcollect.
  rewrite Hpatterns in Hcollect. cbn [bind] in Hcollect.
  destruct patternData as [| entry patternData]; [discriminate A|].
  apply bind_Ret in Hcollect as ([merged flag'] & Hm & Hcollect).
  apply bind_Ret in Hm as (merged' & Hm & E). injection E as <- <-.
  assert (G : assoc name merged' = Some value)
    by (eapply object_assign_wins; eauto).
  destruct (String.eqb path "root"); injection Hcollect as <-;
    unfold prop; rewrite G; reflexivity.
Qed.

(** A declared string [name] and the pattern [^n]. *)
Definition named_schema : json :=
  object_with_patterns [("name", string_leaf)] [("^n", string_leaf)].

(** The form for [named_schema] after: [declared] typed into the declared
    property, a click on Add Property, [name] typed as the name of the new
    entry and [dynamic] as its value. *)
Definition named_form : node :=
  Eval vm_compute in
    match (form <- renderSchemaForm (H := example_host) named_schema 5 named_schema ;;
           form <- input [0; 1; 1; 0]%nat "declared" form ;;
           form <- click named_schema 5 [0; 2; 2]%nat form ;;
           form <- input [0; 2; 1; 0; 0; 1; 0]%nat "name" form ;;
           input [0; 2; 1; 0; 1; 0; 0]%nat "dynamic" form) with
    | Ret form => form
    | _ => element "div" [] []
    end.

Lemma pattern_entry_replaces_declared_witness :
  collectPatternPropertiesData (H := example_host) named_form
    (collectData named_schema named_form 1) named_schema "root"
  = Ret [("name", JStr "dynamic")]
  /\ collectData (H := example_host) named_schema named_form 2 named_schema "root"
     = Ret (JObj [("name", JStr "dynamic")])
  /\ prop (JObj [("name", JStr "dynamic")]) "name" = JStr "dynamic".
Proof.
  assert (P : collectPatternPropertiesData (H := example_host) named_form
                (collectData named_schema named_form 1) named_schema "root"
              = Ret [("name", JStr "dynamic")]) by (vm_compute; reflexivity).
  assert (C : collectData (H := example_host) named_schema named_form 2 named_schema "root"
              = Ret (JObj [("name", JStr "dynamic")])) by (vm_compute; reflexivity).
  split; [exact P | split; [exact C |]].
  exact (@pattern_entry_replaces_declared example_host named_schema named_form 1%nat
           [("name", string_leaf)] [] ("^n", string_leaf) "root"
           [("name", JStr "dynamic")] (JObj [("name", JStr "dynamic")]) P C
           "name" (JStr "dynamic") eq_refl).
Defined.

(** C9 as stated fails: the declared property [name] collects [declared],
    the entry named [name] collects [dynamic], and the document holds
    [dynamic]. *)
Lemma declared_property_counterexample :
  collectData (H := example_host) named_schema named_form 1 string_leaf "name"
  = Ret (JStr "declared")
  /\ collectPatternPropertiesData (H := example_host) named_form
       (collectData named_schema named_form 1) named_schema "root"
     = Ret [("name", JStr "dynamic")]
  /\ exists document,
      collectData (H := example_host) named_schema named_form 2 named_schema "root"
      = Ret document
      /\ prop document "name" <> JStr "declared".
Proof.
  split; [vm_compute; reflexivity|].
  split; [vm_compute; reflexivity|].
  eexists. split; [vm_compute; reflexivity|].
  vm_compute. discriminate.
Qed.

(** ** Failed fetches are cached *)

Lemma prefix_append p s t : String.prefix p s = true -> String.prefix p (s ++ t) = true.
Proof.
  revert s. induction p as [| c p IH]; intros s.
  - intros _. destruct (s ++ t); reflexivity.
  - destruct s as [| d s]; simpl; [discriminate|].
    destruct (Ascii.ascii_dec c d); [apply IH | discriminate].
Qed.

Lemma includes_char_append c s t :
  includes_char c (s ++ t) = includes_char c s || includes_char c t.
Proof.
  unfold includes_char. induction s as [| d s IH]; simpl; [reflexivity|].
  rewrite IH. now rewrite orb_assoc.
Qed.

Lemma split_on_nonempty c s : exists h t, split_on c s = h :: t.
Proof.
  induction s as [| d s (h & t & IH)]; simpl; [eauto|].
  destruct (Ascii.eqb d c); [eauto|]. rewrite IH. eauto.
Qed.

Lemma split_on_first c s t :
  includes_char c s = false ->
  split_on c (s ++ String c t) = s :: split_on c t.
Proof.
  unfold includes_char. induction s as [| d s IH]; simpl; intros E.
  - now rewrite Ascii.eqb_refl.
  - apply orb_false_iff in E as [E1 E2].
    rewrite Ascii.eqb_sym in E1. rewrite E1, (IH E2). reflexivity.
Qed.

Lemma split_on_absent c s : includes_char c s = false -> split_on c s = [s].
Proof.
  unfold includes_char. induction s as [| d s IH]; simpl; intros E; [reflexivity|].
  apply orb_false_iff in E as [E1 E2].
  rewrite Ascii.eqb_sym in E1. rewrite E1, (IH E2). reflexivity.
Qed.

Definition is_http (url : string) : bool :=
  starts_with "http://" url || starts_with "https://" url.

Lemma is_http_append url t : is_http url = true -> is_http (url ++ t) = true.
Proof.
  unfold is_http, starts_with. intros E.
  apply orb_true_iff in E as [E | E]; rewrite (prefix_append _ _ _ E);
    [reflexivity | apply orb_true_r].
Qed.

Lemma is_http_nonempty url : is_http url = true -> String.eqb url "" = false.
Proof. destruct url; [discriminate | reflexivity]. Qed.

(** The fetch did not produce a document. *)
Definition fetch_failed (r : response) : bool :=
  match r with
  | Status true (Some _) => false
  | _ => true
  end.

(** An external reference: the base URL alone, or followed by a fragment. *)
Definition reference_to (base : string) (fragment : option string) : string :=
  match fragment with
  | Some f => base ++ String "#" f
  | None => base
  end.

Lemma reference_to_http base fragment :
  is_http base = true -> is_http (reference_to base fragment) = true.
Proof. destruct fragment; simpl; [apply is_http_append | trivial]. Qed.

Lemma cache_get_set_same url v c : cache_get url (cache_set url v c) = Some v.
Proof.
  induction c as [| [u v'] c IH]; simpl.
  - now rewrite String.eqb_refl.
  - destruct (String.eqb url u) eqn:E; simpl; rewrite E; auto.
Qed.

Lemma cache_get_set_other url url' v c :
  url' <> url -> cache_get url' (cache_set url v c) = cache_get url' c.
Proof.
  intros N. induction c as [| [u v'] c IH]; simpl.
  - destruct (String.eqb_spec url' url); [contradiction | reflexivity].
  - destruct (String.eqb_spec url u) as [-> | N']; simpl.
    + destruct (String.eqb_spec url' u); [contradiction | reflexivity].
    + now rewrite IH.
Qed.

Section FailedFetch.
Context {H : Host}.
Variable fetch : list string -> string -> response.
Variable base : string.
Hypothesis Hhttp : is_http base = true.
Hypothesis Hbase : includes_char "#" base = false.

(** What [resolveExternalRef] splits a reference to [base] into. *)
Lemma reference_split fragment :
  (if includes_char "#" (reference_to base fragment)
   then match split_on "#" (reference_to base fragment) with
        | b :: f :: _ => (b, Some f)
        | [b] => (b, None)
        | [] => (reference_to base fragment, None)
        end
   else (reference_to base fragment, None))
  = (base, match fragment with
           | Some f => Some (hd "" (split_on "#" f))
           | None => None
           end).
Proof.
  destruct fragment as [f |]; simpl.
  - rewrite includes_char_append, Hbase. simpl.
    rewrite split_on_first by exact Hbase.
    destruct (split_on_nonempty "#" f) as (h & t & ->). reflexivity.
  - now rewrite Hbase.
Qed.

(** A first reference to [base] whose fetch fails: one request, the
    sentinel cached, [null] returned. *)
Lemma resolveExternalRef_failure fragment w :
  cache_get base (externalSchemaCache w) = None ->
  fetch_failed (fetch (requests w) base) = true ->
  resolveExternalRef fetch (JStr (reference_to base fragment)) w
  = Ret (JNull, {| externalSchemaCache := cache_set base JNull (externalSchemaCache w);
                   requests := (requests w ++ [base])%list |}).
Proof.
  intros Hc Hf. unfold resolveExternalRef.
  pose proof (reference_to_http base fragment Hhttp) as Hr.
  cbn [truthy]. rewrite (is_http_nonempty _ Hr). cbn [negb].
  unfold is_http in Hr. apply orb_true_iff in Hr.
  replace (negb (starts_with "http://" (reference_to base fragment))
           && negb (starts_with "https://" (reference_to base fragment))) with false
    by (destruct Hr as [-> | ->]; [reflexivity | now rewrite andb_false_r]).
  rewrite reference_split, Hc.
  destruct (fetch (requests w) base) as [| [|] [doc |]]; try reflexivity; discriminate.
Qed.

(** A reference to [base] once the sentinel is cached: no request, the
    world as it was, [null] returned. *)
Lemma resolveExternalRef_cached_failure fragment w :
  cache_get base (externalSchemaCache w) = Some JNull ->
  resolveExternalRef fetch (JStr (reference_to base fragment)) w = Ret (JNull, w).
Proof.
  intros Hc. unfold resolveExternalRef.
  pose proof (reference_to_http base fragment Hhttp) as Hr.
  cbn [truthy]. rewrite (is_http_nonempty _ Hr). cbn [negb].
  unfold is_http in Hr. apply orb_true_iff in Hr.
  replace (negb (starts_with "http://" (reference_to base fragment))
           && negb (starts_with "https://" (reference_to base fragment))) with false
    by (destruct Hr as [-> | ->]; [reflexivity | now rewrite andb_false_r]).
  rewrite reference_split, Hc. reflexivity.
Qed.

(** [preResolveExternalRefs] on a node whose [$ref] is [ref], given what
    [resolveExternalRef] returns for it. *)
Lemma preResolve_unresolved fuel members fragment w w' :
  assoc "$ref" members = Some (JStr (reference_to base fragment)) ->
  resolveExternalRef fetch (JStr (reference_to base fragment)) w = Ret (JNull, w') ->
  preResolveExternalRefs fetch (S fuel) (JObj members) w
  = Ret (JObj [("__unresolvedRef", JStr (reference_to base fragment))], w').
Proof.
  intros Hm Hr.
  change (preResolve_body fetch (preResolveExternalRefs fetch fuel) (JObj members) w
          = Ret (JObj [("__unresolvedRef", JStr (reference_to base fragment))], w')).
  unfold preResolve_body, prop. rewrite Hm.
  cbn [truthy typeof_object negb orb].
  pose proof (reference_to_http base fragment Hhttp) as Hh.
  rewrite (is_http_nonempty _ Hh). cbn [negb andb].
  unfold is_http in Hh. rewrite Hh, Hr. reflexivity.
Qed.
End FailedFetch.

(** The sentinel (or document) cached for [url] is still there in [w'],
    and [url] was not requested between [w] and [w']. *)
Definition settled (url : string) (x : json) (w w' : world) : Prop :=
  cache_get url (externalSchemaCache w') = Some x
  /\ count_occ string_dec (requests w') url = count_occ string_dec (requests w) url.

Lemma settled_refl url x w :
  cache_get url (externalSchemaCache w) = Some x -> settled url x w w.
Proof. intros E. split; [exact E | reflexivity]. Qed.

Lemma settled_trans url x w1 w2 w3 :
  settled url x w1 w2 -> settled url x w2 w3 -> settled url x w1 w3.
Proof. intros [A1 A2] [B1 B2]. split; [exact B1 | congruence]. Qed.

Section Settled.
Context {H : Host}.
Variable fetch : list string -> string -> response.
Variable url : string.
Variable x : json.

Lemma resolveExternalRef_settled ref w v w' :
  cache_get url (externalSchemaCache w) = Some x ->
  resolveExternalRef fetch ref w = Ret (v, w') ->
  settled url x w w'.
Proof.
  intros Hc. unfold resolveExternalRef.
  destruct ref as [| | | | r | |];
    try (intros E; injection E as <- <-; now apply settled_refl).
  destruct (negb (truthy (JStr r)));
    [intros E; injection E as <- <-; now apply settled_refl|].
  destruct (negb (starts_with "http://" r) && negb (starts_with "https://" r));
    [intros E; injection E as <- <-; now apply settled_refl|].
  destruct (if includes_char "#" r then _ else _) as [baseUrl fragment].
  destruct (cache_get baseUrl (externalSchemaCache w)) as [baseSchema |] eqn:Eb.
  - destruct baseSchema;
      try (intros E; apply bind_Ret in E as (? & _ & E); injection E as <- <-;
           now apply settled_refl).
    intros E; injection E as <- <-; now apply settled_refl.
  - assert (N : url <> baseUrl) by (intros ->; congruence).
    assert (S : forall c,
               settled url x w {| externalSchemaCache := cache_set baseUrl c (externalSchemaCache w);
                                  requests := (requests w ++ [baseUrl])%list |}).
    { intros c. split; simpl.
      - rewrite cache_get_set_other; assumption.
      - rewrite count_occ_app. simpl.
        destruct (string_dec baseUrl url); [congruence | lia]. }
    destruct (fetch (requests w) baseUrl) as [| [|] [doc |]];
      try (intros E; injection E as <- <-; apply S).
    intros E; apply bind_Ret in E as (? & _ & E); injection E as <- <-; apply S.
Qed.

Lemma pre_each_settled rec :
  (forall schema w v w', cache_get url (externalSchemaCache w) = Some x ->
                         rec schema w = Ret (v, w') -> settled url x w w') ->
  forall l w l' w', cache_get url (externalSchemaCache w) = Some x ->
                    pre_each rec l w = Ret (l', w') -> settled url x w w'.
Proof.
  intros Hrec. induction l as [| s l IH]; simpl; intros w l' w' Hc E.
  - injection E as <- <-. now apply settled_refl.
  - apply bind_Ret in E as ([y w1] & E1 & E).
    apply bind_Ret in E as ([ys w2] & E2 & E). injection E as <- <-.
    pose proof (Hrec _ _ _ _ Hc E1) as S1.
    eapply settled_trans; [exact S1|]. eapply IH; [apply S1 | exact E2].
Qed.

Lemma pre_members_settled rec :
  (forall schema w v w', cache_get url (externalSchemaCache w) = Some x ->
                         rec schema w = Ret (v, w') -> settled url x w w') ->
  forall entries result w result' w',
    cache_get url (externalSchemaCache w) = Some x ->
    pre_members rec entries result w = Ret (result', w') -> settled url x w w'.
Proof.
  intros Hrec. induction entries as [| [key value] entries IH]; simpl;
    intros result w result' w' Hc E.
  - injection E as <- <-. now apply settled_refl.
  - destruct (typeof_object value && negb (json_eqb value JNull)); [| eauto].
    apply bind_Ret in E as ([v w1] & E1 & E).
    pose proof (Hrec _ _ _ _ Hc E1) as S1.
    eapply settled_trans; [exact S1|]. eapply IH; [apply S1 | exact E].
Qed.

(** Whatever is pre-resolved later, an entry of the cache stays and its
    URL is not requested again. *)
Lemma preResolveExternalRefs_settled fuel :
  forall schema w v w',
    cache_get url (externalSchemaCache w) = Some x ->
    preResolveExternalRefs fetch fuel schema w = Ret (v, w') ->
    settled url x w w'.
Proof.
  induction fuel as [| fuel IH]; intros schema w v w' Hc E; [discriminate|].
  change (preResolve_body fetch (preResolveExternalRefs fetch fuel) schema w = Ret (v, w'))
    in E.
  unfold preResolve_body in E.
  destruct (negb (truthy schema) || negb (typeof_object schema));
    [injection E as <- <-; now apply settled_refl|].
  assert (R : forall r, (let ref := prop schema "$ref" in
                 let external := match ref with
                                 | JStr r => truthy ref && (starts_with "http://" r
                                                            || starts_with "https://" r)
                                 | _ => false
                                 end in
                 if external then
                   '(externalSchema, w) <- resolveExternalRef fetch ref w ;;
                   if truthy externalSchema then
                     rest <- spread_onto [] (JObj (delete "$ref" (members_of schema))) ;;
                     m1 <- spread_onto [] externalSchema ;;
                     m2 <- spread_onto m1 (JObj rest) ;;
                     preResolveExternalRefs fetch fuel (JObj m2) w
                   else Ret (JObj [("__unresolvedRef", ref)], w)
                 else
                   result <- spread_onto [] schema ;;
                   '(result, w) <- pre_members (preResolveExternalRefs fetch fuel)
                                               result result w ;;
                   Ret (JObj result, w)) = Ret r -> settled url x w (snd r)).
  { intros r. cbv zeta.
    destruct (match prop schema "$ref" with JStr _ => _ | _ => false end).
    - intros E'. apply bind_Ret in E' as ([e w1] & E1 & E').
      pose proof (resolveExternalRef_settled _ _ _ _ Hc E1) as S1.
      destruct (truthy e).
      + apply bind_Ret in E' as (rest & _ & E').
        apply bind_Ret in E' as (m1 & _ & E').
        apply bind_Ret in E' as (m2 & _ & E').
        destruct r as [rv rw]. eapply settled_trans; [exact S1|].
        eapply IH; [apply S1 | exact E'].
      + injection E' as <-. exact S1.
    - intros E'. apply bind_Ret in E' as (result & _ & E').
      apply bind_Ret in E' as ([result' w1] & E1 & E'). injection E' as <-.
      eapply pre_members_settled; [exact IH | exact Hc | exact E1]. }
  destruct schema; try (apply (R _ E)).
  apply bind_Ret in E as ([l' w1] & E1 & E). injection E as <- <-.
  eapply pre_each_settled; [exact IH | exact Hc | exact E1].
Qed.
End Settled.

(** C6. When the fetch of an external reference fails (network error,
    status that is not ok, body that does not parse), pre-resolution caches
    [null] under the base URL, without the fragment, and requests the URL
    once; from then on any pre-resolution keeps that entry and does not
    request the URL again, and every reference to the same base URL becomes
    the UnresolvedRef marker without a request, a marker that
    [resolveSchema] returns as it is. *)
Theorem failed_fetch_is_cached (H : Host) (fetch : list string -> string -> response)
        (base : string) (w : world)
  (Hhttp : is_http base = true)
  (Hbase : includes_char "#" base = false)
  (Hmiss : cache_get base (externalSchemaCache w) = None)
  (Hfail : fetch_failed (fetch (requests w) base) = true) :
  let marker ref := JObj [("__unresolvedRef", JStr ref)] in
  let w1 := {| externalSchemaCache := cache_set base JNull (externalSchemaCache w);
               requests := (requests w ++ [base])%list |} in
  (forall fragment fuel members,
      assoc "$ref" members = Some (JStr (reference_to base fragment)) ->
      preResolveExternalRefs fetch (S fuel) (JObj members) w
      = Ret (marker (reference_to base fragment), w1))
  /\ cache_get base (externalSchemaCache w1) = Some JNull
  /\ (forall fuel schema w2 v w3,
         cache_get base (externalSchemaCache w2) = Some JNull ->
         preResolveExternalRefs fetch fuel schema w2 = Ret (v, w3) ->
         settled base JNull w2 w3)
  /\ (forall fragment fuel members w2,
         cache_get base (externalSchemaCache w2) = Some JNull ->
         assoc "$ref" members = Some (JStr (reference_to base fragment)) ->
         preResolveExternalRefs fetch (S fuel) (JObj members) w2
         = Ret (marker (reference_to base fragment), w2))
  /\ (forall st ref, resolveSchema st (marker ref) = Ret (marker ref)).
Proof.
  intros marker w1.
  split.
  { intros fragment fuel members Hm.
    apply (preResolve_unresolved fetch base Hhttp); [exact Hm|].
    now apply resolveExternalRef_failure. }
  split; [apply cache_get_set_same|].
  split; [intros fuel schema w2 v w3; apply preResolveExternalRefs_settled|].
  split.
  { intros fragment fuel members w2 Hc Hm.
    apply (preResolve_unresolved fetch base Hhttp); [exact Hm|].
    now apply resolveExternalRef_cached_failure. }
  intros st ref. reflexivity.
Qed.

Definition no_network : list string -> string -> response := fun _ _ => NetworkError.

Definition empty_world : world := {| externalSchemaCache := []; requests := [] |}.

Lemma failed_fetch_is_cached_witness :
  is_http "https://x/schema.json" = true
  /\ includes_char "#" "https://x/schema.json" = false
  /\ cache_get "https://x/schema.json" (externalSchemaCache empty_world) = None
  /\ fetch_failed (no_network (requests empty_world) "https://x/schema.json") = true
  /\ preResolveExternalRefs (H := example_host) no_network 1
       (JObj [("$ref", JStr "https://x/schema.json#/$defs/Name")]) empty_world
     = Ret (JObj [("__unresolvedRef", JStr "https://x/schema.json#/$defs/Name")],
            {| externalSchemaCache := [("https://x/schema.json", JNull)];
               requests := ["https://x/schema.json"] |}).
Proof.
  repeat (split; [reflexivity|]).
  exact (proj1 (failed_fetch_is_cached example_host no_network "https://x/schema.json"
                  empty_world eq_refl eq_refl eq_refl eq_refl)
               (Some "/$defs/Name") 0%nat
               [("$ref", JStr "https://x/schema.json#/$defs/Name")] eq_refl).
Defined.

(** ** Internal references *)

(** RFC 6901, the reading the spec refers to: the escaping of a segment,
    the pointer made of segments, and the value a pointer locates. *)
Fixpoint escape_segment (s : string) : string :=
  match s with
  | EmptyString => EmptyString
  | String c r =>
      if Ascii.eqb c "~" then String "~" (String "0" (escape_segment r))
      else if Ascii.eqb c "/" then String "~" (String "1" (escape_segment r))
      else String c (escape_segment r)
  end.

Fixpoint pointer_of (segments : list string) : string :=
  match segments with
  | [] => EmptyString
  | s :: r => String "/" (escape_segment s ++ pointer_of r)
  end.

Definition child_at (doc : json) (segment : string) : option json :=
  match doc with
  | JObj m => assoc segment m
  | JArr l =>
      match array_index segment with
      | Some n => nth_error l (N.to_nat n)
      | None => None
      end
  | _ => None
  end.

Inductive located : Type :=
| Found (subtree : json)
| Missing (container : json) (segment : string).

Fixpoint locate (doc : json) (segments : list string) : located :=
  match segments with
  | [] => Found doc
  | s :: r =>
      match child_at doc s with
      | Some v => locate v r
      | None => Missing doc s
      end
  end.

Lemma replace2_skip a b r x rest :
  Ascii.eqb x a = false ->
  replace2 a b r (String x rest) = String x (replace2 a b r rest).
Proof. intros E. destruct rest; simpl; rewrite ?E; reflexivity. Qed.

Lemma replace2_hit a b r rest :
  replace2 a b r (String a (String b rest)) = r ++ replace2 a b r rest.
Proof. simpl. now rewrite !Ascii.eqb_refl. Qed.

Lemma replace2_near a b r y rest :
  Ascii.eqb y b = false ->
  replace2 a b r (String a (String y rest)) = String a (replace2 a b r (String y rest)).
Proof. intros E. simpl. rewrite E, andb_false_r. reflexivity. Qed.

(** Unescaping [~1] first leaves every [~0] in place. *)
Fixpoint tilde_escaped (s : string) : string :=
  match s with
  | EmptyString => EmptyString
  | String c r =>
      if Ascii.eqb c "~" then String "~" (String "0" (tilde_escaped r))
      else String c (tilde_escaped r)
  end.

Lemma unescape_slashes s : replace2 "~" "1" "/" (escape_segment s) = tilde_escaped s.
Proof.
  induction s as [| c s IH]; [reflexivity|]. simpl.
  destruct (Ascii.eqb c "~") eqn:E1.
  - rewrite replace2_near by reflexivity.
    rewrite replace2_skip by reflexivity. now rewrite IH.
  - destruct (Ascii.eqb c "/") eqn:E2.
    + rewrite replace2_hit. simpl. rewrite IH. apply Ascii.eqb_eq in E2. now subst.
    + rewrite replace2_skip by exact E1. now rewrite IH.
Qed.

Lemma unescape_tildes s : replace2 "~" "0" "~" (tilde_escaped s) = s.
Proof.
  induction s as [| c s IH]; [reflexivity|]. simpl.
  destruct (Ascii.eqb c "~") eqn:E1.
  - rewrite replace2_hit. simpl. rewrite IH. apply Ascii.eqb_eq in E1. now subst.
  - rewrite replace2_skip by exact E1. now rewrite IH.
Qed.

Lemma unescape_escape s : unescape_segment (escape_segment s) = s.
Proof. unfold unescape_segment. now rewrite unescape_slashes, unescape_tildes. Qed.

Lemma escape_segment_no_slash s : includes_char "/" (escape_segment s) = false.
Proof.
  unfold includes_char. induction s as [| c s IH]; [reflexivity|].
  cbn [escape_segment].
  destruct (Ascii.eqb c "~") eqn:E1; [exact IH|].
  destruct (Ascii.eqb c "/") eqn:E2; [exact IH|].
  cbn [list_ascii_of_string existsb].
  rewrite Ascii.eqb_sym, E2. exact IH.
Qed.

Lemma append_empty s : (s ++ "")%string = s.
Proof. induction s as [| c s IH]; simpl; [reflexivity | now rewrite IH]. Qed.

Lemma split_pointer r : forall s,
  split_on "/" (escape_segment s ++ pointer_of r) = map escape_segment (s :: r).
Proof.
  induction r as [| s' r IH]; intros s; simpl.
  - rewrite append_empty. apply split_on_absent, escape_segment_no_slash.
  - rewrite split_on_first by apply escape_segment_no_slash.
    rewrite IH. reflexivity.
Qed.

(** The path [resolveRef] walks for the reference [#] followed by the
    pointer of [segments]. *)
Lemma resolveRef_pointer (H : Host) st s r :
  resolveRef st (JStr (String "#" (pointer_of (s :: r))))
  = foldM pointer_step (s :: r) st.
Proof.
  unfold resolveRef. cbn [truthy pointer_of].
  change (String.eqb (String "#" (String "/" (escape_segment s ++ pointer_of r))) "")
    with false.
  cbn [negb].
  change (starts_with "#" (String "#" (String "/" (escape_segment s ++ pointer_of r))))
    with true.
  cbv iota.
  change (String.eqb (String "#" (String "/" (escape_segment s ++ pointer_of r))) "#")
    with false.
  cbv iota.
  replace (starts_with "#/" (String "#" (String "/" (escape_segment s ++ pointer_of r))))
    with true by (unfold starts_with; simpl; destruct (escape_segment s ++ pointer_of r);
                  reflexivity).
  cbn [negb slice_from].
  rewrite split_pointer, map_map.
  rewrite (map_ext _ (fun x => x) unescape_escape), map_id. reflexivity.
Qed.

Lemma pointer_walk_null (H : Host) path : foldM pointer_step path JNull = Ret JNull.
Proof. induction path as [| s path IH]; simpl; [reflexivity | exact IH]. Qed.

(** The documents [locate] walks through are objects and arrays, which
    [pointer_step] enters in the same way. *)
Lemma pointer_step_child (H : Host) doc s v :
  child_at doc s = Some v ->
  pointer_step doc s = Ret (if is_undefined v then JNull else v).
Proof.
  unfold child_at, pointer_step, member.
  destruct doc as [| | | | | l | m]; try discriminate; cbn [truthy].
  - destruct (array_index s) as [n |]; [| discriminate]. intros ->. reflexivity.
  - intros ->. reflexivity.
Qed.

Lemma pointer_walk_found (H : Host) segments : forall doc t,
  locate doc segments = Found t ->
  is_undefined t = false ->
  foldM pointer_step segments doc = Ret t.
Proof.
  induction segments as [| s r IH]; simpl; intros doc t L U.
  - injection L as <-. reflexivity.
  - destruct (child_at doc s) as [v |] eqn:C; [| discriminate].
    rewrite (pointer_step_child _ _ _ _ C). cbn [bind].
    destruct (is_undefined v) eqn:Uv.
    + destruct v; try discriminate.
      destruct r; simpl in L; [injection L as <-; discriminate | discriminate].
    + now apply IH.
Qed.

(** A segment is plainly missing from [container]: nothing that only the
    host knows of can stand in for it. *)
Definition plainly_missing {H : Host} (container : json) (segment : string) : Prop :=
  inherits container segment = false
  /\ match container with
     | JStr s => s = ""
     | JArr _ => segment <> "length"
     | _ => True
     end.

Lemma pointer_step_missing (H : Host) doc s :
  child_at doc s = None -> plainly_missing doc s -> pointer_step doc s = Ret JNull.
Proof.
  unfold child_at, pointer_step, plainly_missing. intros C [I P].
  destruct (truthy doc) eqn:T; [| reflexivity].
  unfold member. cbv zeta. rewrite I.
  destruct doc as [| | b | n | str | l | m]; try discriminate T; try reflexivity.
  - subst str. discriminate T.
  - destruct (array_index s) as [n |].
    + rewrite C. reflexivity.
    + destruct (String.eqb_spec s "length"); [contradiction | reflexivity].
  - rewrite C. reflexivity.
Qed.

Lemma pointer_walk_missing (H : Host) segments : forall doc c s,
  locate doc segments = Missing c s ->
  plainly_missing c s ->
  foldM pointer_step segments doc = Ret JNull.
Proof.
  induction segments as [| s0 r IH]; simpl; intros doc c s L P; [discriminate|].
  destruct (child_at doc s0) as [v |] eqn:C.
  - rewrite (pointer_step_child _ _ _ _ C). cbn [bind].
    destruct (is_undefined v) eqn:Uv; [| eapply IH; eauto].
    destruct v; try discriminate. apply pointer_walk_null.
  - injection L as <- <-.
    rewrite (pointer_step_missing _ _ _ C P). cbn [bind]. apply pointer_walk_null.
Qed.

Lemma assoc_fold_define es : forall m k,
  NoDup (map fst es) ->
  assoc k (fold_left (fun acc kv => define (fst kv) (snd kv) acc) es m)
  = match assoc k es with Some v => Some v | None => assoc k m end.
Proof.
  induction es as [| [k0 v0] es IH]; simpl; intros m k Hn; [reflexivity|].
  inversion Hn as [| ? ? Hk Hn']; subst.
  rewrite IH by assumption.
  destruct (String.eqb_spec k k0) as [-> | N].
  - apply assoc_None_notin in Hk. rewrite Hk. apply assoc_define_same.
  - destruct (assoc k es); [reflexivity|]. now apply assoc_define_other.
Qed.

Lemma NoDup_delete k m : NoDup (map fst m) -> NoDup (map fst (delete k m)).
Proof.
  induction m as [| [k' v] m IH]; simpl; intros Hn; [constructor|].
  inversion Hn as [| ? ? Hk Hn']; subst.
  destruct (String.eqb k k'); [assumption|]. simpl. constructor; [| auto].
  intros X. apply Hk. clear -X.
  induction m as [| [k1 v1] m IH]; simpl in *; [contradiction|].
  destruct (String.eqb k k1); [tauto|]. simpl in X. tauto.
Qed.

Lemma resolveRef_located (H : Host) st segments :
  match locate st segments with
  | Found subtree =>
      is_undefined subtree = false ->
      resolveRef st (JStr (String "#" (pointer_of segments))) = Ret subtree
  | Missing container segment =>
      plainly_missing container segment ->
      resolveRef st (JStr (String "#" (pointer_of segments))) = Ret JNull
  end.
Proof.
  destruct segments as [| s r]; [intros _; reflexivity|].
  rewrite resolveRef_pointer.
  destruct (locate st (s :: r)) as [t | c x] eqn:L.
  - now apply pointer_walk_found.
  - now apply pointer_walk_missing with (c := c) (s := x).
Qed.

(** A document in which one definition is an alias of another, and a
    document in which a definition is the schema [false]. *)
Definition alias_document : json :=
  JObj [("$defs", JObj [("Name", JObj [("type", JStr "string")]);
                        ("Alias", JObj [("$ref", JStr "#/$defs/Name")])])].

Definition never_document : json :=
  JObj [("$defs", JObj [("Never", JBool false)])].

(** C3.  [resolveRef] walks the pointer as the claim says: it returns
    the subtree the pointer locates, and [null] for a segment that is
    plainly missing.  But the node that carries the reference does not
    always resolve to that subtree.  A reference to a definition that is
    itself a reference resolves to the empty schema: [delete merged.$ref]
    removes the [$ref] of the target before the recursive call, so the
    alias is never followed, although the definition it names resolves to
    [{type: "string"}].  A reference to a definition that is the schema
    [false] resolves to the UnresolvedRef marker although the definition
    is in the document: [!resolved] takes every falsy target for a failed
    lookup, where [resolveSchema] itself turns [false] into the
    always-invalid marker. *)
Theorem reference_target_not_returned (H : Host) :
  (forall st segments,
      match locate st segments with
      | Found subtree =>
          is_undefined subtree = false ->
          resolveRef st (JStr (String "#" (pointer_of segments))) = Ret subtree
      | Missing container segment =>
          plainly_missing container segment ->
          resolveRef st (JStr (String "#" (pointer_of segments))) = Ret JNull
      end)
  /\ (locate alias_document ["$defs"; "Alias"]
      = Found (JObj [("$ref", JStr "#/$defs/Name")])
      /\ resolveRef alias_document (JStr "#/$defs/Alias")
         = Ret (JObj [("$ref", JStr "#/$defs/Name")])
      /\ resolveSchema alias_document (JObj [("$ref", JStr "#/$defs/Alias")])
         = Ret (JObj [])
      /\ resolveSchema alias_document (JObj [("$ref", JStr "#/$defs/Name")])
         = Ret (JObj [("type", JStr "string")]))
  /\ (locate never_document ["$defs"; "Never"] = Found (JBool false)
      /\ resolveRef never_document (JStr "#/$defs/Never") = Ret (JBool false)
      /\ resolveSchema never_document (JObj [("$ref", JStr "#/$defs/Never")])
         = Ret (JObj [("__unresolvedRef", JStr "#/$defs/Never");
                      ("description", JUndefined)])
      /\ resolveSchema never_document (JBool false)
         = Ret (JObj [("__alwaysInvalid", JBool true)])).
Proof.
  split; [exact (resolveRef_located H)|].
  repeat split; vm_compute; reflexivity.
Qed.

(** ** The allOf merge *)

(** Two runs that end the same way, with results related by [R]. *)
Inductive related {A : Type} (R : A -> A -> Prop) : outcome A -> outcome A -> Prop :=
| related_ret a b : R a b -> related R (Ret a) (Ret b)
| related_throws : related R Throws Throws
| related_host : related R HostDependent HostDependent
| related_fuel : related R OutOfFuel OutOfFuel.

Lemma related_bind {A B : Type} (R : A -> A -> Prop) (S : B -> B -> Prop) m1 m2 k1 k2 :
  related R m1 m2 ->
  (forall a b, R a b -> related S (k1 a) (k2 b)) ->
  related S (bind m1 k1) (bind m2 k2).
Proof. intros [a b Hab | | |] Hk; simpl; try constructor. now apply Hk. Qed.

Lemma related_same {A : Type} (R : A -> A -> Prop) (m : outcome A) :
  (forall a, R a a) -> related R m m.
Proof. intros HR. destruct m; constructor. apply HR. Qed.

Lemma related_foldM {A B : Type} (R : B -> B -> Prop) (f : B -> A -> outcome B) l :
  (forall s1 s2 x, R s1 s2 -> related R (f s1 x) (f s2 x)) ->
  forall s1 s2, R s1 s2 -> related R (foldM f l s1) (foldM f l s2).
Proof.
  intros Hf. induction l as [| x l IH]; simpl; intros s1 s2 Hs; [now constructor|].
  eapply related_bind; [apply Hf, Hs | exact IH].
Qed.

Lemma related_Ret {A : Type} (R : A -> A -> Prop) m1 m2 a :
  related R m1 m2 -> m1 = Ret a -> exists b, m2 = Ret b /\ R a b.
Proof. intros [x y Hxy | | |] E; try discriminate. injection E as <-. eauto. Qed.

Lemma foldM_app {A B : Type} (f : B -> A -> outcome B) l1 l2 s :
  foldM f (l1 ++ l2) s = (s' <- foldM f l1 s ;; foldM f l2 s').
Proof.
  revert s. induction l1 as [| x l1 IH]; simpl; intros s; [reflexivity|].
  destruct (f s x); simpl; auto.
Qed.

(** The same members, whatever their order. *)
Definition alike (m1 m2 : list (string * json)) : Prop :=
  NoDup (map fst m1) /\ NoDup (map fst m2) /\ forall k, assoc k m1 = assoc k m2.

Definition objects_alike (a b : json) : Prop :=
  exists m1 m2, a = JObj m1 /\ b = JObj m2 /\ alike m1 m2.

Lemma alike_refl m : NoDup (map fst m) -> alike m m.
Proof. intros Hn. repeat split; auto. Qed.

Lemma alike_has_own k m1 m2 : alike m1 m2 -> has_own k m1 = has_own k m2.
Proof. intros (_ & _ & E). unfold has_own. now rewrite E. Qed.

Lemma alike_define k v m1 m2 : alike m1 m2 -> alike (define k v m1) (define k v m2).
Proof.
  intros (N1 & N2 & E). repeat split; try now apply NoDup_define.
  intros k'. destruct (String.eqb_spec k' k) as [-> | N].
  - now rewrite !assoc_define_same.
  - now rewrite !assoc_define_other.
Qed.

Lemma alike_assign k v m1 m2 :
  alike m1 m2 -> related alike (assign k v m1) (assign k v m2).
Proof.
  intros Ha. unfold assign. rewrite (alike_has_own k _ _ Ha).
  destruct (String.eqb k "__proto__" && negb (has_own k m2)); constructor.
  now apply alike_define.
Qed.

Lemma alike_normalized m :
  NoDup (map fst m) ->
  alike (fold_left (fun acc kv => define (fst kv) (snd kv) acc) m []) m.
Proof.
  intros Hn. repeat split; [apply NoDup_fold_define; constructor | exact Hn |].
  intros k. rewrite assoc_fold_define by exact Hn. destruct (assoc k m); reflexivity.
Qed.

Lemma alike_sym m1 m2 : alike m1 m2 -> alike m2 m1.
Proof. intros (N1 & N2 & E). repeat split; auto. Qed.

Lemma alike_trans m1 m2 m3 : alike m1 m2 -> alike m2 m3 -> alike m1 m3.
Proof.
  intros (N1 & N2 & E) (_ & N3 & E'). repeat split; auto. intros k. now rewrite E.
Qed.

Section MergeProofs.
Context {H : Host}.
Variable st : json.

Lemma deepMerge_member_alike rec r1 r2 kv :
  alike r1 r2 -> related alike (deepMerge_member rec r1 kv) (deepMerge_member rec r2 kv).
Proof.
  intros Ha. unfold deepMerge_member. destruct kv as [key sourceValue].
  replace (prop (JObj r2) key) with (prop (JObj r1) key)
    by (unfold prop; destruct Ha as (_ & _ & E); now rewrite E).
  destruct (isObjectSchema (prop (JObj r1) key) && isObjectSchema sourceValue);
    [| now apply alike_assign].
  eapply related_bind; [apply related_same; intros a; exact (eq_refl a)|].
  intros props ? <-.
  eapply related_bind; [apply related_same; intros a; exact (eq_refl a)|].
  intros m ? <-.
  eapply related_bind; [apply related_same; intros a; exact (eq_refl a)|].
  intros m' ? <-.
  eapply related_bind; [apply related_same; intros a; exact (eq_refl a)|].
  intros m'' ? <-. now apply alike_assign.
Qed.

Lemma deepMergeProperties_alike fuel t1 t2 source :
  alike t1 t2 ->
  related objects_alike (deepMergeProperties_fuel fuel (JObj t1) source)
                        (deepMergeProperties_fuel fuel (JObj t2) source).
Proof.
  intros Ha. destruct fuel as [| fuel]; [constructor|].
  cbn [deepMergeProperties_fuel].
  destruct (negb (truthy source) || negb (typeof_object source));
    [constructor; now exists t1, t2|].
  cbn [truthy typeof_object negb orb].
  eapply related_bind with (R := alike).
  { unfold spread_onto. cbn [own_entries bind]. constructor.
    destruct Ha as (N1 & N2 & E).
    eapply alike_trans; [apply alike_normalized, N1|].
    eapply alike_trans; [| apply alike_sym, alike_normalized, N2].
    repeat split; auto. }
  intros r1 r2 Hr.
  eapply related_bind; [apply related_same; intros a; exact (eq_refl a)|].
  intros entries ? <-.
  eapply related_bind with (R := alike).
  { apply related_foldM; [| exact Hr]. intros; now apply deepMerge_member_alike. }
  intros x y Hxy. constructor. now exists x, y.
Qed.

(** Two states of [merged] with the same keywords and with [properties]
    objects that have the same members. *)
Definition merged_alike (m1 m2 : list (string * json)) : Prop :=
  NoDup (map fst m1) /\ NoDup (map fst m2)
  /\ (forall k, k <> "properties" -> assoc k m1 = assoc k m2)
  /\ match assoc "properties" m1, assoc "properties" m2 with
     | None, None => True
     | Some a, Some b => objects_alike a b
     | _, _ => False
     end.

Lemma merged_alike_has_own k m1 m2 : merged_alike m1 m2 -> has_own k m1 = has_own k m2.
Proof.
  intros (_ & _ & E & P). unfold has_own.
  destruct (String.eqb_spec k "properties") as [-> | N]; [| now rewrite E].
  destruct (assoc "properties" m1), (assoc "properties" m2); tauto.
Qed.

Lemma merged_alike_define k v m1 m2 :
  k <> "properties" -> merged_alike m1 m2 ->
  merged_alike (define k v m1) (define k v m2).
Proof.
  intros N (N1 & N2 & E & P). repeat split; try now apply NoDup_define.
  - intros k' Nk. destruct (String.eqb_spec k' k) as [-> | N'].
    + now rewrite !assoc_define_same.
    + rewrite !assoc_define_other by exact N'. now apply E.
  - rewrite !assoc_define_other by (intros X; now apply N). exact P.
Qed.

Lemma merged_alike_properties a b m1 m2 :
  objects_alike a b -> merged_alike m1 m2 ->
  merged_alike (define "properties" a m1) (define "properties" b m2).
Proof.
  intros Hab (N1 & N2 & E & P). repeat split; try now apply NoDup_define.
  - intros k Nk. rewrite !assoc_define_other by exact Nk. now apply E.
  - now rewrite !assoc_define_same.
Qed.

Lemma merged_alike_assign k v m1 m2 :
  k <> "properties" -> merged_alike m1 m2 ->
  related merged_alike (assign k v m1) (assign k v m2).
Proof.
  intros N Ha. unfold assign. rewrite (merged_alike_has_own k _ _ Ha).
  destruct (String.eqb k "__proto__" && negb (has_own k m2)); constructor.
  now apply merged_alike_define.
Qed.

Lemma merge_properties_alike m1 m2 resolved :
  merged_alike m1 m2 ->
  related merged_alike (merge_properties m1 resolved) (merge_properties m2 resolved).
Proof.
  intros Ha. unfold merge_properties.
  destruct (truthy (prop resolved "properties")); [| now constructor].
  eapply related_bind with (R := fun a b => merged_alike a b
                                             /\ objects_alike (prop (JObj a) "properties")
                                                              (prop (JObj b) "properties")).
  { destruct Ha as (N1 & N2 & E & P). unfold prop.
    destruct (assoc "properties" m1) as [a |] eqn:E1,
             (assoc "properties" m2) as [b |] eqn:E2; try contradiction.
    - destruct P as (x & y & -> & -> & Hxy). cbn [truthy negb].
      constructor. rewrite E1, E2. split; [repeat split; auto | now exists x, y].
      rewrite E1, E2. now exists x, y.
    - cbn [truthy negb]. unfold assign. cbn [String.eqb Ascii.eqb Bool.eqb andb].
      constructor.
      assert (O : objects_alike (JObj []) (JObj []))
        by (exists [], []; repeat split; constructor).
      split.
      + apply merged_alike_properties; [exact O|]. repeat split; auto.
        now rewrite E1, E2.
      + now rewrite !assoc_define_same. }
  intros a b (Hab & (x & y & Ex & Ey & Hxy)). rewrite Ex, Ey.
  eapply related_bind; [apply deepMergeProperties_alike, Hxy|].
  intros p q Hpq. unfold assign. cbn [String.eqb Ascii.eqb Bool.eqb andb].
  constructor. now apply merged_alike_properties.
Qed.

Lemma copy_keyword_alike m1 m2 kv :
  merged_alike m1 m2 -> related merged_alike (copy_keyword m1 kv) (copy_keyword m2 kv).
Proof.
  intros Ha. unfold copy_keyword.
  destruct (String.eqb_spec (fst kv) "properties") as [E | N]; cbn [negb andb];
    [now constructor|].
  destruct (negb (String.eqb (fst kv) "required")); [| now constructor].
  now apply merged_alike_assign.
Qed.

Lemma mergeAllOf_step_alike m1 m2 required subSchema :
  merged_alike m1 m2 ->
  related (fun s1 s2 => merged_alike (fst s1) (fst s2) /\ snd s1 = snd s2)
          (mergeAllOf_step st (m1, required) subSchema)
          (mergeAllOf_step st (m2, required) subSchema).
Proof.
  intros Ha. unfold mergeAllOf_step.
  eapply related_bind; [apply related_same; intros a; exact (eq_refl a)|].
  intros resolved ? <-.
  destruct (negb (truthy resolved) || negb (typeof_object resolved));
    [constructor; split; [exact Ha | reflexivity]|].
  cbn [fst snd].
  eapply related_bind; [apply merge_properties_alike, Ha|].
  intros a b Hab.
  eapply related_bind; [apply related_same; intros r; exact (eq_refl r)|].
  intros r ? <-.
  eapply related_bind with (R := merged_alike).
  { unfold merge_keywords.
    eapply related_bind; [apply related_same; intros e; exact (eq_refl e)|].
    intros e ? <-. apply related_foldM; [| exact Hab].
    intros; now apply copy_keyword_alike. }
  intros x y Hxy. constructor. split; [exact Hxy | reflexivity].
Qed.

(** A [Set] rebuilt from its own elements is itself. *)
Definition set_like (r : list json) : Prop := foldM set_add r [] = Ret r.

Lemma set_add_set_like s x s' : set_like s -> set_add s x = Ret s' -> set_like s'.
Proof.
  unfold set_like. intros Hs E. pose proof E as E'. unfold set_add in E'.
  apply bind_Ret in E' as (h & _ & E'). injection E' as <-.
  destruct h; [exact Hs|].
  rewrite foldM_app, Hs. cbn [bind foldM]. rewrite E. reflexivity.
Qed.

Lemma foldM_set_add_set_like l : forall s s',
  set_like s -> foldM set_add l s = Ret s' -> set_like s'.
Proof.
  induction l as [| x l IH]; simpl; intros s s' Hs E.
  - injection E as <-. exact Hs.
  - apply bind_Ret in E as (s1 & E1 & E). eapply IH; [| exact E].
    eapply set_add_set_like; eauto.
Qed.

Lemma In_assoc_NoDup k v m : NoDup (map fst m) -> In (k, v) m -> assoc k m = Some v.
Proof.
  induction m as [| [k' v'] m IH]; simpl; intros Hn Hin; [contradiction|].
  inversion Hn as [| ? ? Hk Hn']; subst.
  destruct Hin as [E | Hin].
  - injection E as -> ->. now rewrite String.eqb_refl.
  - destruct (String.eqb_spec k k') as [-> | N]; [| auto].
    exfalso. apply Hk. apply in_map_iff. now exists (k', v).
Qed.

(** No two members of the same name and no member named [__proto__]. *)
Definition plain (m : list (string * json)) : Prop :=
  NoDup (map fst m) /\ assoc "__proto__" m = None.

Lemma assign_plain k v m m' : plain m -> assign k v m = Ret m' -> plain m'.
Proof.
  intros [Hn Hp] E. unfold assign in E.
  destruct (String.eqb_spec k "__proto__") as [-> | N]; cbn [andb] in E.
  - unfold has_own in E. rewrite Hp in E. discriminate.
  - injection E as <-. split; [now apply NoDup_define|].
    rewrite assoc_define_other; [exact Hp | congruence].
Qed.

Lemma plain_normalized m :
  plain m -> plain (fold_left (fun acc kv => define (fst kv) (snd kv) acc) m []).
Proof.
  intros [Hn Hp]. split; [apply NoDup_fold_define; constructor|].
  rewrite assoc_fold_define by exact Hn. now rewrite Hp.
Qed.

Lemma deepMerge_member_plain rec r kv r' :
  plain r -> deepMerge_member rec r kv = Ret r' -> plain r'.
Proof.
  intros Hr. unfold deepMerge_member. destruct kv as [key sourceValue].
  destruct (isObjectSchema (prop (JObj r) key) && isObjectSchema sourceValue);
    [| now apply assign_plain].
  intros E.
  apply bind_Ret in E as (props & _ & E). apply bind_Ret in E as (m & _ & E).
  apply bind_Ret in E as (m' & _ & E). apply bind_Ret in E as (m'' & _ & E).
  eapply assign_plain; eauto.
Qed.

Lemma deepMergeProperties_plain fuel t source p :
  plain t -> deepMergeProperties_fuel fuel (JObj t) source = Ret p ->
  exists pm, p = JObj pm /\ plain pm.
Proof.
  intros Ht. destruct fuel as [| fuel]; [discriminate|].
  cbn [deepMergeProperties_fuel].
  destruct (negb (truthy source) || negb (typeof_object source));
    [intros E; injection E as <-; eauto|].
  cbn [truthy typeof_object negb orb]. unfold spread_onto. cbn [own_entries bind].
  intros E. apply bind_Ret in E as (entries & _ & E).
  apply bind_Ret in E as (result & E & E'). injection E' as <-.
  exists result. split; [reflexivity|].
  eapply (foldM_invariant plain); [| | exact E];
    [intros; eapply deepMerge_member_plain; eauto | now apply plain_normalized].
Qed.

Lemma deepMerge_member_fresh rec es : forall acc,
  NoDup (map fst es) ->
  (forall k, In k (map fst es) -> assoc k acc = None /\ k <> "__proto__") ->
  foldM (deepMerge_member rec) es acc
  = Ret (fold_left (fun acc kv => define (fst kv) (snd kv) acc) es acc).
Proof.
  induction es as [| [key v] es IH]; simpl; intros acc Hn Hf; [reflexivity|].
  inversion Hn as [| ? ? Hk Hn']; subst.
  destruct (Hf key (or_introl eq_refl)) as [Ha Np].
  unfold prop. rewrite Ha. cbn [isObjectSchema truthy andb].
  unfold assign. destruct (String.eqb_spec key "__proto__"); [contradiction|].
  cbn [andb bind]. apply IH; [exact Hn'|].
  intros k Hin. destruct (Hf k (or_intror Hin)) as [Ha' Np']. split; [| exact Np'].
  rewrite assoc_define_other; [exact Ha' | intros ->; contradiction].
Qed.

Lemma plain_keys m k : plain m -> In k (map fst m) -> k <> "__proto__".
Proof.
  intros [_ Hp] Hin ->. apply assoc_None_notin in Hp. contradiction.
Qed.

Lemma deepMergeProperties_empty pm :
  plain pm ->
  deepMergeProperties (JObj []) (JObj pm)
  = Ret (JObj (fold_left (fun acc kv => define (fst kv) (snd kv) acc) pm [])).
Proof.
  intros Hp. unfold deepMergeProperties.
  cbn [deepMergeProperties_fuel truthy typeof_object negb orb].
  unfold spread_onto. cbn [own_entries bind fold_left].
  rewrite deepMerge_member_fresh; [reflexivity | apply Hp |].
  intros k Hin. split; [reflexivity | eapply plain_keys; eauto].
Qed.

(** A sub-schema as a JavaScript object is one: no two members of the
    same name; an array is not a schema. *)
Definition wf_schema (schema : json) : Prop :=
  match schema with
  | JObj m => NoDup (map fst m)
  | JArr _ => False
  | _ => True
  end.

(** What [mergeAllOfSchemas] goes on with after [resolveSchema]: an object
    whose [$ref], when a document is loaded, is falsy. *)
Lemma resolved_object schema resolved :
  wf_schema schema ->
  resolveSchema st schema = Ret resolved ->
  negb (truthy resolved) || negb (typeof_object resolved) = false ->
  exists m, resolved = JObj m
            /\ (truthy st = true -> NoDup (map fst m) /\ truthy (prop resolved "$ref") = false).
Proof.
  intros Hwf. unfold resolveSchema.
  change (resolveSchema_fuel st 2 schema [])
    with (resolveSchema_body st (resolveSchema_fuel st 1) schema []).
  unfold resolveSchema_body.
  destruct schema as [| | [|] | n | s | l | m]; try contradiction.
  - intros E T. injection E as <-. discriminate T.
  - intros E T. injection E as <-. discriminate T.
  - intros E _. injection E as <-. exists []. split; [reflexivity|].
    intros _. split; [constructor | reflexivity].
  - intros E _. injection E as <-. eexists. split; [reflexivity|].
    intros _. split; [repeat constructor; simpl; tauto | reflexivity].
  - cbn [typeof_object negb]. rewrite orb_true_r.
    intros E T. injection E as <-. cbn [typeof_object negb] in T.
    rewrite orb_true_r in T. discriminate T.
  - cbn [typeof_object negb]. rewrite orb_true_r.
    intros E T. injection E as <-. cbn [typeof_object negb] in T.
    rewrite orb_true_r in T. discriminate T.
  - cbn [truthy typeof_object negb orb].
    destruct (negb (truthy (prop (JObj m) "$ref"))) eqn:Er.
    { intros E; injection E as <-. intros _. exists m. split; [reflexivity|].
      intros _. split; [exact Hwf | now apply negb_true_iff in Er]. }
    destruct (negb (truthy st)) eqn:Es.
    { intros E; injection E as <-. intros _. exists m. split; [reflexivity|].
      intros X. apply negb_true_iff in Es. congruence. }
    intros E T.
    apply bind_Ret in E as (h & _ & E). destruct h.
    { injection E as <-. eexists. split; [reflexivity|].
      intros _. split; [repeat constructor; simpl; intuition discriminate | reflexivity]. }
    apply bind_Ret in E as (r & _ & E).
    destruct (negb (truthy r)).
    { injection E as <-. eexists. split; [reflexivity|].
      intros _. split; [repeat constructor; simpl; intuition discriminate | reflexivity]. }
    apply bind_Ret in E as (seen' & _ & E).
    apply bind_Ret in E as (rest & _ & E).
    apply bind_Ret in E as (m1 & E1 & E).
    apply bind_Ret in E as (m2 & E2 & E).
    assert (N2 : NoDup (map fst m2)).
    { eapply NoDup_spread_onto; [| exact E2].
      eapply NoDup_spread_onto; [| exact E1]. constructor. }
    change (resolveSchema_fuel st 1 (JObj (delete "$ref" m2)) seen')
      with (resolveSchema_body st (resolveSchema_fuel st 0) (JObj (delete "$ref" m2)) seen')
      in E.
    rewrite resolveSchema_body_no_ref in E by (apply assoc_delete_NoDup, N2).
    injection E as <-. eexists. split; [reflexivity|].
    intros _. split; [apply NoDup_delete, N2|].
    unfold prop. now rewrite (assoc_delete_NoDup "$ref" m2 N2).
Qed.

(** What holds of [merged] and [requiredFields] all along the loop. *)
Definition merge_inv (s : list (string * json) * list json) : Prop :=
  plain (fst s)
  /\ assoc "required" (fst s) = None
  /\ (truthy st = true -> truthy (prop (JObj (fst s)) "$ref") = false)
  /\ match assoc "properties" (fst s) with
     | None => True
     | Some p => exists pm, p = JObj pm /\ plain pm
     end
  /\ set_like (snd s).

Lemma merge_inv_start : merge_inv ([], []).
Proof. repeat split; try constructor. Qed.

Lemma merge_properties_inv merged required resolved merged' :
  merge_inv (merged, required) ->
  merge_properties merged resolved = Ret merged' ->
  merge_inv (merged', required).
Proof.
  intros (Hp & Hr & Href & Hprops & Hs). unfold merge_properties. cbn [fst snd] in *.
  destruct (truthy (prop resolved "properties"));
    [| intros E; injection E as <-; repeat split; auto; apply Hp].
  intros E. apply bind_Ret in E as (m1 & E1 & E).
  assert (I1 : plain m1 /\ assoc "required" m1 = None
               /\ assoc "$ref" m1 = assoc "$ref" merged
               /\ exists pm, prop (JObj m1) "properties" = JObj pm /\ plain pm).
  { unfold prop in E1 |- *.
    destruct (assoc "properties" merged) as [p |] eqn:Ep.
    - destruct Hprops as (pm & -> & Hpm). cbn [truthy negb] in E1.
      injection E1 as <-. rewrite Ep. repeat split; auto; try apply Hp. eauto.
    - cbn [truthy negb] in E1. unfold assign in E1.
      cbn [String.eqb Ascii.eqb Bool.eqb andb] in E1. injection E1 as <-.
      rewrite assoc_define_same.
      repeat split; try (rewrite assoc_define_other by discriminate; auto; apply Hp).
      + apply NoDup_define, Hp.
      + exists []. repeat split; constructor. }
  destruct I1 as (P1 & R1 & F1 & pm & Epm & Hpm). rewrite Epm in E.
  apply bind_Ret in E as (p & Ed & E).
  apply deepMergeProperties_plain in Ed as (pm' & -> & Hpm'); [| exact Hpm].
  unfold assign in E. cbn [String.eqb Ascii.eqb Bool.eqb andb] in E. injection E as <-.
  repeat split; cbn [fst snd].
  - apply NoDup_define, P1.
  - rewrite assoc_define_other by discriminate. apply P1.
  - rewrite assoc_define_other by discriminate. exact R1.
  - intros T. unfold prop. rewrite assoc_define_other by discriminate.
    rewrite F1. apply (Href T).
  - rewrite assoc_define_same. eauto.
  - exact Hs.
Qed.

Lemma copy_keyword_inv merged required kv merged' :
  (truthy st = true -> fst kv = "$ref" -> truthy (snd kv) = false) ->
  merge_inv (merged, required) ->
  copy_keyword merged kv = Ret merged' ->
  merge_inv (merged', required).
Proof.
  intros Hkv (Hp & Hr & Href & Hprops & Hs). unfold copy_keyword. cbn [fst snd] in *.
  destruct (String.eqb_spec (fst kv) "properties") as [E1 | N1]; cbn [negb andb];
    [intros E; injection E as <-; repeat split; auto; apply Hp|].
  destruct (String.eqb_spec (fst kv) "required") as [E2 | N2]; cbn [negb];
    [intros E; injection E as <-; repeat split; auto; apply Hp|].
  intros E. pose proof (assign_plain _ _ _ _ Hp E) as Hp'.
  unfold assign in E.
  destruct (String.eqb (fst kv) "__proto__" && negb (has_own (fst kv) merged));
    [discriminate|]. injection E as <-.
  repeat split; cbn [fst snd]; try apply Hp'.
  - rewrite assoc_define_other by congruence. exact Hr.
  - intros T. unfold prop.
    destruct (String.eqb_spec "$ref" (fst kv)) as [E | N].
    + rewrite E, assoc_define_same. apply Hkv; [exact T | now symmetry].
    + rewrite assoc_define_other by exact N. apply (Href T).
  - rewrite assoc_define_other by congruence. exact Hprops.
  - exact Hs.
Qed.

Lemma mergeAllOf_step_inv s subSchema s' :
  wf_schema subSchema -> merge_inv s ->
  mergeAllOf_step st s subSchema = Ret s' -> merge_inv s'.
Proof.
  intros Hwf Hi. unfold mergeAllOf_step. intros E.
  apply bind_Ret in E as (resolved & Er & E).
  destruct (negb (truthy resolved) || negb (typeof_object resolved)) eqn:T;
    [injection E as <-; exact Hi|].
  destruct (resolved_object _ _ Hwf Er T) as (rm & -> & Hrm).
  destruct s as [merged required]. cbn [fst snd] in E.
  apply bind_Ret in E as (m1 & E1 & E).
  apply bind_Ret in E as (r1 & E2 & E).
  apply bind_Ret in E as (m2 & E3 & E). injection E as <-.
  pose proof (merge_properties_inv _ _ _ _ Hi E1) as I1.
  assert (I2 : merge_inv (m1, r1)).
  { destruct I1 as (A & B & C & D & S). repeat split; auto; try apply A.
    cbn [snd] in *. unfold merge_required in E2.
    destruct (prop (JObj rm) "required"); try (injection E2 as <-; exact S).
    eapply foldM_set_add_set_like; eauto. }
  unfold merge_keywords in E3. cbn [own_entries bind] in E3.
  assert (G : forall es m m',
             (forall kv, In kv es -> In kv rm) ->
             merge_inv (m, r1) -> foldM copy_keyword es m = Ret m' -> merge_inv (m', r1)).
  { induction es as [| kv es IH]; simpl; intros m m' Hsub Hm Ef.
    - injection Ef as <-. exact Hm.
    - apply bind_Ret in Ef as (mk & Ek & Ef).
      eapply IH; [intros; apply Hsub; now right | | exact Ef].
      eapply copy_keyword_inv; [| exact Hm | exact Ek].
      intros Ts Ek'. destruct (Hrm Ts) as [Nrm Fr].
      destruct kv as [k v]. cbn [fst snd] in *. subst k.
      unfold prop in Fr.
      rewrite (In_assoc_NoDup "$ref" v rm Nrm (Hsub _ (or_introl eq_refl))) in Fr.
      exact Fr. }
  eapply G; [| exact I2 | exact E3]. auto.
Qed.

Lemma merge_fold_inv l : forall s s',
  Forall wf_schema l -> merge_inv s ->
  foldM (mergeAllOf_step st) l s = Ret s' -> merge_inv s'.
Proof.
  induction l as [| x l IH]; simpl; intros s s' Hl Hs E.
  - injection E as <-. exact Hs.
  - inversion Hl; subst. apply bind_Ret in E as (s1 & E1 & E).
    eapply IH; [assumption | | exact E]. eapply mergeAllOf_step_inv; eauto.
Qed.

(** What [mergeAllOfSchemas] returns for the final state of the loop. *)
Definition finalize (s : list (string * json) * list json) : json :=
  match snd s with
  | [] => JObj (fst s)
  | r => JObj (define "required" (JArr r) (fst s))
  end.

Lemma mergeAllOfSchemas_fold l :
  mergeAllOfSchemas st (JArr l)
  = (s <- foldM (mergeAllOf_step st) l ([], []) ;; Ret (finalize s)).
Proof.
  destruct l as [| x l]; [reflexivity|]. unfold mergeAllOfSchemas.
  destruct (foldM (mergeAllOf_step st) (x :: l) ([], [])) as [[m r] | | |]; try reflexivity.
  cbn [bind]. destruct r; reflexivity.
Qed.

Definition is_keyword (k : string) : bool :=
  negb (String.eqb k "properties") && negb (String.eqb k "required").

Lemma foldM_copy_keyword es : forall acc,
  (forall kv, In kv es -> fst kv <> "__proto__") ->
  foldM copy_keyword es acc
  = Ret (fold_left (fun acc kv => define (fst kv) (snd kv) acc)
                   (filter (fun kv => is_keyword (fst kv)) es) acc).
Proof.
  induction es as [| kv es IH]; simpl; intros acc Hp; [reflexivity|].
  unfold copy_keyword at 1. fold (is_keyword (fst kv)).
  destruct (is_keyword (fst kv)); cbn [bind fold_left].
  - unfold assign. destruct (String.eqb_spec (fst kv) "__proto__") as [E | N];
      [exfalso; eapply Hp; [left; reflexivity | exact E]|].
    cbn [andb bind]. apply IH. auto.
  - apply IH. auto.
Qed.

Lemma assoc_filter (f : string -> bool) m k :
  assoc k (filter (fun kv : string * json => f (fst kv)) m) = if f k then assoc k m else None.
Proof.
  induction m as [| [k' v] m IH]; simpl; [destruct (f k); reflexivity|].
  destruct (f k') eqn:Ef; simpl; rewrite IH;
    destruct (String.eqb_spec k k') as [-> | N]; try reflexivity.
  - now rewrite Ef.
  - now rewrite Ef.
Qed.

Lemma NoDup_filter_keys (f : string -> bool) (m : list (string * json)) :
  NoDup (map fst m) -> NoDup (map fst (filter (fun kv => f (fst kv)) m)).
Proof.
  induction m as [| [k v] m IH]; simpl; intros Hn; [constructor|].
  inversion Hn as [| ? ? Hk Hn']; subst.
  destruct (f k); simpl; [| auto]. constructor; [| auto].
  intros X. apply Hk. apply in_map_iff in X as ([k' v'] & E & X). simpl in E. subst k'.
  apply filter_In in X as [X _]. apply in_map_iff. now exists (k, v').
Qed.

Lemma In_key_assoc k v m : In (k, v) m -> assoc k m <> None.
Proof.
  induction m as [| [k' v'] m IH]; simpl; [tauto|].
  intros [E | Hin].
  - injection E as -> ->. rewrite String.eqb_refl. discriminate.
  - destruct (String.eqb k k'); [discriminate | auto].
Qed.

Lemma assign_properties_first v : assign "properties" v [] = Ret [("properties", v)].
Proof. reflexivity. Qed.

Lemma assign_properties_again v w :
  assign "properties" v [("properties", w)] = Ret [("properties", v)].
Proof. reflexivity. Qed.

(** The merged schema, merged again on its own, gives a state like the one
    it came from. *)
Lemma merged_again m r :
  merge_inv (m, r) ->
  exists m', mergeAllOf_step st ([], []) (finalize (m, r)) = Ret (m', r)
             /\ merged_alike m m'.
Proof.
  intros ((Hn & Hproto) & Hreq & Href & Hprops & Hset). cbn [fst snd] in *.
  set (mm := match r with [] => m | _ => define "required" (JArr r) m end).
  assert (EM : finalize (m, r) = JObj mm) by (unfold finalize, mm; destruct r; reflexivity).
  assert (Nmm : NoDup (map fst mm)) by (unfold mm; destruct r; [| apply NoDup_define]; exact Hn).
  assert (Amm : forall k, k <> "required" -> assoc k mm = assoc k m).
  { intros k Nk. unfold mm. destruct r; [reflexivity|]. now apply assoc_define_other. }
  assert (Rmm : prop (JObj mm) "required" = match r with [] => JUndefined | _ => JArr r end).
  { unfold prop, mm. destruct r; [now rewrite Hreq | now rewrite assoc_define_same]. }
  rewrite EM. unfold mergeAllOf_step.
  assert (ER : resolveSchema st (JObj mm) = Ret (JObj mm)).
  { unfold resolveSchema.
    change (resolveSchema_fuel st 2 (JObj mm) [])
      with (resolveSchema_body st (resolveSchema_fuel st 1) (JObj mm) []).
    unfold resolveSchema_body. cbn [truthy typeof_object negb orb].
    replace (prop (JObj mm) "$ref") with (prop (JObj m) "$ref")
      by (unfold prop; now rewrite Amm by discriminate).
    destruct (truthy (prop (JObj m) "$ref")) eqn:T; [| reflexivity].
    destruct (truthy st) eqn:Ts; [| reflexivity].
    discriminate (Href eq_refl). }
  rewrite ER. cbn [bind truthy typeof_object negb orb fst snd].
  (* properties *)
  assert (EP : exists m1,
             merge_properties [] (JObj mm) = Ret m1
             /\ NoDup (map fst m1)
             /\ (forall k, k <> "properties" -> assoc k m1 = None)
             /\ match assoc "properties" m, assoc "properties" m1 with
                | None, None => True
                | Some a, Some b => objects_alike a b
                | _, _ => False
                end).
  { unfold merge_properties.
    replace (prop (JObj mm) "properties") with (prop (JObj m) "properties")
      by (unfold prop; now rewrite Amm by discriminate).
    unfold prop at 1.
    destruct (assoc "properties" m) as [p |] eqn:Ep.
    - destruct Hprops as (pm & -> & Hpm). cbn [truthy].
      change (prop (JObj []) "properties") with JUndefined. cbn [truthy negb].
      rewrite assign_properties_first. cbn [bind].
      change (prop (JObj [("properties", JObj [])]) "properties") with (JObj []).
      unfold prop. rewrite Ep. rewrite (deepMergeProperties_empty pm Hpm).
      cbn [bind]. rewrite assign_properties_again.
      eexists. split; [reflexivity|]. split; [repeat constructor; simpl; tauto|].
      split.
      + intros k Nk. simpl. destruct (String.eqb_spec k "properties"); [contradiction|].
        reflexivity.
      + change (assoc "properties" [("properties",
                  JObj (fold_left (fun acc kv => define (fst kv) (snd kv) acc) pm []))])
          with (Some (JObj (fold_left (fun acc kv => define (fst kv) (snd kv) acc) pm []))).
        exists pm. eexists. split; [reflexivity|]. split; [reflexivity|].
        apply alike_sym, alike_normalized, Hpm.
    - cbn [truthy]. exists []. split; [reflexivity|]. split; [constructor|].
      split; [reflexivity | exact I]. }
  destruct EP as (m1 & -> & N1 & A1 & P1). cbn [bind].
  (* required *)
  assert (ERq : merge_required [] (JObj mm) = Ret r).
  { unfold merge_required. rewrite Rmm. destruct r; [reflexivity | exact Hset]. }
  rewrite ERq. cbn [bind].
  (* the other keywords *)
  unfold merge_keywords. cbn [own_entries bind].
  rewrite foldM_copy_keyword.
  2: { intros [k v] Hin Ek. simpl in Ek. subst k.
       apply In_key_assoc in Hin. rewrite Amm in Hin by discriminate. contradiction. }
  cbn [bind]. eexists. split; [reflexivity|].
  assert (Nf : NoDup (map fst (filter (fun kv => is_keyword (fst kv)) mm)))
    by (apply NoDup_filter_keys, Nmm).
  repeat split.
  - exact Hn.
  - apply NoDup_fold_define, N1.
  - intros k Nk. rewrite assoc_fold_define by exact Nf.
    rewrite assoc_filter. unfold is_keyword.
    destruct (String.eqb_spec k "properties"); [contradiction|].
    destruct (String.eqb_spec k "required") as [-> | Nr]; cbn [negb andb].
    + rewrite A1 by exact Nk. exact Hreq.
    + rewrite Amm by exact Nr. rewrite A1 by exact Nk.
      destruct (assoc k m); reflexivity.
  - rewrite assoc_fold_define by exact Nf.
    rewrite assoc_filter. cbn. exact P1.
Qed.

(** The last schema read wins: in a loop whose step writes the member it is
    at, or leaves the object alone, the member of the last schema under a
    name is the one the object ends with. *)
Lemma assoc_In k v (m : list (string * json)) : assoc k m = Some v -> In (k, v) m.
Proof.
  induction m as [| [k' v'] m IH]; simpl; [discriminate|].
  destruct (String.eqb_spec k k') as [-> | N]; [| auto].
  intros E. injection E as ->. now left.
Qed.

Section LastWins.
Variable f : list (string * json) -> string * json -> outcome (list (string * json)).
Variable P : string * json -> Prop.
Hypothesis f_other : forall acc kv acc' k,
  f acc kv = Ret acc' -> k <> fst kv -> assoc k acc' = assoc k acc.
Hypothesis f_same : forall acc kv acc',
  f acc kv = Ret acc' -> P kv -> assoc (fst kv) acc' = Some (snd kv).

Lemma foldM_untouched k es : forall acc acc',
  ~ In k (map fst es) -> foldM f es acc = Ret acc' -> assoc k acc' = assoc k acc.
Proof.
  induction es as [| x es IH]; simpl; intros acc acc' Hk E.
  - injection E as <-. reflexivity.
  - apply bind_Ret in E as (acc1 & E1 & E).
    rewrite (IH _ _ (fun X => Hk (or_intror X)) E).
    eapply f_other; [exact E1|]. intros ->. apply Hk. now left.
Qed.

Lemma foldM_last_wins es : forall acc acc',
  NoDup (map fst es) -> foldM f es acc = Ret acc' ->
  forall kv, In kv es -> P kv -> assoc (fst kv) acc' = Some (snd kv).
Proof.
  induction es as [| x es IH]; simpl; intros acc acc' Hn E kv Hin Hp; [contradiction|].
  inversion Hn as [| ? ? Hx Hn']; subst.
  apply bind_Ret in E as (acc1 & E1 & E).
  destruct Hin as [-> | Hin]; [| eapply IH; eauto].
  rewrite (foldM_untouched _ _ _ _ Hx E). eapply f_same; eauto.
Qed.
End LastWins.

Lemma assign_same k v m m' : assign k v m = Ret m' -> assoc k m' = Some v.
Proof. intros E. apply assign_Ret in E as ->. apply assoc_define_same. Qed.

Lemma assign_other k v m m' k' : assign k v m = Ret m' -> k' <> k -> assoc k' m' = assoc k' m.
Proof. intros E N. apply assign_Ret in E as ->. now apply assoc_define_other. Qed.

Lemma copy_keyword_other acc kv acc' k :
  copy_keyword acc kv = Ret acc' -> k <> fst kv -> assoc k acc' = assoc k acc.
Proof.
  unfold copy_keyword.
  destruct (negb (String.eqb (fst kv) "properties") && negb (String.eqb (fst kv) "required")).
  - intros E N. eapply assign_other; eauto.
  - intros E _. now injection E as <-.
Qed.

Lemma copy_keyword_same acc kv acc' :
  copy_keyword acc kv = Ret acc' -> is_keyword (fst kv) = true ->
  assoc (fst kv) acc' = Some (snd kv).
Proof.
  unfold copy_keyword, is_keyword. intros E Hk. rewrite Hk in E. eapply assign_same; eauto.
Qed.

Lemma copy_keyword_properties acc kv acc' :
  copy_keyword acc kv = Ret acc' -> assoc "properties" acc' = assoc "properties" acc.
Proof.
  unfold copy_keyword. destruct (String.eqb_spec (fst kv) "properties") as [E | N];
    cbn [negb andb].
  - intros X. now injection X as <-.
  - destruct (negb (String.eqb (fst kv) "required")); intros X.
    + eapply assign_other; eauto.
    + now injection X as <-.
Qed.

Lemma deepMerge_member_other rec acc kv acc' k :
  deepMerge_member rec acc kv = Ret acc' -> k <> fst kv -> assoc k acc' = assoc k acc.
Proof.
  unfold deepMerge_member. destruct kv as [key sourceValue]. cbn [fst].
  destruct (isObjectSchema (prop (JObj acc) key) && isObjectSchema sourceValue);
    intros E N; [| eapply assign_other; eauto].
  apply bind_Ret in E as (props & _ & E). apply bind_Ret in E as (m & _ & E).
  apply bind_Ret in E as (m' & _ & E). apply bind_Ret in E as (m'' & _ & E).
  eapply assign_other; eauto.
Qed.

Lemma deepMerge_member_same rec acc kv acc' :
  deepMerge_member rec acc kv = Ret acc' -> isObjectSchema (snd kv) = false ->
  assoc (fst kv) acc' = Some (snd kv).
Proof.
  unfold deepMerge_member. destruct kv as [key sourceValue]. cbn [fst snd].
  intros E Hs. rewrite Hs, andb_false_r in E. eapply assign_same; eauto.
Qed.

(** The step of the loop at a schema that resolves to an object. *)
Lemma mergeAllOf_step_object s subSchema s' c :
  mergeAllOf_step st s subSchema = Ret s' ->
  resolveSchema st subSchema = Ret (JObj c) ->
  exists m1, merge_properties (fst s) (JObj c) = Ret m1
             /\ foldM copy_keyword c m1 = Ret (fst s').
Proof.
  unfold mergeAllOf_step. intros E Er. rewrite Er in E.
  cbn [bind truthy typeof_object negb orb] in E.
  apply bind_Ret in E as (m1 & E1 & E). apply bind_Ret in E as (r1 & _ & E).
  apply bind_Ret in E as (m2 & E2 & E). injection E as <-.
  exists m1. split; [exact E1 | exact E2].
Qed.

Lemma finalize_prop s k :
  k <> "required" -> prop (finalize s) k = prop (JObj (fst s)) k.
Proof.
  intros N. unfold finalize. destruct (snd s); [reflexivity|].
  unfold prop. now rewrite assoc_define_other.
Qed.

Lemma finalize_alike s2 s3 :
  merged_alike (fst s2) (fst s3) -> snd s2 = snd s3 ->
  (forall k, k <> "properties" -> prop (finalize s3) k = prop (finalize s2) k)
  /\ is_undefined (prop (finalize s3) "properties")
     = is_undefined (prop (finalize s2) "properties")
  /\ (forall name, prop (prop (finalize s3) "properties") name
                   = prop (prop (finalize s2) "properties") name).
Proof.
  intros (N2 & N3 & E & P) Er. split; [| rewrite !finalize_prop by discriminate; unfold prop].
  - intros k Nk. unfold finalize. rewrite <- Er. unfold prop.
    destruct (snd s2); [now rewrite E|].
    destruct (String.eqb_spec k "required") as [-> | Nr].
    + now rewrite !assoc_define_same.
    + rewrite !assoc_define_other by exact Nr. now rewrite E.
  - destruct (assoc "properties" (fst s2)) as [a |], (assoc "properties" (fst s3)) as [b |];
      try contradiction; [| split; reflexivity].
    destruct P as (x & y & -> & -> & (_ & _ & Exy)). split; [reflexivity|].
    intros name. now rewrite Exy.
Qed.

Lemma deepMergeProperties_last t pc p name sv :
  deepMergeProperties t (JObj pc) = Ret p -> NoDup (map fst pc) ->
  assoc name pc = Some sv -> isObjectSchema sv = false -> prop p name = sv.
Proof.
  unfold deepMergeProperties. cbn [deepMergeProperties_fuel truthy typeof_object negb orb].
  intros E Hn Ha Hs.
  destruct (negb (truthy t) || negb (typeof_object t)).
  - injection E as <-. unfold prop. now rewrite Ha.
  - apply bind_Ret in E as (r0 & _ & E). cbn [own_entries bind] in E.
    apply bind_Ret in E as (r1 & E & X). injection X as <-.
    pose proof (foldM_last_wins _ (fun kv => isObjectSchema (snd kv) = false)
                  (deepMerge_member_other _) (deepMerge_member_same _)
                  pc r0 r1 Hn E (name, sv) (assoc_In _ _ _ Ha) Hs) as W.
    cbn [fst snd] in W. unfold prop. now rewrite W.
Qed.

Lemma merge_properties_last merged c pc m1 name sv :
  merge_properties merged (JObj c) = Ret m1 ->
  prop (JObj c) "properties" = JObj pc -> NoDup (map fst pc) ->
  assoc name pc = Some sv -> isObjectSchema sv = false ->
  prop (prop (JObj m1) "properties") name = sv.
Proof.
  unfold merge_properties. intros E Ep Hn Ha Hs. rewrite Ep in E. cbn [truthy] in E.
  apply bind_Ret in E as (m0 & _ & E). apply bind_Ret in E as (p & Ed & E).
  unfold prop at 2. rewrite (assign_same _ _ _ _ E).
  eapply deepMergeProperties_last; eauto.
Qed.
End MergeProofs.

Lemma json_eqb_value_eq c x : by_reference c = false -> json_eqb c x = true -> x = c.
Proof.
  destruct c as [| | b | [z | f r] | s | l | m]; try discriminate; intros _;
    destruct x as [| | b' | [z' | f' r'] | s' | l' | m']; try discriminate; try reflexivity;
    simpl; intros E.
  - apply Bool.eqb_prop in E. now subst.
  - apply Z.eqb_eq in E. now subst.
  - apply andb_true_iff in E as [E1 E2]. apply Z.eqb_eq in E1. apply String.eqb_eq in E2.
    now subst.
  - apply String.eqb_eq in E. now subst.
Qed.

(** *** [required]: the union of the arrays *)

(** The names a schema requires: its [required] when that is an array. *)
Definition required_of (schema : json) : list json :=
  match prop schema "required" with
  | JArr r => r
  | _ => []
  end.

Lemma set_add_In x seen ref seen' :
  by_reference x = false ->
  set_add seen ref = Ret seen' ->
  (In x seen' <-> In x seen \/ ref = x).
Proof.
  intros Hx E. unfold set_add in E. apply bind_Ret in E as (h & Eh & E).
  injection E as <-. destruct h.
  - split; [now left|]. intros [Hin | ->]; [exact Hin|].
    unfold set_has in Eh. rewrite Hx in Eh. injection Eh as Eh.
    apply existsb_exists in Eh as (y & Hy & Ey).
    now rewrite <- (json_eqb_value_eq _ _ Hx Ey).
  - rewrite in_app_iff. simpl. tauto.
Qed.

Lemma foldM_set_add_In x l : forall s s',
  by_reference x = false ->
  foldM set_add l s = Ret s' ->
  (In x s' <-> In x s \/ In x l).
Proof.
  induction l as [| y l IH]; simpl; intros s s' Hx E.
  - injection E as <-. tauto.
  - apply bind_Ret in E as (s1 & E1 & E).
    rewrite (IH _ _ Hx E), (set_add_In _ _ _ _ Hx E1). tauto.
Qed.

Lemma merge_required_In x req resolved req' :
  by_reference x = false ->
  merge_required req resolved = Ret req' ->
  (In x req' <-> In x req \/ In x (required_of resolved)).
Proof.
  intros Hx. unfold merge_required, required_of.
  destruct (prop resolved "required");
    try (intros E; injection E as <-; simpl; tauto).
  now apply foldM_set_add_In.
Qed.

(** A sub-schema that takes part in the merge and requires [x]. *)
Definition requires {H : Host} (st : json) (x : json) (subSchema : json) : Prop :=
  exists resolved,
    resolveSchema st subSchema = Ret resolved
    /\ negb (truthy resolved) || negb (typeof_object resolved) = false
    /\ In x (required_of resolved).

Lemma mergeAllOf_step_In {H : Host} st x s subSchema s' :
  by_reference x = false ->
  mergeAllOf_step st s subSchema = Ret s' ->
  (In x (snd s') <-> In x (snd s) \/ requires st x subSchema).
Proof.
  intros Hx E. unfold mergeAllOf_step in E.
  apply bind_Ret in E as (resolved & Er & E).
  destruct (negb (truthy resolved) || negb (typeof_object resolved)) eqn:G.
  - injection E as <-. split; [now left|].
    intros [Hin | (r & Er' & G' & _)]; [exact Hin|].
    rewrite Er in Er'. injection Er' as <-. congruence.
  - apply bind_Ret in E as (m1 & _ & E). apply bind_Ret in E as (r1 & E2 & E).
    apply bind_Ret in E as (m2 & _ & E). injection E as <-. cbn [snd].
    rewrite (merge_required_In _ _ _ _ Hx E2). split.
    + intros [Hin | Hin]; [now left | right; now exists resolved].
    + intros [Hin | (r & Er' & _ & Hin)]; [now left|].
      rewrite Er in Er'. injection Er' as <-. now right.
Qed.

Lemma merge_fold_In {H : Host} st x l : forall s s',
  by_reference x = false ->
  foldM (mergeAllOf_step st) l s = Ret s' ->
  (In x (snd s') <-> In x (snd s) \/ exists subSchema, In subSchema l /\ requires st x subSchema).
Proof.
  induction l as [| y l IH]; simpl; intros s s' Hx E.
  - injection E as <-. split; [now left | intros [Hin | (z & [] & _)]; exact Hin].
  - apply bind_Ret in E as (s1 & E1 & E).
    rewrite (IH _ _ Hx E), (mergeAllOf_step_In _ _ _ _ _ Hx E1). split.
    + intros [[Hin | Hr] | (z & Hz & Hr)]; [now left | right; exists y; tauto |].
      right. exists z. tauto.
    + intros [Hin | (z & [<- | Hz] & Hr)]; [tauto | tauto |]. right. now exists z.
Qed.

Lemma required_of_finalize s :
  assoc "required" (fst s) = None -> required_of (finalize s) = snd s.
Proof.
  intros Hr. unfold required_of, finalize, prop. destruct (snd s); [now rewrite Hr|].
  now rewrite assoc_define_same.
Qed.

(** *** [properties]: key by key *)

Lemma depth_member kv m : In kv m -> (depth (snd kv) < depth (JObj m))%nat.
Proof.
  simpl. induction m as [| y m IH]; simpl; [tauto|].
  intros [-> | Hx]; [lia | specialize (IH Hx); lia].
Qed.

Lemma depth_item x l : In x l -> (depth x < depth (JArr l))%nat.
Proof.
  simpl. induction l as [| y l IH]; simpl; [tauto|].
  intros [-> | Hx]; [lia | specialize (IH Hx); lia].
Qed.

Lemma depth_prop v k : (depth (prop v k) <= depth v)%nat.
Proof.
  unfold prop. destruct v as [| | | | | | m]; simpl; try lia.
  destruct (assoc k m) as [x |] eqn:E; [| simpl; lia].
  apply assoc_In in E. pose proof (depth_member _ _ E). simpl in *. lia.
Qed.

Lemma indexed_from_In k v l : forall i, In (k, v) (indexed_from i l) -> In v l.
Proof.
  induction l as [| x l IH]; simpl; intros i; [tauto|].
  intros [E | Hin]; [injection E as _ ->; now left | right; eapply IH; eauto].
Qed.

Lemma own_entries_depth v es kv :
  own_entries v = Ret es -> In kv es -> (depth (snd kv) < depth v)%nat.
Proof.
  destruct v as [| | | | s | l | m]; simpl; intros E Hin;
    try (injection E as <-; contradiction).
  - destruct (String.eqb s ""); [injection E as <-; contradiction | discriminate].
  - injection E as <-. destruct kv as [k x].
    apply indexed_from_In in Hin. apply depth_item in Hin. exact Hin.
  - injection E as <-. now apply depth_member.
Qed.

Lemma foldM_ext {A B : Type} (f g : B -> A -> outcome B) l :
  (forall s x, In x l -> f s x = g s x) ->
  forall s, foldM f l s = foldM g l s.
Proof.
  induction l as [| x l IH]; simpl; intros Hfg s; [reflexivity|].
  rewrite Hfg by now left. destruct (g s x); simpl; auto.
Qed.

Lemma deepMerge_member_ext rec1 rec2 acc kv :
  (forall t, rec1 t (prop (snd kv) "properties") = rec2 t (prop (snd kv) "properties")) ->
  deepMerge_member rec1 acc kv = deepMerge_member rec2 acc kv.
Proof.
  intros Hr. unfold deepMerge_member. destruct kv as [key sourceValue]. cbn [snd] in Hr.
  destruct (isObjectSchema (prop (JObj acc) key) && isObjectSchema sourceValue);
    [| reflexivity].
  now rewrite Hr.
Qed.

(** Above the nesting depth of the source, the bound of
    [deepMergeProperties] does not matter. *)
Lemma deepMerge_enough : forall f1 f2 t s,
  (depth s < f1)%nat -> (depth s < f2)%nat ->
  deepMergeProperties_fuel f1 t s = deepMergeProperties_fuel f2 t s.
Proof.
  induction f1 as [| f1 IH]; intros f2 t s H1 H2; [lia|].
  destruct f2 as [| f2]; [lia|]. cbn [deepMergeProperties_fuel].
  destruct (negb (truthy s) || negb (typeof_object s)); [reflexivity|].
  destruct (negb (truthy t) || negb (typeof_object t)); [reflexivity|].
  destruct (spread_onto [] t) as [result | | |]; try reflexivity. cbn [bind].
  destruct (own_entries s) as [entries | | |] eqn:Ee; try reflexivity. cbn [bind].
  rewrite (foldM_ext (deepMerge_member (deepMergeProperties_fuel f1))
                     (deepMerge_member (deepMergeProperties_fuel f2))); [reflexivity|].
  intros acc kv Hin. apply deepMerge_member_ext. intros t'.
  pose proof (own_entries_depth _ _ _ Ee Hin) as D.
  pose proof (depth_prop (snd kv) "properties") as P.
  apply IH; lia.
Qed.

Section AtKey.
Variable f : list (string * json) -> string * json -> outcome (list (string * json)).
Hypothesis f_other : forall acc kv acc' k,
  f acc kv = Ret acc' -> k <> fst kv -> assoc k acc' = assoc k acc.

(** In a loop over members with distinct names, the member under a name
    is decided by the one step at that name. *)
Lemma foldM_at_key es : forall acc acc' kv,
  NoDup (map fst es) -> In kv es -> foldM f es acc = Ret acc' ->
  exists a a', assoc (fst kv) a = assoc (fst kv) acc
               /\ f a kv = Ret a'
               /\ assoc (fst kv) acc' = assoc (fst kv) a'.
Proof.
  induction es as [| x es IH]; simpl; intros acc acc' kv Hn Hin E; [contradiction|].
  inversion Hn as [| ? ? Hx Hn']; subst.
  apply bind_Ret in E as (acc1 & E1 & E).
  destruct Hin as [-> | Hin].
  - exists acc, acc1. split; [reflexivity|]. split; [exact E1|].
    exact (foldM_untouched f f_other _ _ _ _ Hx E).
  - destruct (IH _ _ _ Hn' Hin E) as (a & a' & Ea & Ef & Ea').
    exists a, a'. split; [| now split].
    rewrite Ea. eapply f_other; [exact E1|].
    intros X. apply Hx. rewrite <- X. now apply in_map.
Qed.
End AtKey.

Lemma deepMergeProperties_at tm pc p name sv :
  deepMergeProperties (JObj tm) (JObj pc) = Ret p ->
  NoDup (map fst tm) -> NoDup (map fst pc) -> assoc name pc = Some sv ->
  exists a a',
    prop (JObj a) name = prop (JObj tm) name
    /\ deepMerge_member (deepMergeProperties_fuel (depth (JObj pc))) a (name, sv) = Ret a'
    /\ prop p name = prop (JObj a') name.
Proof.
  unfold deepMergeProperties. cbn [deepMergeProperties_fuel truthy typeof_object negb orb].
  unfold spread_onto. cbn [own_entries bind]. intros E Ht Hp Ha.
  apply bind_Ret in E as (r & E & X). injection X as <-.
  destruct (foldM_at_key _ (deepMerge_member_other _) pc _ _ (name, sv) Hp
              (assoc_In _ _ _ Ha) E) as (a & a' & Ea & Ef & Ea').
  cbn [fst] in *. exists a, a'. unfold prop. rewrite Ea, Ea'.
  rewrite assoc_fold_define by exact Ht. split; [| now split].
  destruct (assoc name tm); reflexivity.
Qed.

Lemma deepMergeProperties_kept tm pc p name :
  deepMergeProperties (JObj tm) (JObj pc) = Ret p ->
  NoDup (map fst tm) -> assoc name pc = None ->
  prop p name = prop (JObj tm) name.
Proof.
  unfold deepMergeProperties. cbn [deepMergeProperties_fuel truthy typeof_object negb orb].
  unfold spread_onto. cbn [own_entries bind]. intros E Ht Ha.
  apply bind_Ret in E as (r & E & X). injection X as <-.
  unfold prop.
  rewrite (foldM_untouched _ (deepMerge_member_other _) name pc _ _
             (proj1 (assoc_None_notin _ _) Ha) E).
  rewrite assoc_fold_define by exact Ht. destruct (assoc name tm); reflexivity.
Qed.

Lemma isObjectSchema_object v : isObjectSchema v = true -> exists m, v = JObj m.
Proof.
  unfold isObjectSchema. destruct v as [| | b | n | s | l | m]; [| | | | | | now eauto];
    cbn [typeof_object is_array negb]; rewrite ?andb_false_r; simpl; discriminate.
Qed.

Lemma spread_elements_required v l :
  spread_elements (prop v "required") = Ret l -> l = required_of v.
Proof.
  unfold spread_elements, required_of, or_else.
  destruct (prop v "required") as [| | [|] | n | s | r | m];
    try (simpl; intros E; (discriminate E || now injection E as <-));
    destruct (truthy _); intros E; try discriminate E; now injection E as <-.
Qed.

Lemma required_of_falsy v : truthy (prop v "required") = false -> required_of v = [].
Proof. unfold required_of. destruct (prop v "required"); try reflexivity. discriminate. Qed.

(** The step of [deepMergeProperties] at a property that both sides
    describe by an object schema. *)
Lemma deepMerge_member_both rec a name tm sm a' :
  isObjectSchema (JObj tm) && isObjectSchema (JObj sm) = true ->
  prop (JObj a) name = JObj tm ->
  NoDup (map fst tm) -> NoDup (map fst sm) ->
  deepMerge_member rec a (name, JObj sm) = Ret a' ->
  exists props merged,
    rec (prop (JObj tm) "properties") (prop (JObj sm) "properties") = Ret props
    /\ prop (JObj a') name = JObj merged
    /\ assoc "properties" merged = Some props
    /\ (forall k, k <> "properties" -> k <> "required" ->
          assoc k merged = match assoc k sm with Some v => Some v | None => assoc k tm end)
    /\ (forall x, by_reference x = false ->
          (In x (required_of (JObj merged))
           <-> In x (required_of (JObj tm)) \/ In x (required_of (JObj sm)))).
Proof.
  intros Hb Ht Ntm Nsm. unfold deepMerge_member. rewrite Ht, Hb.
  unfold spread_onto. cbn [own_entries bind]. intros E.
  apply bind_Ret in E as (props & Ep & E).
  set (m1 := fold_left (fun acc kv => define (fst kv) (snd kv) acc) sm
               (fold_left (fun acc kv => define (fst kv) (snd kv) acc) tm [])) in E.
  assert (A1 : forall k, assoc k m1 = match assoc k sm with
                                      | Some v => Some v
                                      | None => assoc k tm
                                      end).
  { intros k. unfold m1. rewrite !assoc_fold_define by assumption.
    destruct (assoc k sm); [reflexivity|]. destruct (assoc k tm); reflexivity. }
  apply bind_Ret in E as (m3 & E3 & E).
  exists props, m3. split; [exact Ep|].
  split; [unfold prop; now rewrite (assign_same _ _ _ _ E)|].
  assert (R1 : required_of (JObj (define "properties" props m1))
               = match assoc "required" sm with
                 | Some _ => required_of (JObj sm)
                 | None => required_of (JObj tm)
                 end).
  { unfold required_of, prop. rewrite assoc_define_other by discriminate. rewrite A1.
    destruct (assoc "required" sm); reflexivity. }
  destruct (truthy (prop (JObj tm) "required") || truthy (prop (JObj sm) "required")) eqn:Tr.
  - apply bind_Ret in E3 as (treq & Et & E3). apply bind_Ret in E3 as (sreq & Es & E3).
    apply bind_Ret in E3 as (mr & Em & E3). injection E3 as <-.
    apply spread_elements_required in Et, Es. subst treq sreq.
    assert (U : forall x, by_reference x = false ->
                          (In x mr <-> In x (required_of (JObj tm))
                                       \/ In x (required_of (JObj sm)))).
    { intros x Hx. rewrite (foldM_set_add_In _ _ _ _ Hx Em), in_app_iff. simpl. tauto. }
    destruct mr as [| r0 mr].
    + split; [apply assoc_define_same|]. split.
      * intros k N1 N2. rewrite assoc_define_other by exact N1. apply A1.
      * intros x Hx. rewrite R1. pose proof (U x Hx) as Ux. simpl in Ux.
        destruct (assoc "required" sm); split; try tauto; intros Hin; exfalso; tauto.
    + split; [rewrite assoc_define_other by discriminate; apply assoc_define_same|].
      split.
      * intros k N1 N2. rewrite !assoc_define_other by assumption. apply A1.
      * intros x Hx. rewrite <- (U x Hx). unfold required_of, prop.
        now rewrite assoc_define_same.
  - injection E3 as <-. apply orb_false_iff in Tr as [T1 T2].
    split; [apply assoc_define_same|]. split.
    + intros k N1 N2. rewrite assoc_define_other by exact N1. apply A1.
    + intros x Hx. rewrite R1, (required_of_falsy _ T1), (required_of_falsy _ T2).
      destruct (assoc "required" sm); simpl; tauto.
Qed.

(** What [merge_properties] merges: the properties collected so far, or
    an empty object, with the properties of the sub-schema. *)
Lemma merge_properties_object {H : Host} st merged required c pc m1 :
  merge_inv st (merged, required) ->
  merge_properties merged (JObj c) = Ret m1 ->
  prop (JObj c) "properties" = JObj pc ->
  exists tm p,
    NoDup (map fst tm)
    /\ (forall name, prop (JObj tm) name = prop (prop (JObj merged) "properties") name)
    /\ deepMergeProperties (JObj tm) (JObj pc) = Ret p
    /\ prop (JObj m1) "properties" = p.
Proof.
  intros (Hp & Hr & Href & Hprops & Hs) E Epc. cbn [fst snd] in *.
  unfold merge_properties in E. rewrite Epc in E. cbn [truthy] in E.
  apply bind_Ret in E as (m0 & E0 & E). apply bind_Ret in E as (p & Ed & E).
  assert (T : exists tm, prop (JObj m0) "properties" = JObj tm /\ NoDup (map fst tm)
                         /\ forall name, prop (JObj tm) name
                                         = prop (prop (JObj merged) "properties") name).
  { unfold prop in E0 |- *. destruct (assoc "properties" merged) as [q |] eqn:Eq.
    - destruct Hprops as (pm & -> & Hpm). cbn [truthy negb] in E0. injection E0 as <-.
      rewrite Eq. exists pm. split; [reflexivity|]. split; [apply Hpm | reflexivity].
    - cbn [truthy negb] in E0. apply assign_Ret in E0 as ->.
      rewrite assoc_define_same. exists []. split; [reflexivity|].
      split; [constructor | reflexivity]. }
  destruct T as (tm & Et & Nt & Ht). rewrite Et in Ed.
  exists tm, p. split; [exact Nt|]. split; [exact Ht|]. split; [exact Ed|].
  unfold prop. now rewrite (assign_same _ _ _ _ E).
Qed.
Lemma copy_keyword_required acc kv acc' :
  copy_keyword acc kv = Ret acc' -> assoc "required" acc' = assoc "required" acc.
Proof.
  unfold copy_keyword.
  destruct (String.eqb_spec (fst kv) "required") as [E | N];
    rewrite ?andb_false_r; cbn [negb].
  - intros X. now injection X as <-.
  - destruct (negb (String.eqb (fst kv) "properties")); cbn [andb]; intros X.
    + apply assign_Ret in X as ->. apply assoc_define_other. congruence.
    + now injection X as <-.
Qed.

Lemma json_eqb_refl_value x : by_reference x = false -> json_eqb x x = true.
Proof.
  destruct x as [| | [|] | [z | f r] | s | l | m]; try reflexivity; try discriminate; intros _.
  - apply Z.eqb_refl.
  - simpl. now rewrite Z.eqb_refl, String.eqb_refl.
  - apply String.eqb_refl.
Qed.

Lemma set_has_false_notin seen x : set_has seen x = Ret false -> ~ In x seen.
Proof.
  unfold set_has. destruct (by_reference x) eqn:B.
  - destruct (existsb by_reference seen) eqn:E; [discriminate|]. intros _ Hin.
    assert (X : existsb by_reference seen = true)
      by (apply existsb_exists; now exists x).
    congruence.
  - intros E Hin. injection E as E.
    assert (X : existsb (json_eqb x) seen = true)
      by (apply existsb_exists; exists x; split; [exact Hin | now apply json_eqb_refl_value]).
    congruence.
Qed.

Lemma set_add_NoDup seen x seen' : NoDup seen -> set_add seen x = Ret seen' -> NoDup seen'.
Proof.
  intros Hn E. unfold set_add in E. apply bind_Ret in E as (h & Eh & E).
  injection E as <-. destruct h; [exact Hn|].
  apply NoDup_app; [exact Hn | repeat constructor; simpl; tauto |].
  intros y Hy [Ey | []]. subst y. now apply (set_has_false_notin _ _ Eh).
Qed.


Lemma mergeAllOf_step_required (H : Host) st s subSchema s' :
  mergeAllOf_step st s subSchema = Ret s' ->
  assoc "required" (fst s) = None -> NoDup (snd s) ->
  assoc "required" (fst s') = None /\ NoDup (snd s').
Proof.
  unfold mergeAllOf_step. intros E Hr Hn.
  apply bind_Ret in E as (resolved & _ & E).
  destruct (negb (truthy resolved) || negb (typeof_object resolved));
    [injection E as <-; now split|].
  apply bind_Ret in E as (m1 & E1 & E). apply bind_Ret in E as (r1 & E2 & E).
  apply bind_Ret in E as (m2 & E3 & E). injection E as <-. cbn [fst snd]. split.
  - unfold merge_keywords in E3. apply bind_Ret in E3 as (entries & _ & E3).
    assert (R1 : assoc "required" m1 = None).
    { unfold merge_properties in E1.
      destruct (truthy (prop resolved "properties")); [| now injection E1 as <-].
      apply bind_Ret in E1 as (m0 & E0 & E1). apply bind_Ret in E1 as (p & _ & E1).
      apply assign_Ret in E1 as ->. rewrite assoc_define_other by discriminate.
      destruct (negb (truthy (prop (JObj (fst s)) "properties")));
        [| now injection E0 as <-].
      apply assign_Ret in E0 as ->. now rewrite assoc_define_other by discriminate. }
    eapply (foldM_invariant (fun m => assoc "required" m = None)); [| exact R1 | exact E3].
    intros a kv a' Ha Ek. now rewrite (copy_keyword_required _ _ _ Ek).
  - unfold merge_required in E2.
    destruct (prop resolved "required"); try (now injection E2 as <-).
    eapply (foldM_invariant (@NoDup json)); [| exact Hn | exact E2].
    intros a x a' Ha Ex. eapply set_add_NoDup; eauto.
Qed.

(** C5.  The allOf merge is a fold over the sub-schemas, so it is
    associative: when the sub-schemas [l] are objects, merging [l], and
    then merging the result [M] with one more schema [C], gives what
    merging [l ++ [C]] directly gives, the same value under every keyword,
    [required] included, and a [properties] object with the same members.
    [required] is the union of the [required] arrays of the sub-schemas,
    each name once.
    [properties] is merged key by key: a property that [C] does not
    describe keeps its schema; a property that both [M] and [C] describe
    by an object schema gets their recursive merge ([properties] merged
    again, [required] united, the other keywords from [C] first); and any
    other property of [C] takes the schema [C] gives it, whatever [M] said
    of it.  A keyword of [C] other than [properties] and [required] ends
    with [C]'s value. *)
Theorem allOf_merge_is_a_fold {H : Host} (st : json) (l : list json) (C M R : json) :
  Forall wf_schema l ->
  mergeAllOfSchemas st (JArr l) = Ret M ->
  mergeAllOfSchemas st (JArr (l ++ [C])) = Ret R ->
  (exists R', mergeAllOfSchemas st (JArr [M; C]) = Ret R'
              /\ (forall k, k <> "properties" -> prop R' k = prop R k)
              /\ is_undefined (prop R' "properties") = is_undefined (prop R "properties")
              /\ (forall name, prop (prop R' "properties") name
                               = prop (prop R "properties") name))
  /\ (forall c k v,
        resolveSchema st C = Ret (JObj c) -> NoDup (map fst c) ->
        assoc k c = Some v -> k <> "properties" -> k <> "required" ->
        prop R k = v)
  /\ (forall c pc name sv,
        resolveSchema st C = Ret (JObj c) ->
        prop (JObj c) "properties" = JObj pc -> NoDup (map fst pc) ->
        assoc name pc = Some sv -> isObjectSchema sv = false ->
        prop (prop R "properties") name = sv)
  /\ NoDup (required_of R)
  /\ (forall x, by_reference x = false ->
        (In x (required_of R)
         <-> exists subSchema, In subSchema (l ++ [C]) /\ requires st x subSchema))
  /\ (forall c pc name,
        resolveSchema st C = Ret (JObj c) ->
        prop (JObj c) "properties" = JObj pc -> NoDup (map fst pc) ->
        match assoc name pc with
        | None => prop (prop R "properties") name = prop (prop M "properties") name
        | Some sv =>
            if isObjectSchema (prop (prop M "properties") name) && isObjectSchema sv then
              forall tm sm,
                prop (prop M "properties") name = JObj tm -> sv = JObj sm ->
                NoDup (map fst tm) -> NoDup (map fst sm) ->
                exists props merged,
                  deepMergeProperties (prop (JObj tm) "properties")
                                      (prop (JObj sm) "properties") = Ret props
                  /\ prop (prop R "properties") name = JObj merged
                  /\ assoc "properties" merged = Some props
                  /\ (forall k, k <> "properties" -> k <> "required" ->
                        assoc k merged = match assoc k sm with
                                         | Some v => Some v
                                         | None => assoc k tm
                                         end)
                  /\ (forall x, by_reference x = false ->
                        (In x (required_of (JObj merged))
                         <-> In x (required_of (JObj tm)) \/ In x (required_of (JObj sm))))
            else prop (prop R "properties") name = sv
        end).
Proof.
  intros Hl EM ER. rewrite mergeAllOfSchemas_fold in EM, ER.
  apply bind_Ret in EM as (s & Es & EM). injection EM as <-.
  pose proof ER as ER0.
  rewrite foldM_app, Es in ER. cbn [bind foldM] in ER.
  apply bind_Ret in ER as (s2 & E2 & ER). injection ER as <-.
  apply bind_Ret in E2 as (s2' & E2 & X). injection X as ->.
  pose proof (merge_fold_inv st l _ _ Hl (merge_inv_start st) Es) as Hi.
  destruct s as [m r].
  destruct (merged_again st m r Hi) as (m' & Eagain & Ha).
  destruct (related_Ret _ _ _ _ (mergeAllOf_step_alike st m m' r C Ha) E2)
    as (s3 & E3 & Ha3 & Hr3).
  assert (Wp : forall c m1, foldM copy_keyword c m1 = Ret (fst s2) ->
                            prop (JObj (fst s2)) "properties" = prop (JObj m1) "properties").
  { intros c m1 Ek. unfold prop.
    replace (assoc "properties" (fst s2)) with (assoc "properties" m1); [reflexivity|].
    symmetry.
    eapply (foldM_invariant (fun x => assoc "properties" x = assoc "properties" m1));
      [| reflexivity | exact Ek].
    intros x kv x' Hx Ec. rewrite <- Hx. eapply copy_keyword_properties; eauto. }
  assert (Ef : foldM (mergeAllOf_step st) (l ++ [C]) ([], []) = Ret s2).
  { rewrite foldM_app, Es. cbn [bind foldM]. now rewrite E2. }
  assert (Hr2 : assoc "required" (fst s2) = None /\ NoDup (snd s2)).
  { eapply (foldM_invariant (fun s => assoc "required" (fst s) = None /\ NoDup (snd s)));
      [| | exact Ef]; [| split; [reflexivity | constructor]].
    intros a x a' [Ha0 Hn0] Ex. eapply mergeAllOf_step_required; eauto. }
  split; [| split; [| split; [| split; [| split]]]].
  - exists (finalize s3). rewrite mergeAllOfSchemas_fold. cbn [foldM].
    rewrite Eagain. cbn [bind]. rewrite E3. cbn [bind].
    split; [reflexivity|]. now apply finalize_alike.
  - intros c k v Er Hn Ha' Np Nr.
    destruct (mergeAllOf_step_object st _ _ _ _ E2 Er) as (m1 & _ & Ek).
    rewrite finalize_prop by exact Nr.
    assert (Hk : is_keyword k = true).
    { unfold is_keyword.
      destruct (String.eqb_spec k "properties"); [contradiction|].
      destruct (String.eqb_spec k "required"); [contradiction | reflexivity]. }
    pose proof (foldM_last_wins copy_keyword (fun kv => is_keyword (fst kv) = true)
                  copy_keyword_other copy_keyword_same
                  c m1 (fst s2) Hn Ek (k, v) (assoc_In _ _ _ Ha') Hk) as W.
    cbn [fst snd] in W. unfold prop. now rewrite W.
  - intros c pc name sv Er Ep Hn Ha' Hs.
    destruct (mergeAllOf_step_object st _ _ _ _ E2 Er) as (m1 & E1 & Ek).
    rewrite finalize_prop by discriminate. rewrite (Wp _ _ Ek).
    eapply merge_properties_last; eauto.
  - rewrite (required_of_finalize _ (proj1 Hr2)). apply Hr2.
  - intros x Hx. rewrite (required_of_finalize _ (proj1 Hr2)).
    rewrite (merge_fold_In st x _ _ _ Hx Ef). cbn [snd].
    split; [intros [[] | X]; exact X | intros X; now right].
  - intros c pc name Er Ep Hn.
    destruct (mergeAllOf_step_object st _ _ _ _ E2 Er) as (m1 & E1 & Ek).
    destruct (merge_properties_object st m r c pc m1 Hi E1 Ep)
      as (tm0 & p & Nt & Ht & Ed & Ep1).
    rewrite !finalize_prop by discriminate. rewrite (Wp _ _ Ek), Ep1. cbn [fst].
    rewrite <- Ht.
    destruct (assoc name pc) as [sv |] eqn:Ea.
    + destruct (deepMergeProperties_at _ _ _ _ _ Ed Nt Hn Ea) as (a & a' & Ea0 & Em0 & Ea').
      rewrite Ea', <- Ea0.
      destruct (isObjectSchema (prop (JObj a) name) && isObjectSchema sv) eqn:B.
      * intros tm sm Etv -> Ntm Nsm. rewrite Etv in B.
        destruct (deepMerge_member_both _ a name tm sm a' B Etv Ntm Nsm Em0)
          as (props & merged & Erec & Em & Rest).
        exists props, merged. split; [| split; [exact Em | exact Rest]].
        rewrite <- Erec. unfold deepMergeProperties. apply deepMerge_enough; [lia|].
        pose proof (depth_member _ _ (assoc_In _ _ _ Ea)) as D1.
        pose proof (depth_prop (JObj sm) "properties") as D2. cbn [snd] in D1. lia.
      * unfold deepMerge_member in Em0. rewrite B in Em0.
        unfold prop. now rewrite (assign_same _ _ _ _ Em0).
    + eapply deepMergeProperties_kept; eauto.
Qed.

Definition sA : json :=
  JObj [("title", JStr "a");
        ("properties", JObj [("x", JObj [("type", JStr "string")]);
                             ("y", JObj [("type", JStr "object");
                                         ("properties", JObj [("p", JObj [("type", JStr "string")])])])]);
        ("required", JArr [JStr "x"])].

Definition sB : json :=
  JObj [("description", JStr "b");
        ("properties", JObj [("y", JObj [("type", JStr "object");
                                         ("properties", JObj [("q", JObj [("type", JStr "number")])]);
                                         ("required", JArr [JStr "q"])])]);
        ("required", JArr [JStr "y"; JStr "x"])].

Definition sC_properties : list (string * json) :=
  [("x", JObj [("type", JStr "number")]);
   ("y", JObj [("type", JStr "object");
               ("properties", JObj [("r", JObj [("type", JStr "boolean")])]);
               ("required", JArr [JStr "r"])]);
   ("z", JObj [("type", JStr "boolean")])].

Definition sC_members : list (string * json) :=
  [("title", JStr "c");
   ("properties", JObj sC_properties);
   ("required", JArr [JStr "z"])].

Definition sC : json := JObj sC_members.

Definition value_of_run (r : outcome json) : json :=
  match r with Ret v => v | _ => JUndefined end.

Definition mAB : json :=
  Eval vm_compute in value_of_run (mergeAllOfSchemas (H := example_host) JNull (JArr [sA; sB])).

Definition mABC : json :=
  Eval vm_compute in
    value_of_run (mergeAllOfSchemas (H := example_host) JNull (JArr ([sA; sB] ++ [sC]))).

Lemma allOf_merge_is_a_fold_witness :
  Forall wf_schema [sA; sB]
  /\ mergeAllOfSchemas (H := example_host) JNull (JArr [sA; sB]) = Ret mAB
  /\ mergeAllOfSchemas (H := example_host) JNull (JArr ([sA; sB] ++ [sC])) = Ret mABC
  /\ (exists R', mergeAllOfSchemas (H := example_host) JNull (JArr [mAB; sC]) = Ret R'
                 /\ (forall k, k <> "properties" -> prop R' k = prop mABC k)
                 /\ is_undefined (prop R' "properties") = is_undefined (prop mABC "properties")
                 /\ (forall name, prop (prop R' "properties") name
                                  = prop (prop mABC "properties") name))
  /\ prop mABC "title" = JStr "c"
  /\ prop (prop mABC "properties") "x" = JObj [("type", JStr "number")]
  /\ (In (JStr "z") (required_of mABC)
      <-> exists subSchema, In subSchema ([sA; sB] ++ [sC])
                            /\ requires (H := example_host) JNull (JStr "z") subSchema)
  /\ (exists props merged,
        deepMergeProperties
          (JObj [("p", JObj [("type", JStr "string")]);
                 ("q", JObj [("type", JStr "number")])])
          (JObj [("r", JObj [("type", JStr "boolean")])]) = Ret props
        /\ prop (prop mABC "properties") "y" = JObj merged
        /\ assoc "properties" merged = Some props).
Proof.
  assert (W : Forall wf_schema [sA; sB]).
  { repeat constructor; simpl; intuition discriminate. }
  assert (E1 : mergeAllOfSchemas (H := example_host) JNull (JArr [sA; sB]) = Ret mAB)
    by (vm_compute; reflexivity).
  assert (E2 : mergeAllOfSchemas (H := example_host) JNull (JArr ([sA; sB] ++ [sC])) = Ret mABC)
    by (vm_compute; reflexivity).
  assert (Er : resolveSchema (H := example_host) JNull sC = Ret (JObj sC_members))
    by (vm_compute; reflexivity).
  assert (Np : NoDup (map fst sC_properties))
    by (repeat constructor; simpl; intuition discriminate).
  destruct (allOf_merge_is_a_fold (H := example_host) JNull [sA; sB] sC mAB mABC W E1 E2)
    as (T1 & T2 & T3 & _ & T4 & T5).
  split; [exact W|]. split; [exact E1|]. split; [exact E2|]. split; [exact T1|].
  split; [| split; [| split]].
  - apply (T2 sC_members "title" (JStr "c") Er); try discriminate; try reflexivity.
    repeat constructor; simpl; intuition discriminate.
  - apply (T3 sC_members sC_properties "x" (JObj [("type", JStr "number")]) Er);
      try reflexivity. exact Np.
  - exact (T4 (JStr "z") eq_refl).
  - pose proof (T5 sC_members sC_properties "y" Er eq_refl Np) as Y.
    cbv beta iota in Y.
    change (assoc "y" sC_properties)
      with (Some (JObj [("type", JStr "object");
                        ("properties", JObj [("r", JObj [("type", JStr "boolean")])]);
                        ("required", JArr [JStr "r"])])) in Y.
    cbv beta iota in Y.
    change (isObjectSchema (prop (prop mAB "properties") "y")
            && isObjectSchema (JObj [("type", JStr "object");
                                     ("properties",
                                      JObj [("r", JObj [("type", JStr "boolean")])]);
                                     ("required", JArr [JStr "r"])]))
      with true in Y.
    cbv beta iota in Y.
    destruct (Y _ _ eq_refl eq_refl) as (props & merged & Ep & Em & Ea & _).
    + repeat constructor; simpl; intuition discriminate.
    + repeat constructor; simpl; intuition discriminate.
    + exists props, merged. split; [exact Ep|]. split; [exact Em | exact Ea].
Defined.

Definition only_minLength : json :=
  JObj [("properties", JObj [("x", JObj [("minLength", JNum (Int 3))])])].

Definition only_maxLength : json :=
  JObj [("properties", JObj [("x", JObj [("maxLength", JNum (Int 5))])])].

(** C5 as stated fails: the order of two schemas matters to [properties]
    too, and not only where a keyword is in both.  The two schemas below
    share no keyword but [properties], and the property [x] ends with the
    schema of whichever comes last. *)
Lemma property_order_counterexample :
  mergeAllOfSchemas (H := example_host) JNull (JArr [only_minLength; only_maxLength])
  = Ret only_maxLength
  /\ mergeAllOfSchemas (H := example_host) JNull (JArr [only_maxLength; only_minLength])
     = Ret only_minLength
  /\ only_maxLength <> only_minLength.
Proof.
  split; [vm_compute; reflexivity|]. split; [vm_compute; reflexivity|]. discriminate.
Qed.

(* ================================================================== *)
(** * Further properties of the editor *)

(** ** Field ids *)

Lemma is_alnum_dash : is_alnum "-" = false.
Proof. reflexivity. Qed.

Lemma dash_runs_after_dash path : String.get 0 (dash_runs true path) <> Some "-"%char.
Proof.
  induction path as [| c r IH]; simpl; [discriminate|].
  destruct (is_alnum c) eqn:E; [| exact IH].
  simpl. intros X. injection X as ->. discriminate E.
Qed.

Lemma dash_runs_single path : forall in_run n,
  String.get n (dash_runs in_run path) = Some "-"%char ->
  String.get (S n) (dash_runs in_run path) <> Some "-"%char.
Proof.
  induction path as [| c r IH]; intros in_run n; [destruct n; discriminate|].
  cbn [dash_runs]. destruct (is_alnum c) eqn:E.
  - destruct n as [| n]; cbn [String.get].
    + intros X. injection X as ->. discriminate E.
    + apply IH.
  - destruct in_run; [apply IH|].
    destruct n as [| n]; cbn [String.get].
    + intros _. apply dash_runs_after_dash.
    + apply IH.
Qed.

Lemma dash_runs_chars path : forall in_run,
  forallb (fun c => is_alnum c || Ascii.eqb c "-")
          (list_ascii_of_string (dash_runs in_run path)) = true.
Proof.
  induction path as [| c r IH]; intros in_run; [reflexivity|].
  cbn [dash_runs]. destruct (is_alnum c) eqn:E.
  - cbn [list_ascii_of_string forallb]. now rewrite E, IH.
  - destruct in_run; [apply IH|].
    cbn [list_ascii_of_string forallb]. now rewrite IH.
Qed.

Lemma dash_runs_leading path :
  String.get 0 (dash_runs false path) = Some "-"%char
  <-> exists c r, path = String c r /\ is_alnum c = false.
Proof.
  destruct path as [| c r]; cbn [dash_runs].
  - split; [discriminate | intros (c & r & E & _); discriminate E].
  - destruct (is_alnum c) eqn:E; cbn [String.get].
    + split.
      * intros X. injection X as ->. discriminate E.
      * intros (c' & r' & X & E'). injection X as <- <-. congruence.
    + split; [intros _; now exists c, r | reflexivity].
Qed.

(** X1.  An id is [field-] followed by letters, digits and hyphens, whatever
    the path holds.  After the prefix no two hyphens follow each other, so
    the id has a double hyphen in one place at most, where the prefix meets
    a leading hyphen, and it has one there exactly when the path starts
    with a character that is neither a letter nor a digit. *)
Theorem fieldId_is_clean (path : string) :
  (exists rest,
      fieldId path = "field-" ++ rest
      /\ forallb (fun c => is_alnum c || Ascii.eqb c "-") (list_ascii_of_string rest) = true
      /\ forall n, String.get n rest = Some "-"%char -> String.get (S n) rest <> Some "-"%char)
  /\ (forall n, String.get n (fieldId path) = Some "-"%char ->
                String.get (S n) (fieldId path) = Some "-"%char -> n = 5%nat)
  /\ (String.get 6 (fieldId path) = Some "-"%char
      <-> exists c r, path = String c r /\ is_alnum c = false).
Proof.
  split; [| split].
  - exists (dash_runs false path). split; [reflexivity|]. split.
    + apply dash_runs_chars.
    + apply dash_runs_single.
  - unfold fieldId. intros n A B.
    do 5 (destruct n as [| n]; [discriminate A|]).
    destruct n as [| n]; [reflexivity|].
    exfalso. cbn [append String.get] in A, B.
    exact (dash_runs_single path false n A B).
  - unfold fieldId. cbn [append String.get]. apply dash_runs_leading.
Qed.

Lemma dash_runs_separator a b c1 c2 : forall in_run,
  is_alnum c1 = false -> is_alnum c2 = false ->
  dash_runs in_run (a ++ String c1 b) = dash_runs in_run (a ++ String c2 b).
Proof.
  intros in_run E1 E2. revert in_run.
  induction a as [| c a IH]; intros in_run; cbn [append dash_runs].
  - now rewrite E1, E2.
  - destruct (is_alnum c); [now rewrite IH|].
    destruct in_run; now rewrite IH.
Qed.

(** X2.  Ids do not tell separators apart: two paths that differ in one
    character that is neither a letter nor a digit get the same id. *)
Theorem fieldId_ignores_separator (a b : string) (c1 c2 : ascii) :
  is_alnum c1 = false -> is_alnum c2 = false ->
  fieldId (a ++ String c1 b) = fieldId (a ++ String c2 b).
Proof.
  intros E1 E2. unfold fieldId. f_equal. now apply dash_runs_separator.
Qed.

Lemma fieldId_ignores_separator_witness :
  is_alnum "." = false /\ is_alnum "_" = false
  /\ fieldId (child_path "address" "line1") = fieldId "address_line1".
Proof.
  split; [reflexivity|]. split; [reflexivity|].
  exact (fieldId_ignores_separator "address" "line1" "." "_" eq_refl eq_refl).
Defined.

(** ** Singular names for the Add button *)

Lemma list_ascii_append s t :
  list_ascii_of_string (s ++ t) = (list_ascii_of_string s ++ list_ascii_of_string t)%list.
Proof. induction s as [| c s IH]; simpl; [reflexivity | now rewrite IH]. Qed.

Lemma rev_string_snoc s c :
  rev_string (s ++ String c "") = String c (rev_string s).
Proof.
  unfold rev_string. rewrite list_ascii_append, rev_app_distr. reflexivity.
Qed.

Lemma lower_append s t : lower (s ++ t) = lower s ++ lower t.
Proof. induction s as [| c s IH]; simpl; [reflexivity | now rewrite IH]. Qed.

Lemma append_assoc (s t u : string) : ((s ++ t) ++ u)%string = (s ++ t ++ u)%string.
Proof. induction s as [| c s IH]; simpl; [reflexivity | now rewrite IH]. Qed.

Lemma is_ascii_append s t : is_ascii (s ++ t) = is_ascii s && is_ascii t.
Proof.
  unfold is_ascii. rewrite list_ascii_append, forallb_app. reflexivity.
Qed.

Lemma substring_whole s t : substring 0 (String.length s) (s ++ t) = s.
Proof. induction s as [| c s IH]; simpl; [now destruct t | now rewrite IH]. Qed.

Lemma drop_end_snoc s c : drop_end 1 (s ++ String c "") = s.
Proof.
  unfold drop_end.
  replace (String.length (s ++ String c "") - 1)%nat with (String.length s).
  - apply substring_whole.
  - induction s as [| d s IH]; simpl; [reflexivity|].
    rewrite IH at 1. destruct (String.length (s ++ String c "")) eqn:E; [| lia].
    destruct s; discriminate.
Qed.

(** What [endsWith] sees of a word is the start of the word read backwards. *)
Lemma ends_with_snoc suffix c s d :
  ends_with (suffix ++ String c "") (s ++ String d "")
  = Ascii.eqb c d && ends_with suffix s.
Proof.
  unfold ends_with. rewrite !rev_string_snoc. cbn [String.prefix].
  destruct (Ascii.ascii_dec c d) as [-> | N].
  - now rewrite Ascii.eqb_refl.
  - apply Ascii.eqb_neq in N. now rewrite N.
Qed.

Lemma ends_with_char c s :
  ends_with (String c "") s = match rev_string s with
                              | String d _ => Ascii.eqb c d
                              | EmptyString => false
                              end.
Proof.
  unfold ends_with. change (rev_string (String c "")) with (String c "").
  destruct (rev_string s) as [| d r]; [reflexivity|]. cbn [String.prefix].
  destruct (Ascii.ascii_dec c d) as [-> | N].
  - rewrite Ascii.eqb_refl. now destruct r.
  - apply Ascii.eqb_neq in N. now rewrite N.
Qed.

Lemma ends_with_two a b s :
  ends_with (String a "") s = false ->
  ends_with (String a (String b "")) (s ++ String b "") = false.
Proof.
  intros E. change (String a (String b "")) with (String a "" ++ String b "").
  rewrite ends_with_snoc, E. apply andb_false_r.
Qed.

Lemma ends_with_longer p a b s :
  ends_with (String a "") s = false ->
  ends_with (p ++ String a (String b "")) (s ++ String b "") = false.
Proof.
  intros E.
  replace (p ++ String a (String b "")) with ((p ++ String a "") ++ String b "")
    by (now rewrite append_assoc).
  rewrite ends_with_snoc.
  destruct (rev_string s) as [| d r] eqn:Er.
  - assert (s = "") as ->.
    { unfold rev_string in Er. destruct s as [| x s]; [reflexivity|].
      exfalso. simpl in Er.
      destruct (rev (list_ascii_of_string s)); discriminate. }
    unfold ends_with. rewrite rev_string_snoc.
    change (rev_string "") with "". cbn [String.prefix]. apply andb_false_r.
  - rewrite ends_with_char, Er in E.
    unfold ends_with. rewrite rev_string_snoc, Er. cbn [String.prefix].
    destruct (Ascii.ascii_dec a d) as [-> | N]; [now rewrite Ascii.eqb_refl in E|].
    apply andb_false_r.
Qed.

(** X3.  The plural in [s] is undone: for a word of ASCII letters that ends
    neither in [e] nor in [s], whatever its case, [getSingularForm] takes
    the word with an [s] added back to the word. *)
Theorem getSingularForm_plain_plural (word : string) :
  is_ascii word = true ->
  ends_with "e" (lower word) = false ->
  ends_with "s" (lower word) = false ->
  getSingularForm (word ++ "s") = Ret word.
Proof.
  intros Ha He Hs. unfold getSingularForm.
  assert (N : String.eqb (word ++ "s") "" = false) by (now destruct word).
  rewrite N, is_ascii_append, Ha. cbn [is_ascii list_ascii_of_string forallb andb negb].
  change (Nat.ltb (nat_of_ascii "s") 128) with true. cbn [andb negb].
  rewrite lower_append. change (lower "s") with "s".
  rewrite (ends_with_longer "i" "e" "s" _ He : ends_with "ies" (lower word ++ "s") = false).
  rewrite (ends_with_longer "v" "e" "s" _ He : ends_with "ves" (lower word ++ "s") = false).
  rewrite (ends_with_longer "s" "e" "s" _ He : ends_with "ses" (lower word ++ "s") = false).
  rewrite (ends_with_longer "x" "e" "s" _ He : ends_with "xes" (lower word ++ "s") = false).
  rewrite (ends_with_longer "z" "e" "s" _ He : ends_with "zes" (lower word ++ "s") = false).
  rewrite (ends_with_longer "ch" "e" "s" _ He : ends_with "ches" (lower word ++ "s") = false).
  rewrite (ends_with_longer "sh" "e" "s" _ He : ends_with "shes" (lower word ++ "s") = false).
  cbn [orb].
  rewrite (ends_with_two "s" "s" _ Hs : ends_with "ss" (lower word ++ "s") = false).
  rewrite (ends_with_snoc "" "s" (lower word) "s" : ends_with "s" (lower word ++ "s") = _).
  replace (ends_with "" (lower word)) with true
    by (unfold ends_with; change (rev_string "") with ""; now destruct (rev_string (lower word))).
  cbn [Ascii.eqb Bool.eqb andb negb]. now rewrite drop_end_snoc.
Qed.

Lemma getSingularForm_plain_plural_witness :
  is_ascii "Tag" = true
  /\ ends_with "e" (lower "Tag") = false
  /\ ends_with "s" (lower "Tag") = false
  /\ getSingularForm "Tags" = Ret "Tag".
Proof.
  split; [reflexivity|]. split; [reflexivity|]. split; [reflexivity|].
  exact (getSingularForm_plain_plural "Tag" eq_refl eq_refl eq_refl).
Defined.

(** X4.  A word in double [s] is no plural: an ASCII word that ends in [ss],
    whatever its case, is returned as it is. *)
Theorem getSingularForm_keeps_double_s (word : string) :
  is_ascii word = true ->
  ends_with "ss" (lower word) = true ->
  getSingularForm word = Ret word.
Proof.
  intros Ha Hs. unfold getSingularForm.
  destruct (String.eqb_spec word "") as [-> | N]; [discriminate Hs|].
  rewrite Ha. cbn [negb].
  unfold ends_with in *.
  change (rev_string "ss") with "ss" in Hs.
  change (rev_string "ies") with "sei". change (rev_string "ves") with "sev".
  change (rev_string "ses") with "ses". change (rev_string "xes") with "sex".
  change (rev_string "zes") with "sez". change (rev_string "ches") with "sehc".
  change (rev_string "shes") with "sehs". change (rev_string "s") with "s".
  destruct (rev_string (lower word)) as [| a [| b r]]; try discriminate Hs.
  - cbn [String.prefix] in Hs. destruct (Ascii.ascii_dec "s" a); discriminate.
  - cbn [String.prefix] in Hs |- *.
    destruct (Ascii.ascii_dec "s" a) as [<- |]; [| discriminate].
    destruct (Ascii.ascii_dec "s" b) as [<- |]; [| discriminate].
    cbn. destruct r; reflexivity.
Qed.

Lemma getSingularForm_keeps_double_s_witness :
  is_ascii "Address" = true
  /\ ends_with "ss" (lower "Address") = true
  /\ getSingularForm "Address" = Ret "Address".
Proof.
  split; [reflexivity|]. split; [reflexivity|].
  exact (getSingularForm_keeps_double_s "Address" eq_refl eq_refl).
Defined.

(** ** Validation messages *)

(** X5.  [pointerToReadablePath] undoes the JSON pointer of an instance path:
    the pointer of the segments [segments] reads as the segments joined by
    dots, and as [root] when that is empty. *)
Theorem pointerToReadablePath_of_pointer (segments : list string) :
  pointerToReadablePath (JStr (pointer_of segments))
  = Ret (if String.eqb (join_with "." segments) "" then "root"
         else join_with "." segments).
Proof.
  destruct segments as [| s r]; [reflexivity|].
  unfold pointerToReadablePath. cbn [pointer_of truthy String.eqb negb slice_from].
  rewrite split_pointer, map_map.
  rewrite (map_ext _ (fun x => x) (fun x => unescape_escape x)), map_id.
  reflexivity.
Qed.

Lemma prefix_same p s : String.prefix p (p ++ s) = true.
Proof.
  induction p as [| c p IH]; simpl; [now destruct s|].
  destruct (Ascii.ascii_dec c c); [exact IH | contradiction].
Qed.

Lemma prefix_colon path rest :
  String.prefix (path ++ ": ") (path ++ String ":" (String " " rest)) = true.
Proof.
  induction path as [| c p IH]; simpl.
  - now destruct rest.
  - destruct (Ascii.ascii_dec c c); [exact IH | contradiction].
Qed.

Lemma formatAjvError_path (H : Host) error message :
  formatAjvError error = Ret message ->
  exists path, pointerToReadablePath (prop error "instancePath") = Ret path
               /\ String.prefix (path ++ ": ") message = true.
Proof.
  unfold formatAjvError. intros E.
  destruct error; try discriminate E;
    (apply bind_Ret in E as (path & Ep & E); exists path; split; [exact Ep|]);
    (repeat match type of E with
            | context [if ?x then _ else _] => destruct x
            end);
    try (apply bind_Ret in E as (p & _ & E));
    try (destruct p; try discriminate E);
    injection E as <-; exact (prefix_colon path _).
Qed.

Lemma mapM_Forall2 {A B : Type} (f : A -> outcome B) l : forall ms,
  mapM f l = Ret ms -> Forall2 (fun x m => f x = Ret m) l ms.
Proof.
  induction l as [| x l IH]; simpl; intros ms E.
  - injection E as <-. constructor.
  - apply bind_Ret in E as (y & Ey & E). apply bind_Ret in E as (ys & Eys & E).
    injection E as <-. constructor; auto.
Qed.

(** X6.  Failed validation never shows an empty list: [formatAjvErrors] returns
    at least one line, and for a list of errors it returns one line per
    error, in order, each starting with the readable path of its error. *)
Theorem formatAjvErrors_one_line_each (H : Host) (errors : json) (messages : list string) :
  formatAjvErrors errors = Ret messages ->
  messages <> []
  /\ forall l, errors = JArr l -> l <> [] ->
       Forall2 (fun error message =>
                  exists path,
                    pointerToReadablePath (prop error "instancePath") = Ret path
                    /\ String.prefix (path ++ ": ") message = true)
               l messages.
Proof.
  intros E. split.
  - unfold formatAjvErrors in E.
    destruct errors as [| | | | s | [| e r] | m]; try (injection E as <-; discriminate).
    + destruct (String.eqb s ""); [injection E as <-|]; discriminate.
    + cbn [mapM] in E. apply bind_Ret in E as (y & _ & E).
      apply bind_Ret in E as (ys & _ & E). injection E as <-. discriminate.
    + destruct (truthy (prop (JObj m) "length")); [| injection E as <-]; discriminate.
  - intros l -> Hl. destruct l as [| e r]; [contradiction|].
    unfold formatAjvErrors in E. apply mapM_Forall2 in E.
    eapply Forall2_impl; [| exact E].
    intros error message Em. exact (formatAjvError_path H error message Em).
Qed.

Definition missing_b : json :=
  JObj [("instancePath", JStr "/items/0"); ("keyword", JStr "required");
        ("params", JObj [("missingProperty", JStr "b")])].

Lemma formatAjvErrors_one_line_each_witness :
  formatAjvErrors (H := example_host) (JArr [missing_b])
  = Ret ["items.0: missing required property " ++ quote ++ "b" ++ quote ++ "."]
  /\ ["items.0: missing required property " ++ quote ++ "b" ++ quote ++ "."] <> []
  /\ String.prefix "items.0: "
       ("items.0: missing required property " ++ quote ++ "b" ++ quote ++ ".") = true.
Proof.
  assert (E : formatAjvErrors (H := example_host) (JArr [missing_b])
              = Ret ["items.0: missing required property " ++ quote ++ "b" ++ quote ++ "."])
    by reflexivity.
  split; [exact E|]. split.
  - exact (proj1 (formatAjvErrors_one_line_each example_host _ _ E)).
  - reflexivity.
Defined.

(** ** Labels of variants *)

Lemma reference_option_label (H : Host) state_schema ref index :
  getOneOfOptionLabel state_schema (JObj [("$ref", ref)]) index = Ret (option_number index).
Proof. reflexivity. Qed.

Lemma reference_labels_from (H : Host) state_schema refs : forall start,
  mapM (fun io => getOneOfOptionLabel state_schema (snd io) (fst io))
       (combine (seq start (List.length refs)) (map (fun r => JObj [("$ref", r)]) refs))
  = Ret (map option_number (seq start (List.length refs))).
Proof.
  induction refs as [| r refs IH]; intros start; [reflexivity|].
  cbn [List.length seq map combine mapM fst snd].
  rewrite reference_option_label. cbn [bind]. rewrite IH. reflexivity.
Qed.

(** X7.  Variants given by reference are not told apart in the selector: the
    label of a variant is read off the variant as written, without
    resolving it, so a list of variants that are each only a [$ref] gets the
    labels [Option 1], [Option 2], ... whatever titles the loaded document
    has under the references. *)
Theorem reference_variants_get_numbered_labels (H : Host) (state_schema : json)
        (refs : list json) :
  oneOf_labels state_schema (map (fun r => JObj [("$ref", r)]) refs)
  = Ret (map option_number (seq 0 (List.length refs))).
Proof.
  unfold oneOf_labels. rewrite length_map. apply reference_labels_from.
Qed.

Definition circle_document : json :=
  JObj [("$defs", JObj [("Circle", JObj [("title", JStr "Circle")])])].

(** ** The address bar *)

Lemma params_get_delete_same name q : params_get name (params_delete name q) = None.
Proof.
  induction q as [| [k v] q IH]; simpl; [reflexivity|].
  destruct (String.eqb k name) eqn:E; simpl; [exact IH | now rewrite E].
Qed.

Lemma params_get_delete_other name name' q :
  name' <> name -> params_get name' (params_delete name q) = params_get name' q.
Proof.
  intros N. induction q as [| [k v] q IH]; simpl; [reflexivity|].
  destruct (String.eqb_spec k name) as [-> | Nk]; simpl.
  - destruct (String.eqb_spec name name'); [congruence | exact IH].
  - now rewrite IH.
Qed.

Lemma params_get_set_same name value q : params_get name (params_set name value q) = Some value.
Proof.
  induction q as [| [k v] q IH]; simpl.
  - now rewrite String.eqb_refl.
  - destruct (String.eqb k name) eqn:E; simpl; now rewrite E.
Qed.

Lemma params_get_set_other name name' value q :
  name' <> name -> params_get name' (params_set name value q) = params_get name' q.
Proof.
  intros N. induction q as [| [k v] q IH]; simpl.
  - destruct (String.eqb_spec name name'); [congruence | reflexivity].
  - destruct (String.eqb_spec k name) as [-> | Nk]; simpl.
    + destruct (String.eqb_spec name name'); [congruence|].
      now apply params_get_delete_other.
    + now rewrite IH.
Qed.

(** X8.  What [updateURL] writes, the two readers read back: the tool when it
    is one of the two the page has (and [formatter] for anything else), and
    the schema URL when one is given; without one, the URL in the address
    bar stays if the schema came from a URL and goes otherwise. *)
Theorem updateURL_read_back (schemaFromUrl : bool) (tool schemaUrl : string) (q : query) :
  getToolFromURL (updateURL schemaFromUrl tool schemaUrl q)
  = (if existsb (String.eqb tool) ["formatter"; "schema"] then tool else "formatter")
  /\ getSchemaUrlFromURL (updateURL schemaFromUrl tool schemaUrl q)
     = (if negb (String.eqb schemaUrl "") then Some schemaUrl
        else if schemaFromUrl then getSchemaUrlFromURL q else None).
Proof.
  unfold getToolFromURL, getSchemaUrlFromURL, updateURL. split.
  - assert (T : params_get "tool"
                  (if String.eqb tool "formatter" then params_delete "tool" q
                   else params_set "tool" tool q)
                = if String.eqb tool "formatter" then None else Some tool).
    { destruct (String.eqb tool "formatter");
        [apply params_get_delete_same | apply params_get_set_same]. }
    destruct (negb (String.eqb schemaUrl "")); [| destruct (negb schemaFromUrl)];
      rewrite ?params_get_set_other, ?params_get_delete_other by discriminate;
      rewrite T; destruct (String.eqb_spec tool "formatter") as [-> | N]; try reflexivity.
  - destruct (negb (String.eqb schemaUrl "")); [apply params_get_set_same|].
    destruct schemaFromUrl; cbn [negb]; [| apply params_get_delete_same].
    destruct (String.eqb tool "formatter");
      [apply params_get_delete_other | apply params_get_set_other]; discriminate.
Qed.

(** ** Names of saved files *)

Definition is_name_char (c : ascii) : bool :=
  is_lower c || is_digit c || Ascii.eqb c "_" || Ascii.eqb c "-".

Lemma lower_underscore_char c :
  is_name_char (lower_char (if is_alnum c || Ascii.eqb c "_" || Ascii.eqb c "-"
                            then c else "_"%char)) = true.
Proof.
  destruct c as [[] [] [] [] [] [] [] []]; vm_compute; reflexivity.
Qed.

Lemma lower_list s : list_ascii_of_string (lower s) = map lower_char (list_ascii_of_string s).
Proof. induction s as [| c s IH]; simpl; [reflexivity | now rewrite IH]. Qed.

Lemma lower_length s : String.length (lower s) = String.length s.
Proof. induction s as [| c s IH]; simpl; [reflexivity | now rewrite IH]. Qed.

Lemma string_of_list_length l : String.length (string_of_list_ascii l) = List.length l.
Proof. induction l as [| c l IH]; simpl; [reflexivity | now rewrite IH]. Qed.

Lemma list_of_string_length s : List.length (list_ascii_of_string s) = String.length s.
Proof. induction s as [| c s IH]; simpl; [reflexivity | now rewrite IH]. Qed.

Lemma substring_start_length n s :
  String.length (substring 0 n s) = Nat.min (String.length s) n.
Proof.
  revert s. induction n as [| n IH]; intros [| c s]; simpl; try reflexivity.
  now rewrite IH.
Qed.

Lemma substring_start_forallb (P : ascii -> bool) n s :
  forallb P (list_ascii_of_string s) = true ->
  forallb P (list_ascii_of_string (substring 0 n s)) = true.
Proof.
  revert s. induction n as [| n IH]; intros [| c s]; simpl; try reflexivity.
  intros E. apply andb_true_iff in E as [E1 E2]. now rewrite E1, IH.
Qed.

Lemma replace_first_T_forallb (P : ascii -> bool) s :
  P "_"%char = true ->
  forallb P (list_ascii_of_string s) = true ->
  forallb P (list_ascii_of_string (replace_first_T s)) = true.
Proof.
  intros Hu. induction s as [| c s IH]; simpl; [reflexivity|].
  intros E. apply andb_true_iff in E as [E1 E2].
  destruct (Ascii.eqb c "T"); simpl; [now rewrite Hu | now rewrite E1, IH].
Qed.

(** X9.  A saved file is named after the schema without taking anything
    unsafe from its name: the name is cut to 50 characters, all of them
    lower-case letters, digits, [_] or [-], and it is followed by [_], a time
    stamp of at most 19 characters with no [:] and no [.] in it, and
    [.json]. *)
Theorem saveSchemaJson_filename_is_safe (iso name : string) :
  name <> "" ->
  exists base,
    saveSchemaJson_filename iso (JStr name) = Some (base ++ "_" ++ timestamp iso ++ ".json")
    /\ String.length base = Nat.min (String.length name) 50
    /\ forallb is_name_char (list_ascii_of_string base) = true
    /\ String.length (timestamp iso) <= 19
    /\ forallb (fun c => negb (Ascii.eqb c ":" || Ascii.eqb c "."))
               (list_ascii_of_string (timestamp iso)) = true.
Proof.
  intros N. exists (substring 0 50 (lower (underscore_unsafe name))).
  split; [| split; [| split; [| split]]].
  - unfold saveSchemaJson_filename. cbn [truthy].
    destruct (String.eqb_spec name ""); [contradiction | reflexivity].
  - rewrite substring_start_length, lower_length. unfold underscore_unsafe.
    now rewrite string_of_list_length, length_map, list_of_string_length.
  - apply substring_start_forallb. rewrite lower_list. unfold underscore_unsafe.
    rewrite list_ascii_of_string_of_list_ascii, map_map, forallb_forall.
    intros c Hc. apply in_map_iff in Hc as (x & <- & _). apply lower_underscore_char.
  - unfold timestamp. rewrite substring_start_length. apply Nat.le_min_r.
  - unfold timestamp. apply substring_start_forallb.
    apply replace_first_T_forallb; [reflexivity|].
    rewrite list_ascii_of_string_of_list_ascii, forallb_forall.
    intros c Hc. apply in_map_iff in Hc as (x & <- & _).
    destruct (Ascii.eqb x ":" || Ascii.eqb x ".") eqn:E; [reflexivity|].
    now rewrite E.
Qed.

Lemma saveSchemaJson_filename_is_safe_witness :
  "My Schema/v2" <> ""
  /\ saveSchemaJson_filename "2025-01-02T03:04:05.678Z" (JStr "My Schema/v2")
     = Some "my_schema_v2_2025-01-02_03-04-05.json".
Proof.
  split; [discriminate|].
  destruct (saveSchemaJson_filename_is_safe "2025-01-02T03:04:05.678Z" "My Schema/v2")
    as (base & E & _); [discriminate|].
  reflexivity.
Defined.

(** ** Quick-select words *)

(** Each word before the next, in the order of [sort]. *)
Fixpoint ascending (l : list string) : bool :=
  match l with
  | x :: r => match r with
              | y :: _ => String.ltb x y && ascending r
              | [] => true
              end
  | [] => true
  end.

Lemma add_word_In w l x : In x (add_word l w) <-> In x l \/ x = w.
Proof.
  unfold add_word. destruct (existsb (String.eqb w) l) eqn:E.
  - split; [tauto|]. intros [Hx | ->]; [exact Hx|].
    apply existsb_exists in E as (y & Hy & Ey). apply String.eqb_eq in Ey. now subst.
  - rewrite in_app_iff. simpl. intuition.
Qed.

Lemma add_word_NoDup w l : NoDup l -> NoDup (add_word l w).
Proof.
  intros Hn. unfold add_word. destruct (existsb (String.eqb w) l) eqn:E; [exact Hn|].
  apply NoDup_app; [exact Hn | repeat constructor; simpl; tauto |].
  intros x Hx [Ex | []]. subst x.
  assert (X : existsb (String.eqb w) l = true)
    by (apply existsb_exists; exists w; split; [exact Hx | apply String.eqb_refl]).
  congruence.
Qed.

Lemma add_words_inv ws : forall l,
  NoDup l -> Forall (fun w => is_simple_word w = true) l ->
  Forall (fun w => is_simple_word w = true) ws ->
  NoDup (fold_left add_word ws l)
  /\ Forall (fun w => is_simple_word w = true) (fold_left add_word ws l).
Proof.
  induction ws as [| w ws IH]; simpl; intros l Hn Hl Hws; [now split|].
  inversion Hws; subst. apply IH; [now apply add_word_NoDup | | assumption].
  apply Forall_forall. intros x Hx. apply add_word_In in Hx as [Hx | ->]; [| assumption].
  rewrite Forall_forall in Hl. now apply Hl.
Qed.

Lemma extract_from_inv l pattern l' :
  extract_from l pattern = Ret l' ->
  NoDup l -> Forall (fun w => is_simple_word w = true) l ->
  NoDup l' /\ Forall (fun w => is_simple_word w = true) l'.
Proof.
  unfold extract_from. intros E Hn Hl.
  match type of E with
  | (if ?c then _ else _) = _ => destruct c
  end.
  - apply bind_Ret in E as (words & _ & E). injection E as <-.
    apply add_words_inv; [assumption | assumption |].
    apply Forall_forall. intros x Hx. now apply filter_In in Hx.
  - match type of E with
    | (if ?c then _ else _) = _ => destruct c eqn:Es
    end; injection E as <-; [| now split].
    apply (add_words_inv [_] l Hn Hl). now constructor.
Qed.

Lemma insert_sorted_In w l x : In x (insert_sorted w l) <-> x = w \/ In x l.
Proof.
  induction l as [| y l IH]; simpl; [intuition|].
  destruct (String.leb w y); simpl; [intuition|]. rewrite IH. intuition.
Qed.

Lemma leb_false_ltb a b : String.leb a b = false -> String.ltb b a = true.
Proof.
  unfold String.leb, String.ltb. rewrite (String.compare_antisym b a).
  destruct (String.compare a b); simpl; congruence.
Qed.

Lemma leb_true_ltb a b : String.leb a b = true -> a <> b -> String.ltb a b = true.
Proof.
  unfold String.leb, String.ltb. intros E N.
  destruct (String.compare a b) eqn:C; try congruence.
  apply String.compare_eq_iff in C. contradiction.
Qed.

Lemma insert_sorted_ascending w l :
  ascending l = true -> ~ In w l -> ascending (insert_sorted w l) = true.
Proof.
  induction l as [| x r IH]; intros Ha Hw; [reflexivity|].
  cbn [insert_sorted]. destruct (String.leb w x) eqn:E.
  - cbn [ascending]. rewrite (leb_true_ltb _ _ E) by (intros ->; apply Hw; now left).
    exact Ha.
  - assert (Hr : ascending r = true)
      by (cbn [ascending] in Ha; destruct r; [reflexivity | now apply andb_true_iff in Ha]).
    specialize (IH Hr (fun X => Hw (or_intror X))).
    cbn [ascending]. destruct (insert_sorted w r) as [| y r'] eqn:Ei;
      [reflexivity|]. rewrite IH, andb_true_r.
    destruct r as [| z r2]; cbn [insert_sorted] in Ei.
    + injection Ei as <- <-. now apply leb_false_ltb.
    + destruct (String.leb w z); injection Ei as <- <-.
      * now apply leb_false_ltb.
      * cbn [ascending] in Ha. now apply andb_true_iff in Ha.
Qed.

Lemma sort_words_spec l :
  NoDup l -> ascending (sort_words l) = true /\ forall x, In x (sort_words l) <-> In x l.
Proof.
  induction l as [| w l IH]; intros Hn; [now split|].
  inversion Hn as [| ? ? Hw Hl]; subst. destruct (IH Hl) as [Ha Hin].
  cbn [sort_words fold_right]. fold (sort_words l). split.
  - apply insert_sorted_ascending; [exact Ha | now rewrite Hin].
  - intros x. rewrite insert_sorted_In, Hin. simpl. intuition.
Qed.

(** X10.  The words offered for quick selection are clean and in order: each
    starts with a letter and goes on with letters, digits, [_] and [-] only,
    and each comes strictly before the next, so none is offered twice. *)
Theorem extractWordsFromPatterns_words (patterns words : list string) :
  extractWordsFromPatterns patterns = Ret words ->
  Forall (fun w => is_simple_word w = true) words /\ ascending words = true.
Proof.
  unfold extractWordsFromPatterns. intros E.
  apply bind_Ret in E as (allWords & Ef & E). injection E as <-.
  assert (I : NoDup allWords /\ Forall (fun w => is_simple_word w = true) allWords).
  { eapply (foldM_invariant
              (fun l => NoDup l /\ Forall (fun w => is_simple_word w = true) l));
      [| | exact Ef]; [| split; constructor].
    intros s x s' [Hn Hs] Ex. eapply extract_from_inv; eauto. }
  destruct I as [Hn Hs]. destruct (sort_words_spec _ Hn) as [Ha Hin]. split; [| exact Ha].
  apply Forall_forall. intros x Hx. rewrite Forall_forall in Hs. apply Hs. now apply Hin.
Qed.

Lemma extractWordsFromPatterns_words_witness :
  extractWordsFromPatterns ["^(width|height|depth)$"; "^depth$"]
  = Ret ["depth"; "height"; "width"]
  /\ Forall (fun w => is_simple_word w = true) ["depth"; "height"; "width"]
  /\ ascending ["depth"; "height"; "width"] = true.
Proof.
  assert (E : extractWordsFromPatterns ["^(width|height|depth)$"; "^depth$"]
              = Ret ["depth"; "height"; "width"]) by (vm_compute; reflexivity).
  split; [exact E|].
  exact (extractWordsFromPatterns_words _ _ E).
Defined.

(** ** Reference resolution *)

(** What [resolveSchema] returns is the schema itself, or an object
    without [$ref]. *)
Lemma resolveSchema_shape (H : Host) st schema resolved :
  resolveSchema st schema = Ret resolved ->
  resolved = schema \/ exists m, resolved = JObj m /\ assoc "$ref" m = None.
Proof.
  unfold resolveSchema.
  change (resolveSchema_fuel st 2 schema [])
    with (resolveSchema_body st (resolveSchema_fuel st 1) schema []).
  unfold resolveSchema_body. intros E.
  destruct schema as [| | [|] | | | |m];
    try (injection E as <-; auto; right; eexists; split; reflexivity);
    try (simpl in E; rewrite ?orb_true_r in E; injection E as <-; now left).
  destruct (negb (truthy (JObj m)) || negb (typeof_object (JObj m)));
    [injection E as <-; now left|].
  destruct (negb (truthy (prop (JObj m) "$ref"))); [injection E as <-; now left|].
  destruct (negb (truthy st)); [injection E as <-; now left|].
  apply bind_Ret in E as (h & _ & E).
  destruct h; [injection E as <-; right; eexists; split; reflexivity|].
  apply bind_Ret in E as (r & _ & E).
  destruct (negb (truthy r)); [injection E as <-; right; eexists; split; reflexivity|].
  apply bind_Ret in E as (seen' & _ & E). apply bind_Ret in E as (rest & _ & E).
  apply bind_Ret in E as (m1 & E1 & E). apply bind_Ret in E as (m2 & E2 & E).
  change (resolveSchema_body st (resolveSchema_fuel st 0) (JObj (delete "$ref" m2)) seen'
          = Ret resolved) in E.
  assert (Hd : assoc "$ref" (delete "$ref" m2) = None).
  { apply assoc_delete_NoDup.
    eapply NoDup_spread_onto; [| exact E2].
    eapply NoDup_spread_onto; [| exact E1]. constructor. }
  rewrite resolveSchema_body_no_ref in E by exact Hd. injection E as <-.
  right. eexists. split; [reflexivity | exact Hd].
Qed.

(** X11.  Resolving twice is resolving once: [resolveSchema] returns its own
    results unchanged, so the callers that resolve an already resolved
    schema again ([buildFields] and [createControlForSchema] on each other's
    argument) go on with the same schema. *)
Theorem resolveSchema_idempotent (H : Host) (state_schema schema resolved : json) :
  resolveSchema state_schema schema = Ret resolved ->
  resolveSchema state_schema resolved = Ret resolved.
Proof.
  intros E. destruct (resolveSchema_shape H _ _ _ E) as [-> | (m & -> & Hm)];
    [exact E|].
  unfold resolveSchema.
  change (resolveSchema_fuel state_schema 2 (JObj m) [])
    with (resolveSchema_body state_schema (resolveSchema_fuel state_schema 1) (JObj m) []).
  now apply resolveSchema_body_no_ref.
Qed.

Lemma resolveSchema_idempotent_witness :
  resolveSchema (H := example_host) circle_document
     (JObj [("$ref", JStr "#/$defs/Circle"); ("description", JStr "round")])
  = Ret (JObj [("title", JStr "Circle"); ("description", JStr "round")])
  /\ resolveSchema (H := example_host) circle_document
       (JObj [("title", JStr "Circle"); ("description", JStr "round")])
     = Ret (JObj [("title", JStr "Circle"); ("description", JStr "round")]).
Proof.
  assert (E : resolveSchema (H := example_host) circle_document
                (JObj [("$ref", JStr "#/$defs/Circle"); ("description", JStr "round")])
              = Ret (JObj [("title", JStr "Circle"); ("description", JStr "round")]))
    by (vm_compute; reflexivity).
  split; [exact E|].
  exact (resolveSchema_idempotent example_host _ _ _ E).
Defined.

(** X12.  A reference the editor has no reading for (not [#], not a JSON
    pointer after [#/], not an http or https URL: a relative file name, a
    plain-name anchor) ends as the unresolved marker, with the reference
    and the description of the referring schema in it. *)
Theorem unsupported_reference_is_unresolved (H : Host) (state_schema : json)
        (m : list (string * json)) (ref : string) :
  truthy state_schema = true ->
  assoc "$ref" m = Some (JStr ref) ->
  ref <> "" -> ref <> "#" ->
  starts_with "#/" ref = false -> is_http ref = false ->
  resolveSchema state_schema (JObj m)
  = Ret (JObj [("__unresolvedRef", JStr ref);
               ("description", prop (JObj m) "description")]).
Proof.
  intros Hs Hr N1 N2 Hp Hh. unfold resolveSchema.
  change (resolveSchema_fuel state_schema 2 (JObj m) [])
    with (resolveSchema_body state_schema (resolveSchema_fuel state_schema 1) (JObj m) []).
  unfold resolveSchema_body. cbn [truthy typeof_object negb orb].
  assert (Pr : prop (JObj m) "$ref" = JStr ref) by (unfold prop; now rewrite Hr).
  rewrite Pr, Hs. cbn [truthy].
  destruct (String.eqb_spec ref "") as [| _]; [contradiction|]. cbn [negb].
  change (set_has [] (JStr ref)) with (Ret (A := bool) false). cbn [bind].
  assert (Rn : resolveRef state_schema (JStr ref) = Ret JNull).
  { unfold resolveRef. cbn [truthy].
    destruct (String.eqb_spec ref "") as [| _]; [contradiction|]. cbn [negb].
    destruct (starts_with "#" ref).
    - destruct (String.eqb_spec ref "#"); [contradiction|]. now rewrite Hp.
    - unfold is_http in Hh. now rewrite Hh. }
  rewrite Rn. reflexivity.
Qed.

Lemma unsupported_reference_is_unresolved_witness :
  resolveSchema (H := example_host) circle_document
    (JObj [("$ref", JStr "shapes.json#/Circle"); ("description", JStr "round")])
  = Ret (JObj [("__unresolvedRef", JStr "shapes.json#/Circle");
               ("description", JStr "round")]).
Proof.
  apply (unsupported_reference_is_unresolved example_host circle_document
           [("$ref", JStr "shapes.json#/Circle"); ("description", JStr "round")]
           "shapes.json#/Circle");
    try reflexivity; discriminate.
Defined.

(** ** Values of controls *)

From Stdlib Require DecimalZ DecimalPos.

Lemma plain_integer_Z_to_string z : plain_integer (Z_to_string z) = Some z.
Proof.
  unfold Z_to_string.
  assert (I : NilZero.int_of_string (NilZero.string_of_int (Z.to_int z)) = Some (Z.to_int z)).
  { apply NilZero.isi; destruct z; simpl; try discriminate;
      intros X; injection X; apply DecimalPos.Unsigned.to_uint_nonnil. }
  unfold plain_integer.
  destruct (NilZero.string_of_int (Z.to_int z)) as [| c s] eqn:E; [discriminate I|].
  assert (G : option_map Z.of_int (NilZero.int_of_string (String c s)) = Some z)
    by (rewrite I; simpl; now rewrite DecimalZ.of_to).
  destruct s as [| d s];
    destruct c as [[] [] [] [] [] [] [] []]; try exact G; discriminate I.
Qed.

Lemma Z_to_string_nonempty z : String.eqb (Z_to_string z) "" = false.
Proof.
  pose proof (plain_integer_Z_to_string z) as P.
  destruct (Z_to_string z); [discriminate P | reflexivity].
Qed.

Lemma Number_of_Z_to_string (H : Host) z :
  safe_integer z = true -> Number_of_string (Z_to_string z) = Fin (Int z).
Proof.
  intros Hs. unfold Number_of_string.
  now rewrite Z_to_string_nonempty, plain_integer_Z_to_string, Hs.
Qed.

(** X13.  What a control shows for a constant reads back as the constant: for
    a boolean, [null], a string or an exactly representable integer
    [value], [coerceValue] takes the text [stringifySchemaValue] gives for
    it, under the type [deducePrimitiveType] gives a schema with that
    [const], back to [value]. *)
Theorem displayed_constant_reads_back (H : Host) (value : json) :
  match value with
  | JBool _ | JNull | JStr _ => True
  | JNum (Int z) => safe_integer z = true
  | _ => False
  end ->
  coerceValue (JStr (stringifySchemaValue value))
              (deducePrimitiveType (JObj [("const", value)]))
  = value.
Proof.
  destruct value as [| | [|] | [z | f r] | s | l | m]; try contradiction; intros Hv;
    try reflexivity.
  - change (deducePrimitiveType (JObj [("const", JNum (Int z))])) with (JStr "integer").
    change (stringifySchemaValue (JNum (Int z))) with (String_of_number (Int z)).
    unfold String_of_number. rewrite Hv. unfold coerceValue.
    cbn [json_eqb String.eqb Ascii.eqb Bool.eqb andb negb].
    rewrite Z_to_string_nonempty. cbn [andb ToNumber].
    now rewrite Number_of_Z_to_string.
  - change (deducePrimitiveType (JObj [("const", JStr s)])) with (JStr "string").
    cbn [stringifySchemaValue]. unfold coerceValue.
    cbn [json_eqb]. rewrite String.eqb_refl. cbn [andb].
    destruct (String.eqb s ""); reflexivity.
Qed.

Lemma displayed_constant_reads_back_witness :
  safe_integer 42 = true
  /\ coerceValue (H := example_host) (JStr (stringifySchemaValue (JNum (Int 42))))
                 (deducePrimitiveType (JObj [("const", JNum (Int 42))]))
     = JNum (Int 42).
Proof.
  split; [reflexivity|].
  exact (displayed_constant_reads_back example_host (JNum (Int 42)) eq_refl).
Defined.

(** X14.  A control left blank gives no value, except under the type
    [string]: [coerceValue] returns the empty string only for an empty
    string of type [string], and for any other type an empty string is
    dropped. *)
Theorem blank_is_dropped_unless_string (H : Host) (raw type : json) :
  (coerceValue raw type = JStr "" -> raw = JStr "" /\ type = JStr "string")
  /\ (type <> JStr "string" -> coerceValue (JStr "") type = JUndefined).
Proof.
  split.
  - unfold coerceValue.
    assert (Q : forall a b, json_eqb a (JStr b) = true -> a = JStr b).
    { intros a b E. destruct a; try discriminate E. simpl in E.
      apply String.eqb_eq in E. now subst. }
    destruct raw as [| | b | n | s | l | m]; try discriminate;
      destruct (json_eqb type (JStr "string")) eqn:Et;
      cbn [andb json_eqb negb];
      try (destruct (String.eqb s "") eqn:Es);
      cbn [andb negb]; try discriminate;
      try (intros _; apply String.eqb_eq in Es; subst; split; [reflexivity | now apply Q]).
    all: try (apply Q in Et; subst type; cbn; try discriminate;
              intros X; injection X as ->; discriminate Es).
    all: repeat match goal with
                | |- match ?x with _ => _ end = _ -> _ => destruct x; try discriminate
                | |- (if ?x then _ else _) = _ -> _ => destruct x; try discriminate
                end.
    all: try (intros X; injection X as ->; discriminate Es).
  - intros N. unfold coerceValue. cbn [json_eqb String.eqb andb].
    destruct (json_eqb type (JStr "string")) eqn:Et; [| reflexivity].
    exfalso. apply N. destruct type; try discriminate Et. simpl in Et.
    apply String.eqb_eq in Et. now subst.
Qed.

(** ** More on the allOf merge *)

(** X15.  The merged schema names no required property twice: when
    [mergeAllOfSchemas] sets [required], it is a non-empty list without
    repetition, however often the sub-schemas repeat a name. *)
Theorem merged_required_has_no_repetition (H : Host) (state_schema : json)
        (allOf : list json) (merged : json) (required : list json) :
  mergeAllOfSchemas state_schema (JArr allOf) = Ret merged ->
  prop merged "required" = JArr required ->
  required <> [] /\ NoDup required.
Proof.
  intros E Hr. rewrite mergeAllOfSchemas_fold in E.
  apply bind_Ret in E as (s & Es & E). injection E as <-.
  assert (I : assoc "required" (fst s) = None /\ NoDup (snd s)).
  { eapply (foldM_invariant (fun s => assoc "required" (fst s) = None /\ NoDup (snd s)));
      [| | exact Es]; [| split; [reflexivity | constructor]].
    intros a x a' [Ha Hn] Ex. eapply mergeAllOf_step_required; eauto. }
  destruct I as [Ha Hn]. unfold finalize, prop in Hr.
  destruct (snd s) as [| r0 r] eqn:Er.
  - rewrite Ha in Hr. discriminate.
  - rewrite assoc_define_same in Hr. injection Hr as <-. split; [discriminate | exact Hn].
Qed.

Lemma merged_required_has_no_repetition_witness :
  mergeAllOfSchemas (H := example_host) JNull
    (JArr [JObj [("required", JArr [JStr "id"; JStr "name"])];
           JObj [("required", JArr [JStr "name"; JStr "id"; JStr "email"])]])
  = Ret (JObj [("required", JArr [JStr "id"; JStr "name"; JStr "email"])])
  /\ NoDup [JStr "id"; JStr "name"; JStr "email"].
Proof.
  assert (E : mergeAllOfSchemas (H := example_host) JNull
                (JArr [JObj [("required", JArr [JStr "id"; JStr "name"])];
                       JObj [("required", JArr [JStr "name"; JStr "id"; JStr "email"])]])
              = Ret (JObj [("required", JArr [JStr "id"; JStr "name"; JStr "email"])]))
    by (vm_compute; reflexivity).
  split; [exact E|].
  exact (proj2 (merged_required_has_no_repetition example_host JNull _ _ _ E eq_refl)).
Defined.

Lemma has_own_define k k' v m : has_own k (define k' v m) = String.eqb k k' || has_own k m.
Proof.
  unfold has_own. destruct (String.eqb_spec k k') as [-> | N].
  - now rewrite assoc_define_same.
  - now rewrite assoc_define_other.
Qed.

Lemma has_own_cons k k' v m : has_own k ((k', v) :: m) = String.eqb k k' || has_own k m.
Proof. unfold has_own. simpl. now destruct (String.eqb k k'). Qed.

Lemma has_own_fold_define es : forall m k,
  has_own k (fold_left (fun acc kv => define (fst kv) (snd kv) acc) es m)
  = has_own k m || has_own k es.
Proof.
  induction es as [| [k' v] es IH]; intros m k; cbn [fold_left fst snd].
  - unfold has_own at 3. simpl. now rewrite orb_false_r.
  - rewrite IH, has_own_define, has_own_cons.
    destruct (String.eqb k k'), (has_own k m), (has_own k es); reflexivity.
Qed.

Lemma deepMerge_member_has_own rec acc kv acc' k :
  deepMerge_member rec acc kv = Ret acc' ->
  has_own k acc' = String.eqb k (fst kv) || has_own k acc.
Proof.
  unfold deepMerge_member. destruct kv as [key sourceValue]. cbn [fst].
  intros E.
  assert (G : forall x, assign key x acc = Ret acc' ->
                        has_own k acc' = String.eqb k key || has_own k acc).
  { intros x Ex. apply assign_Ret in Ex as ->. apply has_own_define. }
  destruct (isObjectSchema (prop (JObj acc) key) && isObjectSchema sourceValue);
    [| eapply G; eauto].
  apply bind_Ret in E as (props & _ & E). apply bind_Ret in E as (m & _ & E).
  apply bind_Ret in E as (m' & _ & E). apply bind_Ret in E as (m'' & _ & E).
  eapply G; eauto.
Qed.

(** X16.  Merging two [properties] objects loses no property and invents
    none: the merged object has a member under a name exactly when one of
    the two has. *)
Theorem deepMergeProperties_keeps_names (target source : list (string * json))
        (merged : json) :
  deepMergeProperties (JObj target) (JObj source) = Ret merged ->
  exists members,
    merged = JObj members
    /\ forall name, has_own name members = has_own name target || has_own name source.
Proof.
  unfold deepMergeProperties.
  cbn [deepMergeProperties_fuel truthy typeof_object negb orb].
  unfold spread_onto. cbn [own_entries bind]. intros E.
  apply bind_Ret in E as (members & Ef & E). injection E as <-.
  exists members. split; [reflexivity|]. intros name.
  assert (G : forall rec es acc acc',
             foldM (deepMerge_member rec) es acc = Ret acc' ->
             has_own name acc' = has_own name acc || has_own name es).
  { intros rec. induction es as [| kv es IH]; simpl; intros acc acc' Ee.
    - injection Ee as <-. unfold has_own at 3. simpl. now rewrite orb_false_r.
    - apply bind_Ret in Ee as (acc1 & E1 & Ee). rewrite (IH _ _ Ee).
      rewrite (deepMerge_member_has_own _ _ _ _ name E1).
      destruct kv as [k' v]. rewrite has_own_cons. cbn [fst].
      destruct (String.eqb name k'), (has_own name acc), (has_own name es); reflexivity. }
  rewrite (G _ _ _ _ Ef), has_own_fold_define. unfold has_own at 2. simpl.
  reflexivity.
Qed.

Lemma deepMergeProperties_keeps_names_witness :
  deepMergeProperties
    (JObj [("id", JObj [("type", JStr "integer")])])
    (JObj [("name", JObj [("type", JStr "string")])])
  = Ret (JObj [("id", JObj [("type", JStr "integer")]);
               ("name", JObj [("type", JStr "string")])])
  /\ has_own "id" [("id", JObj [("type", JStr "integer")]);
                   ("name", JObj [("type", JStr "string")])] = true.
Proof.
  assert (E : deepMergeProperties
                (JObj [("id", JObj [("type", JStr "integer")])])
                (JObj [("name", JObj [("type", JStr "string")])])
              = Ret (JObj [("id", JObj [("type", JStr "integer")]);
                           ("name", JObj [("type", JStr "string")])]))
    by (vm_compute; reflexivity).
  split; [exact E|].
  destruct (deepMergeProperties_keeps_names _ _ _ E) as (members & Em & Hm).
  injection Em as <-. now rewrite Hm.
Defined.

(** ** Removing an array item *)

Lemma data_set_data key v n : data key (set_data key v n) = Some v.
Proof.
  destruct n as [t cl d k val h c]. unfold data, set_data. cbn [dataset_of].
  induction d as [| [k' v'] d IH]; simpl.
  - now rewrite String.eqb_refl.
  - destruct (String.eqb key k') eqn:E; simpl; now rewrite E.
Qed.

Lemma renumber_from_paths arrayPath items : forall newIndex items',
  renumber_from arrayPath newIndex items = Ret items' ->
  map (data "schemaPath") items'
  = map (fun i => Some (item_path arrayPath i)) (seq newIndex (List.length items)).
Proof.
  induction items as [| item r IH]; simpl; intros newIndex items' E.
  - now injection E as <-.
  - apply bind_Ret in E as (item' & Ei & E). apply bind_Ret in E as (r' & Er & E).
    injection E as <-. simpl. rewrite (IH _ _ Er). f_equal.
    unfold renumber_item in Ei. apply bind_Ret in Ei as (c & _ & Ei).
    injection Ei as <-. apply data_set_data.
Qed.

Lemma remove_nth_length {A : Type} (l : list A) : forall i,
  (i < List.length l)%nat -> List.length (remove_nth i l) = (List.length l - 1)%nat.
Proof.
  induction l as [| x l IH]; intros i Hi; simpl in Hi; [lia|].
  destruct i as [| i]; simpl; [lia|]. rewrite IH by lia. lia.
Qed.

(** *** Elements up to button states and paths *)

Section NodeInduction.
Variable P : node -> Prop.
Hypothesis step :
  forall t cl d k v b h c, Forall P c -> P (Node t cl d k v b h c).

Fixpoint node_deep_ind (n : node) : P n :=
  match n with
  | Node t cl d k v b h c =>
      step t cl d k v b h c
           ((fix all (l : list node) : Forall P l :=
               match l with
               | [] => Forall_nil P
               | x :: r => Forall_cons x (node_deep_ind x) (all r)
               end) c)
  end.
End NodeInduction.

(** The element without what [updateArrayButtonStates] sets: the
    [disabled] property and the class [disabled]. *)
Fixpoint without_states (n : node) : node :=
  let 'Node t cl d k v _ h c := n in
  Node t (classList_remove "disabled" cl) d k v false h (map without_states c).

Definition is_path_key (key : string) : bool :=
  existsb (String.eqb key) ["schemaPath"; "arrayPath"; "oneOfPath"].

(** The element without the three attributes [renumberArrayItems]
    rewrites. *)
Fixpoint without_paths (n : node) : node :=
  let 'Node t cl d k v b h c := n in
  Node t cl (filter (fun kv => negb (is_path_key (fst kv))) d) k v b h
       (map without_paths c).

(** What an element holds apart from its paths and button states: tags,
    classes, the other attributes, kinds, values, handlers, in the same
    tree. *)
Definition content (n : node) : node := without_paths (without_states n).

Lemma without_states_eq n :
  without_states n
  = Node (tag_of n) (classList_remove "disabled" (classes_of n)) (dataset_of n)
         (kind_of n) (match n with Node _ _ _ _ v _ _ _ => v end) false (handler_of n)
         (map without_states (children_of n)).
Proof. destruct n; reflexivity. Qed.

Lemma without_commute n : without_paths (without_states n) = without_states (without_paths n).
Proof.
  induction n as [t cl d k v b h c IH] using node_deep_ind. simpl. f_equal.
  rewrite !map_map. apply map_ext_Forall. exact IH.
Qed.

Lemma content_states n m : without_states n = without_states m -> content n = content m.
Proof. unfold content. now intros ->. Qed.

Lemma content_paths n m : without_paths n = without_paths m -> content n = content m.
Proof. unfold content. rewrite !without_commute. now intros ->. Qed.

Lemma classList_remove_add c cl :
  classList_remove c (classList_add c cl) = classList_remove c cl.
Proof.
  unfold classList_add, classList_remove. destruct (existsb (String.eqb c) cl); [reflexivity|].
  rewrite filter_app. simpl. rewrite String.eqb_refl. simpl. apply app_nil_r.
Qed.

Lemma classList_remove_twice c cl :
  classList_remove c (classList_remove c cl) = classList_remove c cl.
Proof.
  unfold classList_remove. induction cl as [| x cl IH]; simpl; [reflexivity|].
  destruct (String.eqb c x) eqn:E; simpl; [assumption|]. now rewrite E, IH.
Qed.

Lemma without_states_set_disabled b n : without_states (set_disabled b n) = without_states n.
Proof.
  destruct n as [t cl d k v b0 h c], b; simpl; f_equal;
    [apply classList_remove_add | apply classList_remove_twice].
Qed.

Lemma without_states_with_children n l :
  map without_states l = map without_states (children_of n) ->
  without_states (with_children n l) = without_states n.
Proof. destruct n; simpl. now intros ->. Qed.

Lemma without_states_children n m :
  without_states n = without_states m ->
  map without_states (children_of n) = map without_states (children_of m).
Proof. destruct n, m; simpl. now intros E; injection E. Qed.

Lemma without_states_dataset n m :
  without_states n = without_states m -> dataset_of n = dataset_of m.
Proof. destruct n, m; simpl. now intros E; injection E. Qed.

Section States.
Variable p : node -> bool.
Variable f : node -> node.
Hypothesis f_states : forall x, without_states (f x) = without_states x.

Lemma update_all_states n : without_states (update_all p f n) = without_states n.
Proof.
  induction n as [t cl d k v b h c IH] using node_deep_ind.
  rewrite update_all_eq. apply without_states_with_children.
  cbn [children_of]. rewrite map_map. apply map_ext_Forall.
  revert IH. apply Forall_impl. intros x IHx. cbn zeta.
  destruct (p x); [rewrite f_states|]; exact IHx.
Qed.

Lemma update_first_in_states l : forall l',
  Forall (fun x => forall x', update_first p f x = Some x'
                              -> without_states x' = without_states x) l ->
  update_first_in p f l = Some l' ->
  map without_states l' = map without_states l.
Proof.
  induction l as [| x l IH]; simpl; intros l' Hl E; [discriminate|].
  inversion Hl as [| ? ? Hx Hr]; subst.
  destruct (p x).
  - injection E as <-. simpl. now rewrite f_states.
  - destruct (update_first p f x) as [x' |] eqn:Ex.
    + injection E as <-. simpl. now rewrite (Hx _ eq_refl).
    + destruct (update_first_in p f l) as [r |]; simpl in E; [| discriminate].
      injection E as <-. simpl. now rewrite (IH _ Hr eq_refl).
Qed.

Lemma update_first_states n : forall n',
  update_first p f n = Some n' -> without_states n' = without_states n.
Proof.
  induction n as [t cl d k v b h c IH] using node_deep_ind. intros n'.
  rewrite update_first_eq.
  destruct (update_first_in p f _) as [l |] eqn:E; simpl; [| discriminate].
  intros W; injection W as <-.
  change (without_states (with_children (Node t cl d k v b h c) l)
          = without_states (Node t cl d k v b h c)).
  apply without_states_with_children. now apply update_first_in_states.
Qed.
End States.

Lemma update_nth_states f (Hf : forall x, without_states (f x) = without_states x) l :
  forall i, map without_states (update_nth i f l) = map without_states l.
Proof.
  induction l as [| x l IH]; intros [| i]; simpl; try reflexivity.
  - now rewrite Hf.
  - now rewrite IH.
Qed.

Lemma update_remove_buttons_states (H : Host) c :
  without_states (update_remove_buttons c) = without_states c.
Proof.
  unfold update_remove_buttons. apply without_states_with_children.
  rewrite map_map. apply map_ext. intros item.
  destruct (has_class "array-item" item); [| reflexivity].
  apply update_all_states. apply without_states_set_disabled.
Qed.

(** [updateArrayButtonStates] sets button states and nothing else,
    whichever way the Add button is named. *)
Lemma updateArrayButtonStates_states (H : Host) addButton wrapper :
  (forall f w w', (forall x, without_states (f x) = without_states x) ->
                  addButton f w = Some w' -> without_states w' = without_states w) ->
  without_states (updateArrayButtonStates addButton wrapper) = without_states wrapper.
Proof.
  intros Ha. unfold updateArrayButtonStates.
  destruct (children_of wrapper) as [| c rest]; [reflexivity|].
  destruct (addButton _ wrapper) as [w1 |] eqn:E; [| reflexivity].
  apply Ha in E; [| apply without_states_set_disabled]. rewrite <- E.
  destruct (children_of w1) as [| c1 rest1] eqn:E1; [reflexivity|].
  apply without_states_with_children. rewrite E1. simpl.
  now rewrite update_remove_buttons_states.
Qed.

Lemma first_secondary_states f w w' :
  (forall x, without_states (f x) = without_states x) ->
  first_secondary f w = Some w' -> without_states w' = without_states w.
Proof. intros Hf. now apply update_first_states. Qed.

Lemma own_button_states i f w w' :
  (forall x, without_states (f x) = without_states x) ->
  own_button i f w = Some w' -> without_states w' = without_states w.
Proof.
  intros Hf E. injection E as <-. apply without_states_with_children.
  now apply update_nth_states.
Qed.

(** *** Renumbering rewrites paths only, and returns *)

Lemma filter_data_set key v d :
  is_path_key key = true ->
  filter (fun kv => negb (is_path_key (fst kv))) (data_set key v d)
  = filter (fun kv : string * string => negb (is_path_key (fst kv))) d.
Proof.
  intros Hk. induction d as [| [k' v'] d IH]; simpl.
  - now rewrite Hk.
  - destruct (String.eqb_spec key k') as [<- | N]; simpl.
    + now rewrite Hk.
    + now rewrite IH.
Qed.

Lemma without_paths_set_data key v n :
  is_path_key key = true -> without_paths (set_data key v n) = without_paths n.
Proof. intros Hk. destruct n; simpl. now rewrite filter_data_set. Qed.

Lemma rewrite_attr_paths key exact oldPath newPath n n' :
  is_path_key key = true ->
  rewrite_attr key exact oldPath newPath n = Ret n' ->
  without_paths n' = without_paths n.
Proof.
  intros Hk. unfold rewrite_attr.
  destruct (data key n) as [currentPath |]; [| now intros E; injection E as <-].
  destruct (String.eqb currentPath ""); [now intros E; injection E as <-|].
  destruct (exact && _).
  - intros E; injection E as <-. now apply without_paths_set_data.
  - destruct (_ || _); [| now intros E; injection E as <-].
    intros E. apply bind_Ret in E as (q & _ & E). injection E as <-.
    now apply without_paths_set_data.
Qed.

Lemma without_paths_with_children n l :
  map without_paths l = map without_paths (children_of n) ->
  without_paths (with_children n l) = without_paths n.
Proof. destruct n; simpl. now intros ->. Qed.

Lemma mapM_paths (g : node -> outcome node) l : forall l',
  Forall (fun x => forall x', g x = Ret x' -> without_paths x' = without_paths x) l ->
  mapM g l = Ret l' -> map without_paths l' = map without_paths l.
Proof.
  intros l' Hl E. apply mapM_Forall2 in E.
  induction E as [| x x' l l' Ex E IH]; [reflexivity|].
  inversion Hl as [| ? ? Hx Hr]; subst. simpl. now rewrite (Hx _ Ex), (IH Hr).
Qed.

Lemma rewrite_paths_paths oldPath newPath n : forall n',
  rewrite_paths oldPath newPath n = Ret n' -> without_paths n' = without_paths n.
Proof.
  induction n as [t cl d k v b h c IH] using node_deep_ind. intros n' E.
  cbn [rewrite_paths] in E.
  apply bind_Ret in E as (c' & Ec & E). apply bind_Ret in E as (n1 & E1 & E).
  apply bind_Ret in E as (n2 & E2 & E).
  apply rewrite_attr_paths in E; [| reflexivity].
  apply rewrite_attr_paths in E2; [| reflexivity].
  apply rewrite_attr_paths in E1; [| reflexivity].
  rewrite E, E2, E1. simpl. f_equal. now apply (mapM_paths _ _ _ IH).
Qed.

Lemma renumber_item_paths arrayPath newIndex item item' :
  renumber_item arrayPath newIndex item = Ret item' ->
  without_paths item' = without_paths item.
Proof.
  unfold renumber_item. intros E. apply bind_Ret in E as (c & Ec & E). injection E as <-.
  rewrite without_paths_set_data by reflexivity.
  apply without_paths_with_children. eapply mapM_paths; [| exact Ec].
  apply Forall_forall. intros x _ x'. apply rewrite_paths_paths.
Qed.

Lemma renumber_from_content arrayPath items : forall newIndex items',
  renumber_from arrayPath newIndex items = Ret items' ->
  map without_paths items' = map without_paths items.
Proof.
  induction items as [| item r IH]; simpl; intros newIndex items' E.
  - now injection E as <-.
  - apply bind_Ret in E as (item' & Ei & E). apply bind_Ret in E as (r' & Er & E).
    injection E as <-. simpl.
    now rewrite (renumber_item_paths _ _ _ _ Ei), (IH _ _ Er).
Qed.

Lemma list_ascii_app a b :
  list_ascii_of_string (a ++ b) = (list_ascii_of_string a ++ list_ascii_of_string b)%list.
Proof. induction a as [| c a IH]; simpl; [reflexivity | now rewrite IH]. Qed.

Lemma includes_char_app c a b :
  includes_char c (a ++ b) = includes_char c a || includes_char c b.
Proof. unfold includes_char. now rewrite list_ascii_app, existsb_app. Qed.

Lemma digits_no_dollar u : includes_char "$" (NilZero.string_of_uint u) = false.
Proof.
  assert (D : forall u, includes_char "$" (NilEmpty.string_of_uint u) = false).
  { induction u0; simpl; auto. }
  destruct u; try apply D. reflexivity.
Qed.

Lemma item_path_no_dollar path index :
  includes_char "$" path = false -> includes_char "$" (item_path path index) = false.
Proof.
  intros Hp. unfold item_path, nat_to_string.
  now rewrite !includes_char_app, Hp, digits_no_dollar.
Qed.

Lemma mapM_returns {A B : Type} (g : A -> outcome B) l :
  Forall (fun x => exists y, g x = Ret y) l -> exists l', mapM g l = Ret l'.
Proof.
  induction 1 as [| x l [y Ey] _ [l' El]]; simpl; [now eexists|].
  rewrite Ey. simpl. rewrite El. simpl. now eexists.
Qed.

Lemma rewrite_attr_returns key exact oldPath newPath n :
  includes_char "$" newPath = false ->
  exists n', rewrite_attr key exact oldPath newPath n = Ret n'.
Proof.
  intros Hd. unfold rewrite_attr, replace_prefix. rewrite Hd.
  destruct (data key n); [| now eexists].
  destruct (String.eqb _ ""); [now eexists|].
  destruct (exact && _); [now eexists|].
  destruct (_ || _); simpl; now eexists.
Qed.

Lemma rewrite_paths_returns oldPath newPath n :
  includes_char "$" newPath = false ->
  exists n', rewrite_paths oldPath newPath n = Ret n'.
Proof.
  intros Hd. induction n as [t cl d k v b h c IH] using node_deep_ind.
  cbn [rewrite_paths]. destruct (mapM_returns _ _ IH) as (c' & ->). cbn [bind].
  destruct (rewrite_attr_returns "schemaPath" true oldPath newPath
              (Node t cl d k v b h c') Hd) as (n1 & ->). cbn [bind].
  destruct (rewrite_attr_returns "arrayPath" false oldPath newPath n1 Hd) as (n2 & ->).
  cbn [bind]. apply rewrite_attr_returns, Hd.
Qed.

Lemma renumber_from_returns arrayPath items :
  includes_char "$" arrayPath = false ->
  forall newIndex, exists items', renumber_from arrayPath newIndex items = Ret items'.
Proof.
  intros Hd. induction items as [| item r IH]; intros newIndex; simpl; [now eexists|].
  unfold renumber_item.
  destruct (mapM_returns (rewrite_paths (data "schemaPath" item)
                                        (item_path arrayPath newIndex))
                         (children_of item)) as (c & ->).
  { apply Forall_forall. intros x _. apply rewrite_paths_returns.
    now apply item_path_no_dollar. }
  cbn [bind]. destruct (IH (S newIndex)) as (r' & ->). cbn [bind]. now eexists.
Qed.

(** *** Positions *)

Lemma get_at_app p : forall q n,
  get_at (p ++ q)%list n = match get_at p n with
                      | Some m => get_at q m
                      | None => None
                      end.
Proof.
  induction p as [| i p IH]; simpl; intros q n; [reflexivity|].
  destruct (nth_error (children_of n) i); [apply IH | reflexivity].
Qed.

Lemma nth_error_replace_nth {A : Type} (l : list A) : forall i x y,
  nth_error l i = Some y -> nth_error (replace_nth i x l) i = Some x.
Proof.
  induction l as [| z l IH]; intros [| i] x y; simpl; try discriminate; [reflexivity|].
  apply IH.
Qed.

Lemma update_at_result pos g : forall form n n',
  get_at pos form = Some n ->
  g n = Ret n' ->
  exists form', update_at pos g form = Ret form' /\ get_at pos form' = Some n'.
Proof.
  induction pos as [| i pos IH]; simpl; intros form n n' Hn Hg.
  - injection Hn as ->. now exists n'.
  - destruct (nth_error (children_of form) i) as [c |] eqn:Ec; [| discriminate].
    destruct (IH c n n' Hn Hg) as (c' & -> & Hc'). cbn [bind].
    eexists. split; [reflexivity|].
    rewrite with_children_children, (nth_error_replace_nth _ _ _ _ Ec). exact Hc'.
Qed.

Lemma update_at_fails pos g : forall form n,
  get_at pos form = Some n ->
  (forall n', g n <> Ret n') ->
  forall form', update_at pos g form <> Ret form'.
Proof.
  induction pos as [| i pos IH]; simpl; intros form n Hn Hg form'.
  - injection Hn as ->. apply Hg.
  - destruct (nth_error (children_of form) i) as [c |] eqn:Ec; [| discriminate].
    intros E. apply bind_Ret in E as (c' & Ec' & _). exact (IH c n Hn Hg c' Ec').
Qed.

Lemma drop_last_4 (p : list nat) a b c d : drop_last 4 (p ++ [a; b; c; d])%list = p.
Proof.
  unfold drop_last. rewrite !removelast_app by discriminate. simpl. apply app_nil_r.
Qed.

Lemma drop_last_1 (p : list nat) a : drop_last 1 (p ++ [a])%list = p.
Proof.
  unfold drop_last. rewrite !removelast_app by discriminate. simpl. apply app_nil_r.
Qed.

Lemma last_index_2 (p : list nat) a b c d :
  nth 0 (rev (drop_last 2 (p ++ [a; b; c; d])%list)) 0%nat = b.
Proof.
  unfold drop_last. rewrite !removelast_app by discriminate. simpl.
  now rewrite rev_app_distr.
Qed.

Lemma last_index (p : list nat) a : nth 0 (rev (p ++ [a])%list) 0%nat = a.
Proof. now rewrite rev_app_distr. Qed.

Lemma enabled_at_Some pos form n :
  get_at pos form = Some n -> disabled_of n = false -> enabled_at pos form = Some n.
Proof. unfold enabled_at. now intros -> ->. Qed.

Lemma enabled_at_disabled pos form n :
  get_at pos form = Some n -> disabled_of n = true -> enabled_at pos form = None.
Proof. unfold enabled_at. now intros -> ->. Qed.

(** The items of the container that the wrapper [w] holds first. *)
Definition items_of (wrapper : node) : list node :=
  match children_of wrapper with
  | container :: _ => children_of container
  | [] => []
  end.

Lemma items_of_states w w' :
  without_states w' = without_states w ->
  map without_states (items_of w') = map without_states (items_of w).
Proof.
  intros E. apply without_states_children in E. unfold items_of.
  destruct (children_of w') as [| c' r'], (children_of w) as [| c r];
    simpl in E; try discriminate; [reflexivity|].
  injection E as E _. now apply without_states_children.
Qed.

Lemma map_states_content l l' :
  map without_states l' = map without_states l -> map content l' = map content l.
Proof.
  unfold content. intros E.
  rewrite <- (map_map without_states without_paths l'), E. apply map_map.
Qed.

Lemma map_paths_content l l' :
  map without_paths l' = map without_paths l -> map content l' = map content l.
Proof.
  intros E. transitivity (map without_states (map without_paths l')).
  - rewrite map_map. apply map_ext. intros x. apply without_commute.
  - rewrite E, map_map. apply map_ext. intros x. symmetry. apply without_commute.
Qed.

Lemma map_states_data key l l' :
  map without_states l' = map without_states l -> map (data key) l' = map (data key) l.
Proof.
  revert l'. induction l as [| x l IH]; intros [| x' l'] E; simpl in E; try discriminate;
    [reflexivity|].
  injection E as Ex E. simpl. rewrite (IH _ E). f_equal.
  unfold data. now rewrite (without_states_dataset _ _ Ex).
Qed.

(** X17.  A click on an enabled Remove button takes out exactly the item
    of that button.  When the array is not at its [minItems] and its path
    holds no [$], the click returns; the items of the array are then the
    other items, in their order and with the content they had (only their
    paths and the states of buttons can differ), and they carry the paths
    [path[0]], [path[1]], ... without a gap.  A disabled Remove button does
    nothing. *)
Theorem removal_takes_out_one_item (H : Host) (state_schema : json) (fuel : nat)
        (form wrapper container button : node) (rest : list node)
        (wpos : list nat) (index c b : nat) (path : string) :
  get_at wpos form = Some wrapper ->
  children_of wrapper = container :: rest ->
  get_at (wpos ++ [0; index; c; b]%nat)%list form = Some button ->
  handler_of button = Some (OnRemoveItem path) ->
  (disabled_of button = true ->
   click state_schema fuel (wpos ++ [0; index; c; b]%nat)%list form = Ret form)
  /\ (disabled_of button = false ->
      at_minItems container = false ->
      includes_char "$" path = false ->
      exists form' wrapper',
        click state_schema fuel (wpos ++ [0; index; c; b]%nat)%list form = Ret form'
        /\ get_at wpos form' = Some wrapper'
        /\ map content (items_of wrapper')
           = map content (remove_nth index (children_of container))
        /\ map (data "schemaPath") (items_of wrapper')
           = map (fun i => Some (item_path path i))
                 (seq 0 (List.length (remove_nth index (children_of container))))).
Proof.
  intros Hw Hc Hb Hh. split.
  - intros Hd. unfold click. now rewrite (enabled_at_disabled _ _ _ Hb Hd).
  - intros Hd Hmin Hp. unfold click.
    rewrite (enabled_at_Some _ _ _ Hb Hd). cbn [option_map]. rewrite Hh.
    rewrite drop_last_4, last_index_2.
    destruct (renumber_from_returns path (remove_nth index (children_of container)) Hp 0%nat)
      as (items' & Er).
    assert (Ec : renumberArrayItems
                   (with_children container (remove_nth index (children_of container))) path
                 = Ret (with_children container items')).
    { unfold renumberArrayItems. rewrite with_children_children, Er. cbn [bind].
      f_equal. now destruct container. }
    pose (wrapper' := updateArrayButtonStates first_secondary
                        (with_children wrapper (with_children container items' :: rest))).
    assert (Eclick : remove_item_click path index wrapper = Ret wrapper').
    { unfold remove_item_click. rewrite Hc, Hmin, Ec. reflexivity. }
    destruct (update_at_result wpos _ form wrapper wrapper' Hw Eclick) as (form' & Ef & Eg).
    exists form', wrapper'. split; [exact Ef|]. split; [exact Eg|].
    assert (Es : map without_states (items_of wrapper') = map without_states items').
    { unfold wrapper'.
      rewrite (items_of_states _ _ (updateArrayButtonStates_states H first_secondary _
                                      first_secondary_states)).
      unfold items_of. now rewrite !with_children_children. }
    split.
    + rewrite (map_states_content _ _ Es).
      apply map_paths_content. exact (renumber_from_content _ _ _ _ Er).
    + rewrite (map_states_data _ _ _ Es). exact (renumber_from_paths _ _ _ _ Er).
Qed.

Definition three_tags_schema : json :=
  JObj [("type", JStr "array"); ("items", JObj [("type", JStr "string")])].

(** Three clicks on Add, with [a], [b] and [c] typed into the items. *)
Definition three_tags : node :=
  Eval vm_compute in
    match (form <- renderSchemaForm (H := example_host) three_tags_schema 3 three_tags_schema ;;
           form <- click three_tags_schema 3 [0; 1; 1]%nat form ;;
           form <- click three_tags_schema 3 [0; 1; 1]%nat form ;;
           form <- click three_tags_schema 3 [0; 1; 1]%nat form ;;
           form <- input [0; 1; 0; 0; 0; 0]%nat "a" form ;;
           form <- input [0; 1; 0; 1; 0; 0]%nat "b" form ;;
           input [0; 1; 0; 2; 0; 0]%nat "c" form) with
    | Ret form => form
    | _ => element "div" [] []
    end.

Lemma removal_takes_out_one_item_witness :
  exists form',
    click (H := example_host) three_tags_schema 3 [0; 1; 0; 1; 1; 0]%nat three_tags = Ret form'
    /\ collectData (H := example_host) three_tags_schema three_tags 3 three_tags_schema "root"
       = Ret (JArr [JStr "a"; JStr "b"; JStr "c"])
    /\ collectData (H := example_host) three_tags_schema form' 3 three_tags_schema "root"
       = Ret (JArr [JStr "a"; JStr "c"]).
Proof.
  destruct (get_at [0; 1]%nat three_tags) as [wrapper |] eqn:Ew; [| discriminate Ew].
  destruct (children_of wrapper) as [| container rest] eqn:Ec;
    [vm_compute in Ew; injection Ew as <-; discriminate Ec|].
  destruct (get_at ([0; 1] ++ [0; 1; 1; 0])%list%nat three_tags) as [button |] eqn:Eb;
    [| discriminate Eb].
  destruct (proj2 (removal_takes_out_one_item example_host three_tags_schema 3 three_tags
                     wrapper container button rest [0; 1]%nat 1 1 0 "root" Ew Ec Eb
                     ltac:(vm_compute in Eb; injection Eb as <-; reflexivity))
                  ltac:(vm_compute in Eb; injection Eb as <-; reflexivity)
                  ltac:(vm_compute in Ew; injection Ew as <-; cbn [children_of] in Ec;
                        injection Ec as <- _; reflexivity)
                  eq_refl)
    as (form' & wrapper' & Eclick & _).
  exists form'. split; [exact Eclick|]. split; [vm_compute; reflexivity|].
  vm_compute in Eclick. injection Eclick as <-. vm_compute. reflexivity.
Defined.

(** ** External references *)

Lemma fragment_step_child (H : Host) doc s v :
  child_at doc s = Some v -> fragment_step doc s = Ret v.
Proof.
  unfold child_at, fragment_step. destruct doc; try discriminate.
  - destruct (array_index s); [| discriminate]. now intros ->.
  - now intros ->.
Qed.

Lemma fragment_walk_null (H : Host) segments : foldM fragment_step segments JNull = Ret JNull.
Proof. induction segments as [| s r IH]; simpl; [reflexivity | exact IH]. Qed.

Lemma fragment_step_missing (H : Host) doc s :
  child_at doc s = None -> plainly_missing doc s -> fragment_step doc s = Ret JNull.
Proof.
  unfold child_at, fragment_step, plainly_missing. intros C [Hi Hd]. rewrite Hi.
  destruct doc; try reflexivity.
  - destruct (array_index s); [now rewrite C|].
    destruct (String.eqb_spec s "length"); [contradiction | reflexivity].
  - now rewrite C.
Qed.

Lemma resolveFragment_pointer (H : Host) doc s r :
  resolveFragment doc (pointer_of (s :: r)) = foldM fragment_step (s :: r) doc.
Proof.
  unfold resolveFragment. cbn [pointer_of String.eqb slice_from].
  assert (Sw : starts_with "/" (String "/" (escape_segment s ++ pointer_of r)) = true)
    by (unfold starts_with; simpl; now destruct (escape_segment s ++ pointer_of r)).
  rewrite Sw. rewrite split_pointer, map_map.
  now rewrite (map_ext _ (fun x => x) (fun x => unescape_escape x)), map_id.
Qed.

(** X18.  A fragment that is a JSON pointer is followed member by member:
    [resolveFragment] returns the subtree of the fetched document the
    pointer leads to, and [null] when the pointer leaves the document at a
    member that is plainly not there. *)
Theorem resolveFragment_follows_pointer (H : Host) (document : json)
        (segments : list string) :
  match locate document segments with
  | Found subtree => resolveFragment document (pointer_of segments) = Ret subtree
  | Missing container segment =>
      plainly_missing container segment ->
      resolveFragment document (pointer_of segments) = Ret JNull
  end.
Proof.
  destruct segments as [| s r]; [reflexivity|].
  rewrite resolveFragment_pointer. generalize (s :: r). clear s r.
  intros segments. revert document.
  induction segments as [| s r IH]; intros document; [reflexivity|].
  cbn [locate foldM]. destruct (child_at document s) as [v |] eqn:C.
  - rewrite (fragment_step_child H _ _ _ C). cbn [bind]. apply IH.
  - intros P. rewrite (fragment_step_missing H _ _ C P). cbn [bind].
    apply fragment_walk_null.
Qed.

Lemma resolveFragment_follows_pointer_witness :
  resolveFragment (H := example_host) circle_document "/$defs/Circle"
  = Ret (JObj [("title", JStr "Circle")])
  /\ (plainly_missing (H := example_host) (JObj [("Circle", JObj [("title", JStr "Circle")])])
                      "Square"
      /\ resolveFragment (H := example_host) circle_document "/$defs/Square/title" = Ret JNull).
Proof.
  split.
  - exact (resolveFragment_follows_pointer example_host circle_document ["$defs"; "Circle"]).
  - assert (P : plainly_missing (H := example_host)
                  (JObj [("Circle", JObj [("title", JStr "Circle")])]) "Square")
      by (split; [reflexivity | exact I]).
    split; [exact P|].
    exact (resolveFragment_follows_pointer example_host circle_document
             ["$defs"; "Square"; "title"] P).
Defined.

Section FetchedOnce.
Context {H : Host}.
Variable fetch : list string -> string -> response.
Variable base : string.
Hypothesis Hhttp : is_http base = true.
Hypothesis Hbase : includes_char "#" base = false.

(** [resolveExternalRef] on a reference to [base], once the reference is
    split. *)
Lemma resolveExternalRef_to_base fragment w :
  resolveExternalRef fetch (JStr (reference_to base fragment)) w
  = let at_fragment (baseSchema : json) : outcome json :=
      match fragment with
      | None => Ret baseSchema
      | Some f => resolveFragment baseSchema (hd "" (split_on "#" f))
      end in
    match cache_get base (externalSchemaCache w) with
    | Some baseSchema =>
        match baseSchema with
        | JNull => Ret (JNull, w)
        | _ => v <- at_fragment baseSchema ;; Ret (v, w)
        end
    | None =>
        match fetch (requests w) base with
        | Status true (Some baseSchema) =>
            v <- at_fragment baseSchema ;;
            Ret (v, {| externalSchemaCache := cache_set base baseSchema (externalSchemaCache w);
                       requests := (requests w ++ [base])%list |})
        | _ => Ret (JNull, {| externalSchemaCache :=
                                cache_set base JNull (externalSchemaCache w);
                              requests := (requests w ++ [base])%list |})
        end
    end.
Proof.
  unfold resolveExternalRef.
  pose proof (reference_to_http base fragment Hhttp) as Hr.
  cbn [truthy]. rewrite (is_http_nonempty _ Hr). cbn [negb].
  unfold is_http in Hr. apply orb_true_iff in Hr.
  replace (negb (starts_with "http://" (reference_to base fragment))
           && negb (starts_with "https://" (reference_to base fragment))) with false
    by (destruct Hr as [-> | ->]; [reflexivity | now rewrite andb_false_r]).
  rewrite (reference_split base Hbase). destruct fragment; reflexivity.
Qed.

Lemma resolveFragment_null fragment : resolveFragment JNull fragment = Ret JNull.
Proof.
  unfold resolveFragment. destruct (String.eqb fragment ""); [reflexivity|].
  destruct (starts_with "/" fragment); [apply fragment_walk_null | reflexivity].
Qed.
End FetchedOnce.

(** X19.  A document that was fetched is not fetched again: the first
    reference to a base URL whose fetch succeeds issues one request and
    stores the document, and every later reference to that URL, whatever its
    fragment, is answered from the store, leaving store and requests as
    they are and giving for the same fragment the same schema. *)
Theorem fetched_document_is_reused (H : Host) (fetch : list string -> string -> response)
        (base : string) (w w1 : world) (body resolved : json) (fragment : option string) :
  is_http base = true ->
  includes_char "#" base = false ->
  cache_get base (externalSchemaCache w) = None ->
  fetch (requests w) base = Status true (Some body) ->
  resolveExternalRef fetch (JStr (reference_to base fragment)) w = Ret (resolved, w1) ->
  requests w1 = (requests w ++ [base])%list
  /\ cache_get base (externalSchemaCache w1) = Some body
  /\ resolveExternalRef fetch (JStr (reference_to base fragment)) w1 = Ret (resolved, w1)
  /\ forall fragment' resolved' w2,
       resolveExternalRef fetch (JStr (reference_to base fragment')) w1 = Ret (resolved', w2) ->
       w2 = w1.
Proof.
  intros Hhttp Hbase Hc Hf E.
  rewrite (resolveExternalRef_to_base fetch base Hhttp Hbase) in E.
  cbv zeta in E. rewrite Hc, Hf in E.
  apply bind_Ret in E as (v & Ev & E). injection E as <- <-.
  cbn [requests externalSchemaCache].
  split; [reflexivity|]. split; [apply cache_get_set_same|]. split.
  - rewrite (resolveExternalRef_to_base fetch base Hhttp Hbase). cbv zeta.
    cbn [externalSchemaCache]. rewrite cache_get_set_same.
    destruct body; try (rewrite Ev; reflexivity).
    destruct fragment as [f |]; [| now injection Ev as <-].
    rewrite resolveFragment_null in Ev. now injection Ev as <-.
  - intros fragment' resolved' w2 E2.
    rewrite (resolveExternalRef_to_base fetch base Hhttp Hbase) in E2. cbv zeta in E2.
    cbn [externalSchemaCache] in E2. rewrite cache_get_set_same in E2.
    destruct body; try (apply bind_Ret in E2 as (v' & _ & E2));
      now injection E2 as _ <-.
Qed.

Definition shapes_server : list string -> string -> response :=
  fun _ url =>
    if String.eqb url "https://x/shapes.json" then Status true (Some circle_document)
    else NetworkError.

Definition shapes_world : world :=
  {| externalSchemaCache := [("https://x/shapes.json", circle_document)];
     requests := ["https://x/shapes.json"] |}.

Lemma fetched_document_is_reused_witness :
  resolveExternalRef (H := example_host) shapes_server
    (JStr "https://x/shapes.json#/$defs/Circle") empty_world
  = Ret (JObj [("title", JStr "Circle")], shapes_world)
  /\ resolveExternalRef (H := example_host) shapes_server
       (JStr "https://x/shapes.json#/$defs/Circle") shapes_world
     = Ret (JObj [("title", JStr "Circle")], shapes_world).
Proof.
  assert (E : resolveExternalRef (H := example_host) shapes_server
                (JStr (reference_to "https://x/shapes.json" (Some "/$defs/Circle")))
                empty_world
              = Ret (JObj [("title", JStr "Circle")], shapes_world))
    by (vm_compute; reflexivity).
  split; [exact E|].
  exact (proj1 (proj2 (proj2
    (fetched_document_is_reused example_host shapes_server "https://x/shapes.json"
       empty_world shapes_world circle_document (JObj [("title", JStr "Circle")])
       (Some "/$defs/Circle") eq_refl eq_refl eq_refl eq_refl E)))).
Defined.

(** No reference by URL anywhere in the schema. *)
Fixpoint no_external_ref (schema : json) : bool :=
  match schema with
  | JArr l =>
      (fix all (l : list json) : bool :=
         match l with
         | [] => true
         | x :: r => no_external_ref x && all r
         end) l
  | JObj m =>
      negb (match assoc "$ref" m with
            | Some (JStr r) => negb (String.eqb r "") && is_http r
            | _ => false
            end)
      && (fix all (m : list (string * json)) : bool :=
            match m with
            | [] => true
            | kv :: r => no_external_ref (snd kv) && all r
            end) m
  | _ => true
  end.

Lemma no_external_ref_items l :
  no_external_ref (JArr l) = forallb no_external_ref l.
Proof. induction l as [| x l IH]; simpl in *; [reflexivity | now rewrite IH]. Qed.

Lemma no_external_ref_object m :
  no_external_ref (JObj m)
  = negb (match assoc "$ref" m with
          | Some (JStr r) => negb (String.eqb r "") && is_http r
          | _ => false
          end)
    && forallb (fun kv => no_external_ref (snd kv)) m.
Proof.
  reflexivity.
Qed.

Lemma no_external_ref_members m :
  no_external_ref (JObj m) = true ->
  forallb (fun kv => no_external_ref (snd kv)) m = true.
Proof. rewrite no_external_ref_object. intros E. now apply andb_true_iff in E. Qed.

Lemma define_In k v m kv : In kv (define k v m) -> kv = (k, v) \/ In kv m.
Proof.
  unfold define. destruct (has_own k m).
  - induction m as [| [k' v'] m IH]; simpl; [tauto|].
    destruct (String.eqb_spec k k') as [-> | N]; simpl; intuition (subst; auto).
  - destruct (array_index k) as [n |].
    + induction m as [| [k' v'] m IH]; simpl; [intuition (subst; auto)|].
      destruct (array_index k') as [n' |]; [destruct (N.ltb n n')|]; simpl;
        intuition (subst; auto).
    + rewrite in_app_iff. simpl. intuition (subst; auto).
Qed.

Lemma fold_define_In es : forall m kv,
  In kv (fold_left (fun acc e => define (fst e) (snd e) acc) es m) -> In kv es \/ In kv m.
Proof.
  induction es as [| [k v] es IH]; simpl; intros m kv Hin; [now right|].
  apply IH in Hin as [Hin | Hin]; [tauto|].
  apply define_In in Hin as [-> | Hin]; tauto.
Qed.

Section Untouched.
Context {H : Host}.
Variable fetch : list string -> string -> response.

Lemma pre_each_untouched rec l : forall w l' w',
  (forall x w v w', In x l -> rec x w = Ret (v, w') -> w' = w) ->
  pre_each rec l w = Ret (l', w') -> w' = w.
Proof.
  induction l as [| x l IH]; simpl; intros w l' w' Hrec E.
  - now injection E as _ <-.
  - apply bind_Ret in E as ([y w1] & Ey & E). apply bind_Ret in E as ([ys w2] & Eys & E).
    injection E as _ <-.
    rewrite (IH _ _ _ (fun x0 a b c Hx => Hrec x0 a b c (or_intror Hx)) Eys).
    eapply Hrec; [now left | exact Ey].
Qed.

Lemma pre_members_untouched rec entries : forall result w result' w',
  (forall kv w v w', In kv entries -> rec (snd kv) w = Ret (v, w') -> w' = w) ->
  pre_members rec entries result w = Ret (result', w') -> w' = w.
Proof.
  induction entries as [| [key value] entries IH]; simpl; intros result w result' w' Hrec E.
  - now injection E as _ <-.
  - destruct (typeof_object value && negb (json_eqb value JNull)).
    + apply bind_Ret in E as ([v w1] & Ev & E).
      rewrite (IH _ _ _ _ (fun kv a b c Hx => Hrec kv a b c (or_intror Hx)) E).
      eapply (Hrec (key, value)); [now left | exact Ev].
    + exact (IH _ _ _ _ (fun kv a b c Hx => Hrec kv a b c (or_intror Hx)) E).
Qed.

Lemma preResolve_untouched fuel : forall schema w resolved w',
  no_external_ref schema = true ->
  preResolveExternalRefs fetch fuel schema w = Ret (resolved, w') -> w' = w.
Proof.
  induction fuel as [| fuel IH]; intros schema w resolved w' Hn E; [discriminate|].
  change (preResolve_body fetch (preResolveExternalRefs fetch fuel) schema w
          = Ret (resolved, w')) in E.
  unfold preResolve_body in E.
  destruct schema as [| | b | n | s | l | m];
    try (cbn [truthy typeof_object negb orb] in E; rewrite ?orb_true_r in E;
         now injection E as _ <-);
    cbn [truthy typeof_object negb orb] in E.
  - apply bind_Ret in E as ([l' w1] & El & E). injection E as _ <-.
    eapply pre_each_untouched; [| exact El].
    intros x w0 v w0' Hx Ex. eapply IH; [| exact Ex].
    rewrite no_external_ref_items, forallb_forall in Hn. now apply Hn.
  - assert (X : match prop (JObj m) "$ref" with
                | JStr r => truthy (prop (JObj m) "$ref")
                            && (starts_with "http://" r || starts_with "https://" r)
                | _ => false
                end = false).
    { rewrite no_external_ref_object in Hn. apply andb_true_iff in Hn as [Hn _].
      unfold prop. destruct (assoc "$ref" m) as [[| | | | r | |] |]; try reflexivity.
      cbn [truthy]. unfold is_http in Hn. now apply negb_true_iff in Hn. }
    rewrite X in E. unfold spread_onto in E. cbn [own_entries bind] in E.
    apply bind_Ret in E as ([result w1] & Em & E). injection E as _ <-.
    eapply pre_members_untouched; [| exact Em].
    intros kv w0 v w0' Hkv Ekv. eapply IH; [| exact Ekv].
    apply fold_define_In in Hkv as [Hkv | []].
    apply no_external_ref_members in Hn. rewrite forallb_forall in Hn. now apply Hn.
Qed.
End Untouched.

Section Returns.
Context {H : Host}.

Lemma pre_each_returns rec l : forall w,
  (forall x, In x l -> exists v, rec x w = Ret (v, w)) ->
  exists l', pre_each rec l w = Ret (l', w).
Proof.
  induction l as [| x l IH]; intros w Hrec; [now eexists|].
  destruct (Hrec x (or_introl eq_refl)) as (v & Ev).
  destruct (IH w (fun y Hy => Hrec y (or_intror Hy))) as (l' & El).
  exists (v :: l')%list. cbn [pre_each]. rewrite Ev. cbn [bind]. now rewrite El.
Qed.

Lemma pre_members_returns rec entries : forall result w,
  (forall kv, In kv entries -> exists v, rec (snd kv) w = Ret (v, w)) ->
  exists result', pre_members rec entries result w = Ret (result', w).
Proof.
  induction entries as [| [key value] entries IH]; intros result w Hrec;
    [now eexists|].
  cbn [pre_members].
  destruct (typeof_object value && negb (json_eqb value JNull)).
  - destruct (Hrec (key, value) (or_introl eq_refl)) as (v & Ev).
    cbn [snd] in Ev. rewrite Ev. cbn [bind].
    apply IH. intros kv Hkv. apply Hrec. now right.
  - apply IH. intros kv Hkv. apply Hrec. now right.
Qed.

Lemma preResolve_returns fetch fuel : forall schema w,
  no_external_ref schema = true ->
  (depth schema < fuel)%nat ->
  exists resolved, preResolveExternalRefs fetch fuel schema w = Ret (resolved, w).
Proof.
  induction fuel as [| fuel IH]; intros schema w Hn Hd; [lia|].
  change (exists resolved,
             preResolve_body fetch (preResolveExternalRefs fetch fuel) schema w
             = Ret (resolved, w)).
  unfold preResolve_body.
  destruct schema as [| | b | n | s | l | m];
    try (cbn [truthy typeof_object negb orb]; rewrite ?orb_true_r; now eexists);
    cbn [truthy typeof_object negb orb].
  - destruct (pre_each_returns (preResolveExternalRefs fetch fuel) l w) as (l' & ->).
    + intros x Hx. apply IH.
      * rewrite no_external_ref_items, forallb_forall in Hn. now apply Hn.
      * pose proof (depth_item x l Hx). lia.
    + now eexists.
  - assert (X : match prop (JObj m) "$ref" with
                | JStr r => truthy (prop (JObj m) "$ref")
                            && (starts_with "http://" r || starts_with "https://" r)
                | _ => false
                end = false).
    { rewrite no_external_ref_object in Hn. apply andb_true_iff in Hn as [Hn _].
      unfold prop. destruct (assoc "$ref" m) as [[| | | | r | |] |]; try reflexivity.
      cbn [truthy]. unfold is_http in Hn. now apply negb_true_iff in Hn. }
    rewrite X. unfold spread_onto. cbn [own_entries bind].
    destruct (pre_members_returns (preResolveExternalRefs fetch fuel)
                (fold_left (fun acc kv => define (fst kv) (snd kv) acc) m [])
                (fold_left (fun acc kv => define (fst kv) (snd kv) acc) m []) w)
      as (result & ->).
    + intros kv Hkv. apply fold_define_In in Hkv as [Hkv | []]. apply IH.
      * apply no_external_ref_members in Hn. rewrite forallb_forall in Hn. now apply Hn.
      * pose proof (depth_member kv m Hkv). lia.
    + now eexists.
Qed.
End Returns.

(** X20.  A schema without references by URL is prepared off line: when no
    [$ref] in it is an http or https URL, [preResolveExternalRefs] returns
    once its bound is above the nesting depth of the schema, and whenever it
    returns it has issued no request and left the store of fetched documents
    as it is. *)
Theorem no_external_reference_no_request (H : Host)
        (fetch : list string -> string -> response) (schema : json) (w : world) :
  no_external_ref schema = true ->
  (forall fuel, (depth schema < fuel)%nat ->
     exists resolved, preResolveExternalRefs fetch fuel schema w = Ret (resolved, w))
  /\ (forall fuel resolved w',
        preResolveExternalRefs fetch fuel schema w = Ret (resolved, w') -> w' = w).
Proof.
  intros Hn. split.
  - intros fuel Hd. now apply preResolve_returns.
  - intros fuel resolved w' E. now apply (preResolve_untouched fetch fuel schema w resolved w').
Qed.

Definition shape_schema : json :=
  JObj [("properties", JObj [("shape", JObj [("$ref", JStr "#/$defs/Circle")])])].

Lemma no_external_reference_no_request_witness :
  no_external_ref shape_schema = true
  /\ preResolveExternalRefs (H := example_host) shapes_server 4 shape_schema empty_world
     = Ret (shape_schema, empty_world).
Proof.
  split; [reflexivity|].
  destruct (proj1 (no_external_reference_no_request example_host shapes_server
                     shape_schema empty_world eq_refl) 4%nat ltac:(simpl; lia))
    as (resolved & E).
  pose proof E as E2. vm_compute in E2. injection E2 as <-. exact E.
Defined.

(** ** Constants, defaults and dynamic properties in the form *)

Definition const_schema (z : Z) : json := JObj [("const", JNum (Int z))].

Definition typed_const_schema (z : Z) : json :=
  JObj [("type", JStr "integer"); ("const", JNum (Int z))].

(** X21.  A constant needs its [type] to be collected as a number.  For an
    exactly representable integer [z], the form of the schema with
    [const: z] alone shows the digits of [z], and collecting it returns
    those digits as a string; with [type: "integer"] beside the constant the
    collected value is the number [z]. *)
Theorem constant_without_type_is_collected_as_text (H : Host) (z : Z) :
  safe_integer z = true ->
  (exists form,
      renderSchemaForm (const_schema z) 2 (const_schema z) = Ret form
      /\ forall fuel, collectData (const_schema z) form (S fuel) (const_schema z) "root"
                      = Ret (JStr (Z_to_string z)))
  /\ (exists form,
         renderSchemaForm (typed_const_schema z) 2 (typed_const_schema z) = Ret form
         /\ forall fuel, collectData (typed_const_schema z) form (S fuel)
                                     (typed_const_schema z) "root"
                         = Ret (JNum (Int z))).
Proof.
  intros Hs. split.
  - eexists. split.
    + unfold renderSchemaForm, const_schema.
      cbn -[Z_to_string plain_integer safe_integer].
      rewrite Hs, Z_to_string_nonempty, plain_integer_Z_to_string. reflexivity.
    + intros fuel. unfold const_schema.
      cbn -[Z_to_string plain_integer safe_integer query_data].
      unfold query_data. change (selector_safe "root") with true.
      cbn -[Z_to_string plain_integer safe_integer].
      now rewrite ?Z_to_string_nonempty.
  - eexists. split.
    + unfold renderSchemaForm, typed_const_schema.
      cbn -[Z_to_string plain_integer safe_integer].
      rewrite Hs, Z_to_string_nonempty, plain_integer_Z_to_string. reflexivity.
    + intros fuel. unfold typed_const_schema.
      cbn -[Z_to_string plain_integer safe_integer query_data].
      unfold query_data. change (selector_safe "root") with true.
      cbn -[Z_to_string plain_integer safe_integer].
      rewrite ?Z_to_string_nonempty. now rewrite (Number_of_Z_to_string H z Hs).
Qed.

Lemma constant_without_type_is_collected_as_text_witness :
  safe_integer 5 = true
  /\ exists form,
      renderSchemaForm (H := example_host) (const_schema 5) 2 (const_schema 5) = Ret form
      /\ forall fuel, collectData (H := example_host) (const_schema 5) form (S fuel)
                                  (const_schema 5) "root"
                      = Ret (JStr "5").
Proof.
  split; [reflexivity|].
  exact (proj1 (constant_without_type_is_collected_as_text example_host 5 eq_refl)).
Defined.

(** ** Dynamic properties *)

Definition dyn_schema (p : string) : json :=
  JObj [("type", JStr "object");
        ("patternProperties", JObj [(p, JObj [("type", JStr "string")])])].

Lemma query_data_safe key path n :
  selector_safe path = true ->
  query_data key path n
  = Ret (find (fun d => match data key d with
                        | Some q => String.eqb q path
                        | None => false
                        end) (descendants n)).
Proof. unfold query_data. now intros ->. Qed.

(** Two dynamic properties added, the second one filled in with [name]
    and [v]. *)
Definition two_entries {H : Host} (p name v : string) : outcome node :=
  form <- renderSchemaForm (dyn_schema p) 3 (dyn_schema p) ;;
  form <- click (dyn_schema p) 3 [0; 1; 2]%nat form ;;
  form <- click (dyn_schema p) 3 [0; 1; 2]%nat form ;;
  form <- input [0; 1; 1; 1; 0; 1; 0]%nat name form ;;
  input [0; 1; 1; 1; 1; 0; 0]%nat v form.

Ltac crunch := cbn -[strip_newlines trim array_index query_data].

(** X22.  Dynamic properties are found by their position, and keep the
    number they were created with.  With two entries added and the second
    one filled in with a name that matches the pattern and a value, the
    document has that property; once the first entry is removed, the second
    is looked up under the number of the first, is not found, and the
    document is empty although the entry is still in the form. *)
Theorem removing_an_entry_hides_the_next (H : Host) (p name v : string) :
  p <> "" -> RegExp_test p name = Some true ->
  strip_newlines name = name -> trim name = Ret name ->
  name <> "" -> name <> "__proto__" ->
  strip_newlines v = v -> v <> "" ->
  exists filled removed,
    two_entries p name v = Ret filled
    /\ (forall fuel, collectData (dyn_schema p) filled (2 + fuel) (dyn_schema p) "root"
                     = Ret (JObj [(name, JStr v)]))
    /\ click (dyn_schema p) 3 [0; 1; 1; 0; 2; 0]%nat filled = Ret removed
    /\ (forall fuel, collectData (dyn_schema p) removed (2 + fuel) (dyn_schema p) "root"
                     = Ret (JObj [])).
Proof.
  intros Hp Hre Hn Ht Hne Hnp Hv Hve.
  eexists. eexists. split; [| split; [| split]].
  - unfold two_entries, renderSchemaForm, dyn_schema.
    cbn -[strip_newlines trim array_index query_data].
    rewrite Hn, Hv. reflexivity.
  - intros fuel. unfold dyn_schema.
    assert (En : String.eqb name "" = false) by now apply String.eqb_neq.
    assert (Ev : String.eqb v "" = false) by now apply String.eqb_neq.
    assert (Ep : String.eqb p "" = false) by now apply String.eqb_neq.
    assert (Epr : String.eqb name "__proto__" = false) by now apply String.eqb_neq.
    crunch. unfold collectPatternPropertiesData.
    rewrite !query_data_safe by reflexivity. crunch.
    change (trim "") with (Ret ""). crunch.
    rewrite Ht. crunch. rewrite En, Hre. crunch. rewrite Ep. crunch.
    rewrite !query_data_safe by reflexivity. crunch.
    unfold assign, define. crunch. rewrite ?Ev, ?Epr. crunch.
    destruct (array_index name) eqn:An;
      repeat (progress (rewrite ?Ev, ?Epr, ?An); crunch); try reflexivity.
  - crunch. reflexivity.
  - intros fuel. unfold dyn_schema.
    assert (En : String.eqb name "" = false) by now apply String.eqb_neq.
    assert (Ep : String.eqb p "" = false) by now apply String.eqb_neq.
    crunch. unfold collectPatternPropertiesData.
    rewrite !query_data_safe by reflexivity. crunch.
    rewrite Ht. crunch. rewrite En, Hre. crunch. rewrite Ep. crunch.
    rewrite !query_data_safe by reflexivity. crunch. reflexivity.
Qed.

Lemma removing_an_entry_hides_the_next_witness :
  exists filled removed,
    two_entries (H := example_host) "^x" "x1" "one" = Ret filled
    /\ (forall fuel, collectData (H := example_host) (dyn_schema "^x") filled (2 + fuel)
                                 (dyn_schema "^x") "root"
                     = Ret (JObj [("x1", JStr "one")]))
    /\ click (H := example_host) (dyn_schema "^x") 3 [0; 1; 1; 0; 2; 0]%nat filled
       = Ret removed
    /\ (forall fuel, collectData (H := example_host) (dyn_schema "^x") removed (2 + fuel)
                                 (dyn_schema "^x") "root"
                     = Ret (JObj [])).
Proof.
  apply (removing_an_entry_hides_the_next example_host "^x" "x1" "one");
    try reflexivity; discriminate.
Defined.


(** ** Defaults *)

Definition string_default_schema (s : string) : json :=
  JObj [("type", JStr "string"); ("default", JStr s)].

Definition integer_default_schema (z : Z) : json :=
  JObj [("type", JStr "integer"); ("default", JNum (Int z))].

(** X23.  A default is in the document before anything is typed: the form of
    a string schema with a default collects the default (without its line
    breaks, which a text input does not keep), and the form of an integer
    schema with an exactly representable default collects that number. *)
Theorem default_value_is_collected (H : Host) :
  (forall s, exists form,
      renderSchemaForm (string_default_schema s) 2 (string_default_schema s) = Ret form
      /\ forall fuel, collectData (string_default_schema s) form (S fuel)
                                  (string_default_schema s) "root"
                      = Ret (JStr (strip_newlines s)))
  /\ (forall z, safe_integer z = true ->
        exists form,
          renderSchemaForm (integer_default_schema z) 2 (integer_default_schema z) = Ret form
          /\ forall fuel, collectData (integer_default_schema z) form (S fuel)
                                      (integer_default_schema z) "root"
                          = Ret (JNum (Int z))).
Proof.
  split.
  - intros s. eexists. split.
    + unfold renderSchemaForm, string_default_schema.
      cbn -[strip_newlines]. reflexivity.
    + intros fuel. unfold string_default_schema.
      cbn -[strip_newlines query_data].
      rewrite query_data_safe by reflexivity. cbn -[strip_newlines].
      now destruct (String.eqb (strip_newlines s) "").
  - intros z Hs. eexists. split.
    + unfold renderSchemaForm, integer_default_schema.
      cbn -[Z_to_string plain_integer safe_integer].
      rewrite Hs, Z_to_string_nonempty, plain_integer_Z_to_string. reflexivity.
    + intros fuel. unfold integer_default_schema.
      cbn -[Z_to_string plain_integer safe_integer query_data].
      rewrite query_data_safe by reflexivity.
      cbn -[Z_to_string plain_integer safe_integer].
      rewrite ?Z_to_string_nonempty. now rewrite (Number_of_Z_to_string H z Hs).
Qed.

Lemma default_value_is_collected_witness :
  safe_integer 7 = true
  /\ exists form,
      renderSchemaForm (H := example_host) (integer_default_schema 7) 2
                       (integer_default_schema 7) = Ret form
      /\ forall fuel, collectData (H := example_host) (integer_default_schema 7) form
                                  (S fuel) (integer_default_schema 7) "root"
                      = Ret (JNum (Int 7)).
Proof.
  split; [reflexivity|].
  exact (proj2 (default_value_is_collected example_host) 7%Z eq_refl).
Defined.

(** ** Switching variants *)

Definition two_texts : json :=
  JObj [("oneOf", JArr [JObj [("type", JStr "string")];
                        JObj [("type", JStr "string"); ("title", JStr "other")]])].

(** X24.  What was typed into a variant does not survive a change of variant:
    after a text is typed into the first variant it is in the document, and
    after the selector is moved to the second variant and back, the field
    of the first variant is empty again. *)
Theorem switching_variant_discards_input (H : Host) (text : string) :
  exists typed back,
    (form <- renderSchemaForm two_texts 4 two_texts ;;
     input [0; 1; 1; 0; 1; 0]%nat text form) = Ret typed
    /\ (forall fuel, collectData two_texts typed (2 + fuel) two_texts "root"
                     = Ret (JStr (strip_newlines text)))
    /\ (form <- change two_texts 4 [0; 1; 0]%nat "1" typed ;;
        change two_texts 4 [0; 1; 0]%nat "0" form) = Ret back
    /\ (forall fuel, collectData two_texts back (2 + fuel) two_texts "root"
                     = Ret (JStr "")).
Proof.
  eexists. eexists. split; [| split; [| split]].
  - unfold renderSchemaForm, two_texts. cbn -[strip_newlines]. reflexivity.
  - intros fuel. unfold two_texts.
    cbn -[strip_newlines query_data]. rewrite query_data_safe by reflexivity.
    cbn -[strip_newlines]. now destruct (String.eqb (strip_newlines text) "").
  - vm_compute. reflexivity.
  - intros fuel. vm_compute. reflexivity.
Qed.

(** ** Adding an array item *)

Lemma addArrayItem_path (H : Host) st rec index itemSchema path value item :
  addArrayItem st rec index itemSchema path value = Ret item ->
  data "schemaPath" item = Some (item_path path index).
Proof.
  unfold addArrayItem. intros E.
  apply bind_Ret in E as (effective & _ & E). apply bind_Ret in E as (body & _ & E).
  injection E as <-. reflexivity.
Qed.

(** X25.  A click on an Add button appends exactly one item, or nothing.
    The click leaves the form as it is when the button is disabled and when
    the schema's [maxItems] is reached.  Otherwise the item that
    [addArrayItem] builds for the next index is appended: it has the class
    [array-item] and the path of the array followed by the number of items
    that were there, and the items of the array are afterwards the items
    that were there, changed in the states of buttons at most, followed by
    it; the click fails only when that item cannot be built. *)
Theorem add_appends_one_item (H : Host) (state_schema : json) (fuel : nat)
        (form wrapper itemsContainer button : node) (rest : list node)
        (wpos : list nat) (b : nat) (schema : json) (path : string) :
  get_at wpos form = Some wrapper ->
  children_of wrapper = itemsContainer :: rest ->
  get_at (wpos ++ [b])%list form = Some button ->
  handler_of button = Some (OnAddItem schema path) ->
  let count := List.length (children_with_class "array-item" itemsContainer) in
  let full := negb (is_undefined (prop schema "maxItems"))
              && count_ge count (ToNumber (prop schema "maxItems")) in
  (disabled_of button = true \/ full = true ->
   click state_schema fuel (wpos ++ [b])%list form = Ret form)
  /\ (disabled_of button = false -> full = false ->
      match addArrayItem state_schema (createControlForSchema state_schema fuel)
                         count (prop schema "items") path JUndefined with
      | Ret item =>
          data "schemaPath" item = Some (item_path path count)
          /\ has_class "array-item" item = true
          /\ exists form' wrapper',
              click state_schema fuel (wpos ++ [b])%list form = Ret form'
              /\ get_at wpos form' = Some wrapper'
              /\ map without_states (items_of wrapper')
                 = map without_states (children_of itemsContainer ++ [item])%list
      | _ => forall form', click state_schema fuel (wpos ++ [b])%list form <> Ret form'
      end).
Proof.
  intros Hw Hc Hb Hh count full.
  assert (Eclick : disabled_of button = false ->
                   click state_schema fuel (wpos ++ [b])%list form
                   = update_at wpos (add_item_click state_schema fuel schema path b) form).
  { intros Hd. unfold click. rewrite (enabled_at_Some _ _ _ Hb Hd). cbn [option_map].
    now rewrite Hh, drop_last_1, last_index. }
  split.
  - intros [Hd | Hf].
    + unfold click. now rewrite (enabled_at_disabled _ _ _ Hb Hd).
    + destruct (disabled_of button) eqn:Hd.
      * unfold click. now rewrite (enabled_at_disabled _ _ _ Hb Hd).
      * rewrite (Eclick eq_refl).
        assert (E : add_item_click state_schema fuel schema path b wrapper = Ret wrapper).
        { unfold add_item_click. rewrite Hc. fold count. fold full. now rewrite Hf. }
        destruct (update_at_result wpos _ form wrapper wrapper Hw E) as (form' & Ef & Eg).
        rewrite Ef. f_equal. clear - Hw Ef E.
        revert form form' Hw Ef. induction wpos as [| i wpos IH]; simpl; intros form form' Hw Ef.
        -- injection Hw as ->. congruence.
        -- destruct (nth_error (children_of form) i) as [c |] eqn:Ec; [| discriminate].
           apply bind_Ret in Ef as (c' & Ec' & Ef). injection Ef as <-.
           rewrite (IH _ _ Hw Ec').
           replace (replace_nth i c (children_of form)) with (children_of form);
             [now destruct form|].
           clear - Ec. revert i Ec. induction (children_of form) as [| x l IHl];
             intros [| i] Ec; simpl in *; try discriminate.
           ++ now injection Ec as ->.
           ++ now rewrite <- IHl.
  - intros Hd Hf. rewrite (Eclick Hd).
    assert (Estep : add_item_click state_schema fuel schema path b wrapper
                    = (item <- addArrayItem state_schema
                                 (createControlForSchema state_schema fuel)
                                 count (prop schema "items") path JUndefined ;;
                       Ret (updateArrayButtonStates (own_button b)
                              (updateArrayButtonStates first_secondary
                                 (with_children wrapper
                                    (with_children itemsContainer
                                       (children_of itemsContainer ++ [item])%list
                                     :: rest)))))).
    { unfold add_item_click. rewrite Hc. fold count. fold full. rewrite Hf.
      unfold addArrayItem_to. rewrite Hc. fold count.
      destruct (addArrayItem _ _ count _ path JUndefined); reflexivity. }
    destruct (addArrayItem state_schema (createControlForSchema state_schema fuel)
                           count (prop schema "items") path JUndefined)
      as [item | | |] eqn:Ei; cbn [bind] in Estep;
      try (apply (update_at_fails wpos _ form wrapper Hw); intros n'; rewrite Estep;
           discriminate).
    split; [eapply addArrayItem_path; exact Ei|].
    split; [unfold has_class; now rewrite (addArrayItem_classes _ _ _ _ _ _ _ _ Ei)|].
    destruct (update_at_result wpos _ form wrapper _ Hw Estep) as (form' & Ef & Eg).
    eexists; eexists. split; [exact Ef|]. split; [exact Eg|].
    rewrite (items_of_states _ _ (updateArrayButtonStates_states H (own_button b) _
                                    (own_button_states b))).
    rewrite (items_of_states _ _ (updateArrayButtonStates_states H first_secondary _
                                    first_secondary_states)).
    unfold items_of. now rewrite !with_children_children.
Qed.

Definition tags_schema : json :=
  JObj [("type", JStr "array"); ("items", JObj [("type", JStr "string")]);
        ("maxItems", JNum (Int 2))].

Definition tags_form : node :=
  Eval vm_compute in
    match renderSchemaForm (H := example_host) tags_schema 3 tags_schema with
    | Ret form => form
    | _ => element "div" [] []
    end.

Lemma add_appends_one_item_witness :
  exists form' wrapper',
    click (H := example_host) tags_schema 3 [0; 1; 1]%nat tags_form = Ret form'
    /\ get_at [0; 1]%nat form' = Some wrapper'
    /\ map (data "schemaPath") (items_of wrapper') = [Some "root[0]"].
Proof.
  destruct (get_at [0; 1]%nat tags_form) as [wrapper |] eqn:Ew; [| discriminate Ew].
  destruct (children_of wrapper) as [| container rest] eqn:Ec;
    [vm_compute in Ew; injection Ew as <-; discriminate Ec|].
  destruct (get_at ([0; 1] ++ [1])%list%nat tags_form) as [button |] eqn:Eb;
    [| discriminate Eb].
  pose proof (proj2 (add_appends_one_item example_host tags_schema 3 tags_form
                       wrapper container button rest [0; 1]%nat 1 tags_schema "root"
                       Ew Ec Eb
                       ltac:(vm_compute in Eb; injection Eb as <-; reflexivity))
                    ltac:(vm_compute in Eb; injection Eb as <-; reflexivity)
                    ltac:(vm_compute in Ew; injection Ew as <-; cbn [children_of] in Ec;
                          injection Ec as <- _; reflexivity)) as X.
  assert (Ecount : List.length (children_with_class "array-item" container) = 0%nat).
  { vm_compute in Ew; injection Ew as <-; cbn [children_of] in Ec;
      injection Ec as <- _; reflexivity. }
  rewrite Ecount in X.
  destruct (addArrayItem (H := example_host) tags_schema
                         (createControlForSchema tags_schema 3) 0
                         (prop tags_schema "items") "root" JUndefined)
    as [item | | |] eqn:Ei; try discriminate Ei.
  destruct X as (Hp & _ & form' & wrapper' & Eclick & Eg & Es).
  exists form', wrapper'. split; [exact Eclick|]. split; [exact Eg|].
  rewrite (map_states_data _ _ _ Es), map_app. cbn [map]. rewrite Hp.
  vm_compute in Ew; injection Ew as <-; cbn [children_of] in Ec; injection Ec as <- _.
  reflexivity.
Defined.

(** ** Constants among enumerated values *)


(** X26.  A constant can always be shown: when a schema has both [enum] and
    [const], the select that is built has an option for the constant,
    whether the enumeration lists it or not, and shows it. *)
Theorem constant_is_selectable (H : Host) (schema : json) (path : string)
        (isRequired : bool) (wrapper : node) (enum : list json) :
  prop schema "enum" = JArr enum ->
  is_undefined (prop schema "const") = false ->
  by_reference (prop schema "const") = false ->
  createPrimitiveField schema path isRequired = Ret wrapper ->
  exists control,
    children_of wrapper = [control]
    /\ value_of control = JStr (stringifySchemaValue (prop schema "const")).
Proof.
  intros He Hu Hb E. unfold createPrimitiveField in E. rewrite He, Hu in E.
  unfold includes in E. rewrite Hb in E. cbn [bind negb] in E.
  injection E as <-. eexists. split; [reflexivity|].
  set (c := prop schema "const") in *.
  assert (S : existsb (String.eqb (stringifySchemaValue c))
                      ("" :: map stringifySchemaValue enum
                          ++ (if existsb (json_eqb c) enum then []
                              else [stringifySchemaValue c]))%list = true).
  { cbn [existsb]. rewrite existsb_app.
    destruct (existsb (json_eqb c) enum) eqn:Ee.
    - apply existsb_exists in Ee as (x & Hx & Ex).
      apply (json_eqb_value_eq _ _ Hb) in Ex. subst x.
      assert (X : existsb (String.eqb (stringifySchemaValue c))
                          (map stringifySchemaValue enum) = true).
      { apply existsb_exists. exists (stringifySchemaValue c).
        split; [now apply in_map | apply String.eqb_refl]. }
      rewrite X. now rewrite orb_true_r.
    - cbn [existsb]. rewrite String.eqb_refl. now rewrite !orb_true_r. }
  cbn [set_data set_value sanitize value_of]. cbn [existsb] in S. now rewrite S.
Qed.

Definition letter_schema : json :=
  JObj [("enum", JArr [JStr "a"; JStr "b"]); ("const", JStr "c")].

Lemma constant_is_selectable_witness :
  exists control,
    omap children_of (createPrimitiveField (H := example_host) letter_schema "root" false)
    = Ret [control]
    /\ value_of control = JStr "c".
Proof.
  destruct (createPrimitiveField (H := example_host) letter_schema "root" false)
    as [wrapper | | |] eqn:E; try (vm_compute in E; discriminate E).
  destruct (constant_is_selectable example_host letter_schema "root" false wrapper
              [JStr "a"; JStr "b"] eq_refl eq_refl eq_refl E) as (control & Hc & Hv).
  exists control. split; [| exact Hv]. cbn [omap bind]. now rewrite Hc.
Defined.

(** ** anyOf *)

Definition any_schema (alternatives : json) : json := JObj [("anyOf", alternatives)].

Definition any_property_schema (alternatives : json) : json :=
  JObj [("type", JStr "object");
        ("properties", JObj [("x", any_schema alternatives)])].

Definition any_object_property_schema (alternatives : json) : json :=
  JObj [("type", JStr "object");
        ("properties", JObj [("x", JObj [("type", JStr "object");
                                         ("anyOf", alternatives)])])].

(** The controls of a form, and its error notes. *)
Definition controls (form : node) : list node :=
  filter (fun d => match kind_of d with Plain => false | _ => true end) (descendants form).

Definition error_notes (form : node) : list node :=
  filter (has_classes ["helper-text"; "error"]) (descendants form).

(** X27.  Whether [anyOf] is refused depends on which function meets it.
    [buildFields] refuses it: a schema that is just an [anyOf] gets an
    error note and no control at the top of the form, and so does a property
    of type [object] with an [anyOf]; nothing is collected for either.
    [createControlForSchema] does not look at [anyOf]: the same schema as a
    property without a type gets a plain text field and no note, and what is
    typed there is collected as a string. *)
Theorem anyOf_is_refused_by_buildFields (H : Host) (alternatives : json) (text : string) :
  truthy alternatives = true ->
  strip_newlines text <> "" ->
  (exists form,
      renderSchemaForm (any_schema alternatives) 2 (any_schema alternatives) = Ret form
      /\ controls form = [] /\ List.length (error_notes form) = 1%nat
      /\ forall fuel, collectData (any_schema alternatives) form (S fuel)
                                  (any_schema alternatives) "root" = Ret JUndefined)
  /\ (exists form,
        renderSchemaForm (any_object_property_schema alternatives) 4
                         (any_object_property_schema alternatives) = Ret form
        /\ controls form = [] /\ List.length (error_notes form) = 1%nat
        /\ forall fuel, collectData (any_object_property_schema alternatives) form
                                    (2 + fuel) (any_object_property_schema alternatives) "root"
                        = Ret (JObj []))
  /\ (exists form typed,
        renderSchemaForm (any_property_schema alternatives) 3
                         (any_property_schema alternatives) = Ret form
        /\ List.length (controls form) = 1%nat /\ error_notes form = []
        /\ input [0; 1; 1; 0]%nat text form = Ret typed
        /\ forall fuel, collectData (any_property_schema alternatives) typed (2 + fuel)
                                    (any_property_schema alternatives) "root"
                        = Ret (JObj [("x", JStr (strip_newlines text))])).
Proof.
  intros Ht Hn.
  assert (En : String.eqb (strip_newlines text) "" = false) by now apply String.eqb_neq.
  split; [| split].
  - eexists. split; [| split; [| split]].
    + unfold renderSchemaForm, any_schema. cbn. rewrite Ht. cbn. reflexivity.
    + reflexivity.
    + reflexivity.
    + intros fuel. unfold any_schema. cbn -[query_data].
      rewrite query_data_safe by reflexivity. cbn. reflexivity.
  - eexists. split; [| split; [| split]].
    + unfold renderSchemaForm, any_object_property_schema. cbn. rewrite Ht. cbn.
      reflexivity.
    + reflexivity.
    + reflexivity.
    + intros fuel. unfold any_object_property_schema. cbn -[query_data]. reflexivity.
  - eexists. eexists. split; [| split; [| split; [| split]]].
    + unfold renderSchemaForm, any_property_schema, any_schema. cbn. reflexivity.
    + reflexivity.
    + reflexivity.
    + cbn -[strip_newlines]. reflexivity.
    + intros fuel. unfold any_property_schema, any_schema.
      cbn -[strip_newlines query_data]. rewrite query_data_safe by reflexivity.
      cbn -[strip_newlines]. rewrite ?En. cbn -[strip_newlines].
      unfold assign, define. cbn -[strip_newlines]. rewrite ?En. reflexivity.
Qed.

Lemma anyOf_is_refused_by_buildFields_witness :
  (exists form,
      renderSchemaForm (H := example_host) (any_schema (JArr [JNull])) 2
                       (any_schema (JArr [JNull])) = Ret form
      /\ controls form = [])
  /\ (exists form,
        renderSchemaForm (H := example_host) (any_property_schema (JArr [JNull])) 3
                         (any_property_schema (JArr [JNull])) = Ret form
        /\ List.length (controls form) = 1%nat).
Proof.
  destruct (anyOf_is_refused_by_buildFields example_host (JArr [JNull]) "a"
              eq_refl ltac:(discriminate))
    as ((form & E & C & _) & _ & (form' & typed & E' & C' & _)).
  split; [now exists form | now exists form'].
Defined.

(** ** Blank array items *)

Definition pair_strings : json :=
  JObj [("type", JStr "array"); ("items", JObj [("type", JStr "string")]);
        ("minItems", JNum (Int 2))].

(** X28.  A blank item is left out of a collected array of strings.  The
    form of an array of strings with [minItems] 2 opens with two fields; with
    a text typed into the second one only, the document is the array of that
    one text, so the text becomes the first element. *)
Theorem blank_items_are_left_out (H : Host) (text : string) :
  strip_newlines text <> "" ->
  exists typed,
    (form <- renderSchemaForm pair_strings 3 pair_strings ;;
     input [0; 1; 0; 1; 0; 0]%nat text form) = Ret typed
    /\ List.length (children_with_class "array-item"
                      (nth 0 (children_of (nth 1 (children_of (nth 0 (children_of typed)
                         (element "div" [] []))) (element "div" [] []))) (element "div" [] []))) = 2%nat
    /\ forall fuel, collectData pair_strings typed (2 + fuel) pair_strings "root"
                    = Ret (JArr [JStr (strip_newlines text)]).
Proof.
  intros Hn.
  assert (En : String.eqb (strip_newlines text) "" = false) by now apply String.eqb_neq.
  eassert (E0 : renderSchemaForm pair_strings 3 pair_strings = Ret _)
    by (vm_compute; reflexivity).
  eexists. split; [| split].
  - rewrite E0. cbn -[strip_newlines]. reflexivity.
  - reflexivity.
  - intros fuel. unfold pair_strings.
    cbn -[strip_newlines query_data]. rewrite ?query_data_safe by reflexivity.
    cbn -[strip_newlines]. rewrite ?En. cbn -[strip_newlines].
    rewrite ?En. reflexivity.
Qed.

Lemma blank_items_are_left_out_witness :
  exists typed,
    (form <- renderSchemaForm (H := example_host) pair_strings 3 pair_strings ;;
     input [0; 1; 0; 1; 0; 0]%nat "b" form) = Ret typed
    /\ forall fuel, collectData (H := example_host) pair_strings typed (2 + fuel)
                                pair_strings "root"
                    = Ret (JArr [JStr "b"]).
Proof.
  destruct (blank_items_are_left_out example_host "b" ltac:(discriminate))
    as (typed & E & _ & C).
  exists typed. split; [exact E | exact C].
Defined.

(** ** Button states of nested arrays *)

Lemma has_class_add c d cl :
  c <> d -> existsb (String.eqb c) (classList_add d cl) = existsb (String.eqb c) cl.
Proof.
  intros N. unfold classList_add. destruct (existsb (String.eqb d) cl); [reflexivity|].
  rewrite existsb_app. simpl. destruct (String.eqb_spec c d); [contradiction|].
  now rewrite !orb_false_r.
Qed.

Lemma has_class_remove c d cl :
  c <> d -> existsb (String.eqb c) (classList_remove d cl) = existsb (String.eqb c) cl.
Proof.
  intros N. unfold classList_remove. induction cl as [| x cl IH]; [reflexivity|]. simpl.
  destruct (String.eqb_spec d x) as [<- | Nx]; simpl.
  - destruct (String.eqb_spec c d); [contradiction | exact IH].
  - now rewrite IH.
Qed.

Lemma has_class_set_disabled c b n :
  c <> "disabled" -> has_class c (set_disabled b n) = has_class c n.
Proof.
  intros N. destruct n as [t cl d k v b0 h ch]. unfold has_class. cbn [set_disabled classes_of].
  destruct b; [now apply has_class_add | now apply has_class_remove].
Qed.

Definition is_remove_button (n : node) : bool := has_classes ["app-button"; "ghost"] n.

Lemma is_remove_button_set_disabled b n :
  is_remove_button (set_disabled b n) = is_remove_button n.
Proof.
  unfold is_remove_button, has_classes. cbn [forallb].
  now rewrite !has_class_set_disabled by discriminate.
Qed.

Lemma is_remove_button_update_all p f n :
  is_remove_button (update_all p f n) = is_remove_button n.
Proof.
  unfold is_remove_button, has_classes, has_class. now rewrite update_all_classes.
Qed.

Lemma set_disabled_children b n : children_of (set_disabled b n) = children_of n.
Proof. destruct n; reflexivity. Qed.

Lemma set_disabled_disabled b n : disabled_of (set_disabled b n) = b.
Proof. destruct n; reflexivity. Qed.

Lemma subtree_eq n : subtree n = n :: flat_map subtree (children_of n).
Proof. destruct n; reflexivity. Qed.

Lemma update_all_buttons off n : forall b,
  In b (descendants (update_all is_remove_button (set_disabled off) n)) ->
  is_remove_button b = true -> disabled_of b = off.
Proof.
  induction n as [t cl d k v b0 h c IH] using node_deep_ind. intros b.
  unfold descendants. rewrite update_all_eq, with_children_children. cbn [children_of].
  rewrite flat_map_concat_map, map_map, <- flat_map_concat_map.
  intros Hin Hb. apply in_flat_map in Hin as (x & Hx & Hin).
  rewrite Forall_forall in IH. specialize (IH x Hx).
  cbn zeta in Hin. rewrite subtree_eq in Hin. destruct Hin as [<- | Hin].
  - destruct (is_remove_button x) eqn:Px.
    + apply set_disabled_disabled.
    + rewrite is_remove_button_update_all in Hb. congruence.
  - apply IH; [| exact Hb]. unfold descendants.
    destruct (is_remove_button x); [now rewrite set_disabled_children in Hin | exact Hin].
Qed.

Lemma at_minItems_update_remove_buttons (H : Host) c :
  at_minItems (update_remove_buttons c) = at_minItems c.
Proof.
  unfold at_minItems, bound_of, data, children_with_class, update_remove_buttons.
  rewrite with_children_dataset, with_children_children.
  replace (List.length (filter (has_class "array-item")
             (map (fun item => if has_class "array-item" item
                               then update_all (has_classes ["app-button"; "ghost"])
                                               (set_disabled (at_minItems c)) item
                               else item) (children_of c))))
    with (List.length (filter (has_class "array-item") (children_of c))); [reflexivity|].
  induction (children_of c) as [| x l IH]; [reflexivity|]. cbn [map filter].
  destruct (has_class "array-item" x) eqn:E.
  - unfold has_class at 2. rewrite update_all_classes. fold (has_class "array-item" x).
    rewrite E. simpl. now rewrite IH.
  - rewrite E. exact IH.
Qed.

Lemma update_remove_buttons_buttons (H : Host) c item b :
  In item (children_of (update_remove_buttons c)) ->
  has_class "array-item" item = true ->
  In b (descendants item) -> is_remove_button b = true ->
  disabled_of b = at_minItems c.
Proof.
  unfold update_remove_buttons. rewrite with_children_children.
  intros Hin Hc Hb Pb. apply in_map_iff in Hin as (x & <- & Hx).
  destruct (has_class "array-item" x) eqn:E.
  - eapply update_all_buttons; eauto.
  - congruence.
Qed.

(** X29.  The Remove buttons below the items of an array follow that array,
    whichever array they belong to.  In the field that [createArrayField]
    builds, every [.app-button.ghost] below an item (the Remove buttons of
    the items, and those of arrays and dynamic properties nested in them)
    is disabled exactly when the array itself holds no more than its
    [minItems] items. *)
Theorem nested_remove_buttons_follow_the_array (H : Host) (state_schema : json)
        (rec : json -> string -> bool -> outcome (list node))
        (schema : json) (path : string) (isRequired : bool) (wrapper : node) :
  createArrayField state_schema rec schema path isRequired = Ret wrapper ->
  exists container rest,
    children_of wrapper = container :: rest
    /\ List.length (children_of container) = initialItems (prop schema "minItems")
    /\ forall item b,
         In item (children_of container) -> In b (descendants item) ->
         is_remove_button b = true ->
         disabled_of b = at_minItems container.
Proof.
  intros E. unfold createArrayField in E. apply bind_Ret in E as (w1 & E1 & E).
  injection E as <-.
  assert (W : array_wrapper (initialItems (prop schema "minItems")) w1).
  { eapply (add_items_slots H state_schema rec _ path _ 0%nat); [| exact E1].
    eexists; eexists. split; [reflexivity|].
    repeat match goal with
           | |- context [if ?c then _ else _] => destruct c
           end; repeat split; try (now rewrite ?set_data_classes); constructor. }
  destruct W as (c & rest & Hw & Hc & Hi & Hk).
  unfold updateArrayButtonStates, own_button. rewrite Hw, with_children_children.
  cbn [update_nth]. rewrite with_children_children.
  eexists; eexists. split; [reflexivity|]. split.
  - unfold update_remove_buttons. now rewrite with_children_children, length_map.
  - intros item b Hin Hb Pb. rewrite at_minItems_update_remove_buttons.
    eapply update_remove_buttons_buttons; eauto.
    unfold update_remove_buttons in Hin. rewrite with_children_children in Hin.
    apply in_map_iff in Hin as (x & <- & Hx). rewrite Forall_forall in Hi.
    assert (Cx : has_class "array-item" x = true) by (unfold has_class; now rewrite (Hi x Hx)).
    rewrite Cx. unfold has_class. rewrite update_all_classes. exact Cx.
Qed.

Definition rows_schema : json :=
  JObj [("type", JStr "array"); ("minItems", JNum (Int 1));
        ("items", JObj [("type", JStr "array"); ("minItems", JNum (Int 2));
                        ("items", JObj [("type", JStr "string")])])].

Lemma nested_remove_buttons_follow_the_array_witness :
  exists wrapper container rest,
    createArrayField (H := example_host) rows_schema (createControlForSchema rows_schema 4)
                     rows_schema "root" false = Ret wrapper
    /\ children_of wrapper = container :: rest
    /\ at_minItems (H := example_host) container = true
    /\ List.length (filter is_remove_button (descendants container)) = 3%nat
    /\ forall item b,
         In item (children_of container) -> In b (descendants item) ->
         is_remove_button b = true -> disabled_of b = true.
Proof.
  destruct (createArrayField (H := example_host) rows_schema
                             (createControlForSchema rows_schema 4) rows_schema "root" false)
    as [wrapper | | |] eqn:E; try (vm_compute in E; discriminate E).
  destruct (nested_remove_buttons_follow_the_array example_host _ _ _ _ _ _ E)
    as (container & rest & Ew & _ & Hb).
  exists wrapper, container, rest. split; [reflexivity|]. split; [exact Ew|].
  assert (Em : at_minItems (H := example_host) container = true
               /\ List.length (filter is_remove_button (descendants container)) = 3%nat).
  { vm_compute in E. injection E as <-. cbn [children_of] in Ew. injection Ew as <- _.
    split; vm_compute; reflexivity. }
  split; [apply Em|]. split; [apply Em|].
  intros item b Hi Hd Pb. rewrite (Hb item b Hi Hd Pb). apply Em.
Defined.
